(** * hyperatompunk: a Hyper terminal theme with a post-processing pipeline

    A shallow embedding of the three JavaScript sources of the plugin:

    - [Theme]          : [index.js], the colour/CSS decorator;
    - [Passes]         : [src/passes.js], the effect/pass factory;
    - [PostProcessing] : [src/index.js], the React component that wires
                         xterm's render-layer canvases into a three.js scene
                         and an effect composer.  The file holds two versions
                         of the component; the embedding follows the later
                         one, which imports [./passes].
                         [Legacy] holds the method of the older one that
                         parses the shader configuration.

    JavaScript objects that are shared and mutated (config objects, textures,
    materials, passes) live in stores addressed by references; a reference is
    the index at which the object was allocated.  JavaScript numbers are
    modelled by rationals. *)

From Stdlib Require Import QArith Qminmax Lqa.
From stdpp Require Import base option list gmap strings.

Open Scope string_scope.
Open Scope list_scope.

(** ** Object stores *)

Section Store.
Context {A : Type}.

(** [new X(...)]: the object is appended, its reference is its index. *)
Definition alloc (x : A) (h : list A) : nat * list A := (length h, h ++ [x]).

End Store.

(** ** index.js: the theme decorator *)

Module Theme.

Definition BRIGHT_GREEN : string := "#28FC91".
Definition DARK_GREEN : string := "#0F2218".
Definition TEXT_GREEN : string := "51, 255, 0".

(** Values held by the properties of a configuration object. *)
Inductive JsVal :=
| VUndefined
| VNull
| VBool (b : bool)
| VNum (q : Q)
| VStr (s : string)
| VRef (l : nat).

(** An object is the finite map of its own enumerable properties. *)
Abbreviation JsObj := (gmap string JsVal).
Abbreviation Heap := (list JsObj).

(** [Object.assign(target, ...sources)]: every own enumerable property of
    each source, taken left to right, is written on the target; a later
    source overwrites an earlier one.  The sources are only read. *)
Definition assign_from (tgt src : JsObj) : JsObj := src ∪ tgt.

Definition Object_assign (target : nat) (sources : list nat) (h : Heap) : nat * Heap :=
  match h !! target with
  | None => (target, h)
  | Some t0 =>
      let t' := foldl (fun t s => match h !! s with
                                  | Some o => assign_from t o
                                  | None => t
                                  end) t0 sources in
      (target, <[target := t']> h)
  end.

(** The object literal of the overrides. *)
Definition overrides : JsObj :=
  <["cursorColor" := VStr "#40FFFF"]>
    (<["borderColor" := VStr BRIGHT_GREEN]>
       (<["backgroundColor" := VStr DARK_GREEN]>
          (<["foregroundColor" := VStr BRIGHT_GREEN]> ∅))).

(** [exports.decorateConfig = (config) => Object.assign({}, config, {...})].
    The arguments are evaluated left to right: the empty target is
    allocated first, then the literal. *)
Definition decorateConfig (config : nat) (h : Heap) : nat * Heap :=
  let '(target, h1) := alloc ∅ h in
  let '(lit, h2) := alloc overrides h1 in
  Object_assign target [config; lit] h2.

Definition themed (k : string) : bool :=
  bool_decide (k = "foregroundColor") || bool_decide (k = "backgroundColor")
  || bool_decide (k = "borderColor") || bool_decide (k = "cursorColor").

(** *** The component decorators *)

(** [o.k]: a property the object does not have reads as [undefined]. *)
Definition get (o : JsObj) (k : string) : JsVal := default VUndefined (o !! k).

(** The truth value of a value, as [||] takes it. *)
Definition truthy (v : JsVal) : bool :=
  match v with
  | VUndefined | VNull => false
  | VBool b => b
  | VNum q => negb (Qeq_bool q 0)
  | VStr EmptyString => false
  | VStr _ => true
  | VRef _ => true
  end.

(** [v || ''] *)
Definition or_empty (v : JsVal) : JsVal := if truthy v then v else VStr EmptyString.

(** The string a template literal makes of a value; how numbers and objects
    are printed is the host's business. *)
Record Printer := mkPrinter {
  print_num : Q → string;
  print_obj : nat → string
}.

Definition ToString (pr : Printer) (v : JsVal) : string :=
  match v with
  | VUndefined => "undefined"
  | VNull => "null"
  | VBool true => "true"
  | VBool false => "false"
  | VNum q => print_num pr q
  | VStr s => s
  | VRef l => print_obj pr l
  end.

(** The character U+0022.  Strings are sequences of bytes: U+2716 is written
    in UTF-8. *)
Definition quote : string := String (Ascii.ascii_of_nat 34) EmptyString.

(** [exports.decorateHyper]: the class it returns has one method of its own. *)
Module decorateHyper.

(** The template literal of [customCSS]; [user] is what
    [this.props.customCSS || ''] prints as. *)
Definition customCSS (user : string) : string :=
  ("
          " ++
  user ++
  "
          .tabs_nav .tabs_title {
            color: rgb(" ++
  TEXT_GREEN ++
  ") !important;
            font-weight: bold !important;
            animation: textShadow 1.6s infinite;
          }
          .tabs_list {
            background-color: " ++
  DARK_GREEN ++
  " !important;
            background-image: none !important;
          }
          .tab_tab {
            border: 3px dashed rgb(" ++
  TEXT_GREEN ++
  ");
            height: 40px;
          }
          .tab_tab:not(.tab_active) {
            color: rgba(" ++
  TEXT_GREEN ++
  ", 0.7);
          }
          .tab_tab.tab_active {
            animation: textShadow 1.6s infinite;
            font-weight: bold;
            color: rgb(" ++
  TEXT_GREEN ++
  ");
            border: 3px double rgb(" ++
  TEXT_GREEN ++
  ");
          }
          .terms_termsShifted {
            margin-top: 74px;
          }
          .tab_icon {
            color: rgb(" ++
  TEXT_GREEN ++
  ");
            font-style: normal;
            line-height: 14px;
          }
          .tab_icon:before {
            content: " ++
  quote ++
  "✖" ++
  quote ++
  "
          }
          .tab_icon:hover {
            background-color: transparent;
          }
          .tab_shape {
            display: none;
          }
        ")%string.

Definition overridenProps (pr : Printer) (props : JsObj) : JsObj :=
  <["customCSS" := VStr (customCSS (ToString pr (or_empty (get props "customCSS"))))]>
    (<["backgroundColor" := VStr "black"]> ∅).

(** [render()]: the props handed to [React.createElement(HyperTerm, ...)].
    The literal is built first, then the empty target. *)
Definition render (pr : Printer) (this_props : nat) (h : Heap) : option (nat * Heap) :=
  props ← h !! this_props;
  let '(lit, h1) := alloc (overridenProps pr props) h in
  let '(target, h2) := alloc ∅ h1 in
  Some (Object_assign target [this_props; lit] h2).

End decorateHyper.

(** [exports.decorateTerm] of the theme. *)
Module decorateTerm.

Definition customCSS (user : string) : string :=
  ("
        " ++
  user ++
  "
      ")%string.

Definition overridenProps (pr : Printer) (props : JsObj) : JsObj :=
  <["customCSS" := VStr (customCSS (ToString pr (or_empty (get props "customCSS"))))]> ∅.

Definition render (pr : Printer) (this_props : nat) (h : Heap) : option (nat * Heap) :=
  props ← h !! this_props;
  let '(lit, h1) := alloc (overridenProps pr props) h in
  let '(target, h2) := alloc ∅ h1 in
  Some (Object_assign target [this_props; lit] h2).

End decorateTerm.

End Theme.

(** ** The host: browser, xterm, three.js and postprocessing *)

Abbreviation Node := nat (only parsing).
Abbreviation Canvas := nat (only parsing).
Abbreviation XTerm := nat (only parsing).
Abbreviation TexRef := nat (only parsing).
Abbreviation MatRef := nat (only parsing).
Abbreviation PassRef := nat (only parsing).

(** Constructors and methods of the libraries that the sources call inside
    a [try] block; the host decides which of them throw. *)
Inductive Ctor :=
| CUniform
| CMap
| CEffect (name : string)
| CCustomEffectPass
| CEffectPass
| CRenderPass
| CAddPass (p : PassRef).

Inductive Error :=
| TypeError (what : string)
| LibError (c : Ctor) (code : nat).

Inductive ConsoleEntry :=
| Log (msg : string)
| LogErr (e : Error).

(** The argument of [onDecorated]: Hyper's term component. *)
Record Term := mkTerm {
  termRef : Node;     (* the container element of the terminal *)
  term : XTerm        (* the xterm instance *)
}.

(** three.js textures, materials and meshes. *)
Inductive Filter := LinearMipMapLinearFilter | LinearFilter.

Record Texture := mkTexture {
  image : option Canvas;
  minFilter : Filter;
  needsUpdate : bool;
  disposed : bool
}.

Record Material := mkMaterial {
  color : N;
  map : TexRef;
  transparent : bool
}.

Record Mesh := mkMesh {
  geometry : Q * Q;        (* PlaneGeometry(width, height) *)
  material : MatRef
}.

(** Values of shader uniforms.  [UQuot w h] is the number [w / h] as the
    host computes it. *)
Inductive UVal :=
| UNum (q : Q)
| UQuot (w h : Q)
| UVec2 (x y : Q)
| UTex (t : TexRef).

Record ShaderMaterial := mkShaderMaterial {
  muniforms : gmap string UVal
}.

(** postprocessing effects and passes. *)
Inductive ShaderSrc := crtFragmentShader | curvedFragmentShader.
Inductive BlendFunction := NORMAL.

Record Effect := mkEffect {
  ename : string;
  fragment : ShaderSrc;
  blendFunction : BlendFunction;
  uniforms : gmap string Q          (* Map of name to Uniform, by its value *)
}.

(** The classes a pass object can be an instance of.  [CustomEffectPass]
    extends [EffectPass], which extends [Pass]; [RenderPass] extends [Pass];
    [OtherPass] stands for any other subclass of [Pass]. *)
Inductive PassClass :=
| RenderPass
| EffectPass
| CustomEffectPass
| OtherPass
| NotAPass.

Definition instanceof_Pass (c : PassClass) : bool :=
  match c with NotAPass => false | _ => true end.

Definition instanceof_EffectPass (c : PassClass) : bool :=
  match c with EffectPass | CustomEffectPass => true | _ => false end.

Record Pass := mkPass {
  pclass : PassClass;
  renderToScreen : bool;
  effects : list Effect;
  fullscreenMaterial : option ShaderMaterial   (* getFullscreenMaterial() *)
}.

Definition set_renderToScreen (b : bool) (p : Pass) : Pass :=
  mkPass (pclass p) b (effects p) (fullscreenMaterial p).
Definition set_effects (es : list Effect) (p : Pass) : Pass :=
  mkPass (pclass p) (renderToScreen p) es (fullscreenMaterial p).
Definition set_fullscreenMaterial (m : option ShaderMaterial) (p : Pass) : Pass :=
  mkPass (pclass p) (renderToScreen p) (effects p) m.

(** The two closures that [_init] registers on xterm's resize event. *)
Inductive Listener := onResize | resizeOnce.

Global Instance Listener_eq_dec : EqDecision Listener.
Proof. solve_decision. Defined.

(** A frame requested with [window.requestAnimationFrame(render)]: its id
    and what the closure [render] captured when the loop was started. *)
Record Frame := mkFrame {
  fid : nat;
  fmaterials : list MatRef;       (* xTermMaterials *)
  ftimeUniforms : nat             (* timeUniformsLength *)
}.

(** What the code cannot decide: which library calls throw, the values of
    [Math.random()], the rounding of the host's arithmetic, the device pixel
    ratio and the uniforms of the material postprocessing gives to an
    [EffectPass]. *)
Record Host := mkHost {
  fault : Ctor -> option Error;
  rng : nat -> Q;
  fl : Q -> Q;
  devicePixelRatio : Q;
  effectMaterial : ShaderMaterial
}.

Record World := mkWorld {
  host : Host;
  (* the document, as the code reads it *)
  screenOf : gmap Node Node;              (* querySelector('.xterm .xterm-screen') *)
  canvasesOf : gmap Node (list Canvas);   (* querySelectorAll('canvas') *)
  bounds : gmap XTerm (Q * Q);            (* element.getBoundingClientRect() *)
  (* what the code changes *)
  drawn : nat;                            (* calls of Math.random() so far *)
  console : list ConsoleEntry;
  chained : list (option Term);           (* calls of props.onDecorated *)
  textures : list Texture;
  materials : list Material;
  passObjs : list Pass;
  opacity : gmap Canvas Q;                (* canvas.style.opacity *)
  created : nat;                          (* document.createElement('canvas') *)
  appended : list (Node * nat);           (* container.append(canvas) *)
  observers : list Node;                  (* MutationObserver targets *)
  resizeListeners : list (XTerm * Listener);
  pending : list Frame;                   (* requested animation frames *)
  nextFrame : nat
}.

Definition set_drawn v (x : World) : World :=
  mkWorld (host x) (screenOf x) (canvasesOf x) (bounds x) v (console x) (chained x)
    (textures x) (materials x) (passObjs x) (opacity x) (created x) (appended x)
    (observers x) (resizeListeners x) (pending x) (nextFrame x).
Definition set_console v (x : World) : World :=
  mkWorld (host x) (screenOf x) (canvasesOf x) (bounds x) (drawn x) v (chained x)
    (textures x) (materials x) (passObjs x) (opacity x) (created x) (appended x)
    (observers x) (resizeListeners x) (pending x) (nextFrame x).
Definition set_chained v (x : World) : World :=
  mkWorld (host x) (screenOf x) (canvasesOf x) (bounds x) (drawn x) (console x) v
    (textures x) (materials x) (passObjs x) (opacity x) (created x) (appended x)
    (observers x) (resizeListeners x) (pending x) (nextFrame x).
Definition set_textures v (x : World) : World :=
  mkWorld (host x) (screenOf x) (canvasesOf x) (bounds x) (drawn x) (console x)
    (chained x) v (materials x) (passObjs x) (opacity x) (created x) (appended x)
    (observers x) (resizeListeners x) (pending x) (nextFrame x).
Definition set_materials v (x : World) : World :=
  mkWorld (host x) (screenOf x) (canvasesOf x) (bounds x) (drawn x) (console x)
    (chained x) (textures x) v (passObjs x) (opacity x) (created x) (appended x)
    (observers x) (resizeListeners x) (pending x) (nextFrame x).
Definition set_passObjs v (x : World) : World :=
  mkWorld (host x) (screenOf x) (canvasesOf x) (bounds x) (drawn x) (console x)
    (chained x) (textures x) (materials x) v (opacity x) (created x) (appended x)
    (observers x) (resizeListeners x) (pending x) (nextFrame x).
Definition set_opacity v (x : World) : World :=
  mkWorld (host x) (screenOf x) (canvasesOf x) (bounds x) (drawn x) (console x)
    (chained x) (textures x) (materials x) (passObjs x) v (created x) (appended x)
    (observers x) (resizeListeners x) (pending x) (nextFrame x).
Definition set_created v (x : World) : World :=
  mkWorld (host x) (screenOf x) (canvasesOf x) (bounds x) (drawn x) (console x)
    (chained x) (textures x) (materials x) (passObjs x) (opacity x) v (appended x)
    (observers x) (resizeListeners x) (pending x) (nextFrame x).
Definition set_appended v (x : World) : World :=
  mkWorld (host x) (screenOf x) (canvasesOf x) (bounds x) (drawn x) (console x)
    (chained x) (textures x) (materials x) (passObjs x) (opacity x) (created x) v
    (observers x) (resizeListeners x) (pending x) (nextFrame x).
Definition set_observers v (x : World) : World :=
  mkWorld (host x) (screenOf x) (canvasesOf x) (bounds x) (drawn x) (console x)
    (chained x) (textures x) (materials x) (passObjs x) (opacity x) (created x)
    (appended x) v (resizeListeners x) (pending x) (nextFrame x).
Definition set_resizeListeners v (x : World) : World :=
  mkWorld (host x) (screenOf x) (canvasesOf x) (bounds x) (drawn x) (console x)
    (chained x) (textures x) (materials x) (passObjs x) (opacity x) (created x)
    (appended x) (observers x) v (pending x) (nextFrame x).
Definition set_pending v (x : World) : World :=
  mkWorld (host x) (screenOf x) (canvasesOf x) (bounds x) (drawn x) (console x)
    (chained x) (textures x) (materials x) (passObjs x) (opacity x) (created x)
    (appended x) (observers x) (resizeListeners x) v (nextFrame x).
Definition set_nextFrame v (x : World) : World :=
  mkWorld (host x) (screenOf x) (canvasesOf x) (bounds x) (drawn x) (console x)
    (chained x) (textures x) (materials x) (passObjs x) (opacity x) (created x)
    (appended x) (observers x) (resizeListeners x) (pending x) v.

(** ** Statements that change a state and may throw *)

Inductive Res (S A : Type) :=
| Ok (a : A) (s : S)
| Throw (e : Error) (s : S).
Arguments Ok {S A} a s.
Arguments Throw {S A} e s.

Definition M (S A : Type) : Type := S -> Res S A.

Definition ret {S A} (a : A) : M S A := fun s => Ok a s.

Definition bind {S A B} (m : M S A) (k : A -> M S B) : M S B :=
  fun s => match m s with
           | Ok a s' => k a s'
           | Throw e s' => Throw e s'
           end.

Definition throw {S A} (e : Error) : M S A := fun s => Throw e s.

(** [try { m } catch (e) { h e }] *)
Definition try_catch {S A} (m : M S A) (h : Error -> M S A) : M S A :=
  fun s => match m s with
           | Ok a s' => Ok a s'
           | Throw e s' => h e s'
           end.

Definition gets {S A} (f : S -> A) : M S A := fun s => Ok (f s) s.
Definition modify {S} (f : S -> S) : M S unit := fun s => Ok tt (f s).

Declare Scope js_scope.
Delimit Scope js_scope with js.
Notation "x <- m ;; k" := (bind m (fun x => k))
  (at level 100, m at next level, right associativity) : js_scope.
Notation "m ;; k" := (bind m (fun _ => k))
  (at level 100, right associativity) : js_scope.
Open Scope js_scope.

(** [for (const x of l) { f x }] and [l.forEach(f)] *)
Fixpoint for_of {S X} (l : list X) (f : X -> M S unit) : M S unit :=
  match l with
  | [] => ret tt
  | x :: l' => f x ;; for_of l' f
  end.

(** Reading a property of a value that may be [null] or [undefined]. *)
Definition deref {S A} (what : string) (o : option A) : M S A :=
  match o with
  | Some a => ret a
  | None => throw (TypeError what)
  end.

(** A library call that the host may make throw. *)
Definition lib_call (c : Ctor) : M World unit :=
  fun w => match fault (host w) c with
           | Some e => Throw e w
           | None => Ok tt w
           end.

Definition console_log (msg : string) : M World unit :=
  modify (fun w => set_console (console w ++ [Log msg]) w).

Definition console_error (e : Error) : M World unit :=
  modify (fun w => set_console (console w ++ [LogErr e]) w).

Definition new_pass (p : Pass) : M World PassRef :=
  fun w => Ok (length (passObjs w)) (set_passObjs (passObjs w ++ [p]) w).

Definition Math_random : M World Q :=
  fun w => Ok (rng (host w) (drawn w)) (set_drawn (S (drawn w)) w).

(** ** src/passes.js: the pass factory *)

Module Passes.

(** [new Effect(name, fragmentShader, { blendFunction, uniforms })] *)
Definition new_Effect (name : string) (src : ShaderSrc) (b : BlendFunction)
    (us : gmap string Q) : M World Effect :=
  lib_call (CEffect name) ;; ret (mkEffect name src b us).

(** [new Map([['separation', new Uniform(0.5)]])] *)
Definition separation_uniforms : M World (gmap string Q) :=
  lib_call CUniform ;;
  lib_call CMap ;;
  ret (<["separation" := (1 # 2)%Q]> ∅).

(** [new EffectPass(null, effect)]: a pass is created with [renderToScreen]
    false, and with the material postprocessing builds for its effects. *)
Definition new_EffectPass (e : Effect) : M World PassRef :=
  lib_call CEffectPass ;;
  m <- gets (fun w => effectMaterial (host w)) ;;
  new_pass (mkPass EffectPass false [e] (Some m)).

(** [new CustomEffectPass(null, crtEffect)]: the subclass has no constructor
    of its own. *)
Definition new_CustomEffectPass (e : Effect) : M World PassRef :=
  lib_call CCustomEffectPass ;;
  m <- gets (fun w => effectMaterial (host w)) ;;
  new_pass (mkPass CustomEffectPass false [e] (Some m)).

(** The body of the [try] block. *)
Definition construct : M World (list PassRef) :=
  us <- separation_uniforms ;;
  crtEffect <- new_Effect "crtEffect" crtFragmentShader NORMAL us ;;
  p1 <- new_CustomEffectPass crtEffect ;;
  curved <- new_Effect "curvedFragmentEffect" curvedFragmentShader NORMAL ∅ ;;
  p2 <- new_EffectPass curved ;;
  ret [p1; p2].

(** [export default () => { try { ... return [...] } catch (e) { console.error(e) } }]:
    the result is [undefined] when the construction threw. *)
Definition createPasses : M World (option (list PassRef)) :=
  try_catch (ps <- construct ;; ret (Some ps))
            (fun e => console_error e ;; ret None).

(** [Math.min(1.0, Math.max(0.0, x))] *)
Definition clamp01 (x : Q) : Q := Qmin 1 (Qmax 0 x).

(** [prevSeparation + (Math.random() - 0.5)/5], each operation rounded by
    the host. *)
Definition perturb (f : Q -> Q) (prev r : Q) : Q :=
  f (prev + f (f (r - (1 # 2)) / 5))%Q.

(** [crtEffect.uniforms.get('separation')] on the effect of the pass. *)
Definition separation_of (p : Pass) : option Q :=
  e ← head (effects p); uniforms e !! "separation".

Definition set_separation (v : Q) (p : Pass) : Pass :=
  match effects p with
  | e :: es =>
      set_effects (mkEffect (ename e) (fragment e) (blendFunction e)
                            (<["separation" := v]> (uniforms e)) :: es) p
  | [] => p
  end.

(** [CustomEffectPass.prototype.render], up to the call of [super.render].
    [crtEffect] is the effect the pass [p] was built from. *)
Definition render (p : PassRef) : M World unit :=
  po <- gets (fun w => passObjs w !! p) ;;
  pass <- deref "pass" po ;;
  prevSeparation <- deref "crtEffect.uniforms.get(...).value" (separation_of pass) ;;
  r <- Math_random ;;
  f <- gets (fun w => fl (host w)) ;;
  modify (fun w =>
    set_passObjs (<[p := set_separation (clamp01 (perturb f prevSeparation r)) pass]>
                    (passObjs w)) w).

End Passes.

(** ** src/index.js: the post-processing component *)

Module PostProcessing.

Record Props := mkProps {
  isTermActive : bool;
  onDecorated : bool           (* is a chained onDecorated callback given? *)
}.

Record Clock := mkClock {
  autoStart : bool;
  running : bool
}.

Record Scene := mkScene {
  children : list Mesh
}.

Record Renderer := mkRenderer {
  rcanvas : nat;
  preserveDrawingBuffer : bool;
  alpha : bool;
  pixelRatio : Q;
  rsize : Q * Q
}.

Record Camera := mkCamera {
  frustum : Q * Q * Q * Q * Q * Q;   (* left, right, top, bottom, near, far *)
  positionZ : Q
}.

Record Composer := mkComposer {
  composerPasses : list PassRef;     (* in the order of addPass *)
  composerSize : option (Q * Q)      (* the last setSize(width, height) *)
}.

(** The fields of a [HyperPostProcessing] instance. *)
Record Component := mkComponent {
  props : Props;
  _isInit : bool;
  _term : option Term;
  _xTermScreen : option Node;
  _xTermLayerMap : gmap Canvas MatRef;
  _container : option Node;
  _canvas : option nat;
  _clock : option Clock;
  _scene : option Scene;
  _renderer : option Renderer;
  _camera : option Camera;
  _composer : option Composer;
  passes : list PassRef;
  _shaderPasses : list PassRef;
  _layerObserver : option nat;
  _animationId : option nat
}.

Definition set_props v (x : Component) : Component :=
  mkComponent v (_isInit x) (_term x) (_xTermScreen x) (_xTermLayerMap x) (_container x)
    (_canvas x) (_clock x) (_scene x) (_renderer x) (_camera x) (_composer x) (passes x)
    (_shaderPasses x) (_layerObserver x) (_animationId x).
Definition set_isInit v (x : Component) : Component :=
  mkComponent (props x) v (_term x) (_xTermScreen x) (_xTermLayerMap x) (_container x)
    (_canvas x) (_clock x) (_scene x) (_renderer x) (_camera x) (_composer x) (passes x)
    (_shaderPasses x) (_layerObserver x) (_animationId x).
Definition set_term v (x : Component) : Component :=
  mkComponent (props x) (_isInit x) v (_xTermScreen x) (_xTermLayerMap x) (_container x)
    (_canvas x) (_clock x) (_scene x) (_renderer x) (_camera x) (_composer x) (passes x)
    (_shaderPasses x) (_layerObserver x) (_animationId x).
Definition set_xTermScreen v (x : Component) : Component :=
  mkComponent (props x) (_isInit x) (_term x) v (_xTermLayerMap x) (_container x)
    (_canvas x) (_clock x) (_scene x) (_renderer x) (_camera x) (_composer x) (passes x)
    (_shaderPasses x) (_layerObserver x) (_animationId x).
Definition set_xTermLayerMap v (x : Component) : Component :=
  mkComponent (props x) (_isInit x) (_term x) (_xTermScreen x) v (_container x)
    (_canvas x) (_clock x) (_scene x) (_renderer x) (_camera x) (_composer x) (passes x)
    (_shaderPasses x) (_layerObserver x) (_animationId x).
Definition set_container v (x : Component) : Component :=
  mkComponent (props x) (_isInit x) (_term x) (_xTermScreen x) (_xTermLayerMap x) v
    (_canvas x) (_clock x) (_scene x) (_renderer x) (_camera x) (_composer x) (passes x)
    (_shaderPasses x) (_layerObserver x) (_animationId x).
Definition set_canvas v (x : Component) : Component :=
  mkComponent (props x) (_isInit x) (_term x) (_xTermScreen x) (_xTermLayerMap x)
    (_container x) v (_clock x) (_scene x) (_renderer x) (_camera x) (_composer x)
    (passes x) (_shaderPasses x) (_layerObserver x) (_animationId x).
Definition set_clock v (x : Component) : Component :=
  mkComponent (props x) (_isInit x) (_term x) (_xTermScreen x) (_xTermLayerMap x)
    (_container x) (_canvas x) v (_scene x) (_renderer x) (_camera x) (_composer x)
    (passes x) (_shaderPasses x) (_layerObserver x) (_animationId x).
Definition set_scene v (x : Component) : Component :=
  mkComponent (props x) (_isInit x) (_term x) (_xTermScreen x) (_xTermLayerMap x)
    (_container x) (_canvas x) (_clock x) v (_renderer x) (_camera x) (_composer x)
    (passes x) (_shaderPasses x) (_layerObserver x) (_animationId x).
Definition set_renderer v (x : Component) : Component :=
  mkComponent (props x) (_isInit x) (_term x) (_xTermScreen x) (_xTermLayerMap x)
    (_container x) (_canvas x) (_clock x) (_scene x) v (_camera x) (_composer x)
    (passes x) (_shaderPasses x) (_layerObserver x) (_animationId x).
Definition set_camera v (x : Component) : Component :=
  mkComponent (props x) (_isInit x) (_term x) (_xTermScreen x) (_xTermLayerMap x)
    (_container x) (_canvas x) (_clock x) (_scene x) (_renderer x) v (_composer x)
    (passes x) (_shaderPasses x) (_layerObserver x) (_animationId x).
Definition set_composer v (x : Component) : Component :=
  mkComponent (props x) (_isInit x) (_term x) (_xTermScreen x) (_xTermLayerMap x)
    (_container x) (_canvas x) (_clock x) (_scene x) (_renderer x) (_camera x) v
    (passes x) (_shaderPasses x) (_layerObserver x) (_animationId x).
Definition set_passes v (x : Component) : Component :=
  mkComponent (props x) (_isInit x) (_term x) (_xTermScreen x) (_xTermLayerMap x)
    (_container x) (_canvas x) (_clock x) (_scene x) (_renderer x) (_camera x)
    (_composer x) v (_shaderPasses x) (_layerObserver x) (_animationId x).
Definition set_shaderPasses v (x : Component) : Component :=
  mkComponent (props x) (_isInit x) (_term x) (_xTermScreen x) (_xTermLayerMap x)
    (_container x) (_canvas x) (_clock x) (_scene x) (_renderer x) (_camera x)
    (_composer x) (passes x) v (_layerObserver x) (_animationId x).
Definition set_layerObserver v (x : Component) : Component :=
  mkComponent (props x) (_isInit x) (_term x) (_xTermScreen x) (_xTermLayerMap x)
    (_container x) (_canvas x) (_clock x) (_scene x) (_renderer x) (_camera x)
    (_composer x) (passes x) (_shaderPasses x) v (_animationId x).
Definition set_animationId v (x : Component) : Component :=
  mkComponent (props x) (_isInit x) (_term x) (_xTermScreen x) (_xTermLayerMap x)
    (_container x) (_canvas x) (_clock x) (_scene x) (_renderer x) (_camera x)
    (_composer x) (passes x) (_shaderPasses x) (_layerObserver x) v.

Definition constructor (p : Props) : Component :=
  mkComponent p false None None ∅ None None None None None None None [] [] None None.

Record State := mkState {
  comp : Component;
  world : World
}.

(** Statements on the host alone, and assignments to the fields of [this]. *)
Definition liftW {A} (m : M World A) : M State A :=
  fun s => match m (world s) with
           | Ok a w => Ok a (mkState (comp s) w)
           | Throw e w => Throw e (mkState (comp s) w)
           end.

Definition this {A} (f : Component -> A) : M State A := gets (fun s => f (comp s)).
Definition assign (f : Component -> Component) : M State unit :=
  modify (fun s => mkState (f (comp s)) (world s)).
Definition host_get {A} (f : World -> A) : M State A := gets (fun s => f (world s)).
Definition host_set (f : World -> World) : M State unit :=
  modify (fun s => mkState (comp s) (f (world s))).

(** *** Host primitives used by the component *)

(** [new CanvasTexture(canvas)]: the texture asks for an upload at once. *)
Definition new_CanvasTexture (img : option Canvas) : M State TexRef :=
  fun s =>
    let w := world s in
    Ok (length (textures w))
       (mkState (comp s)
          (set_textures (textures w ++ [mkTexture img LinearMipMapLinearFilter true false]) w)).

Definition update_texture (t : TexRef) (f : Texture -> Texture) : M State unit :=
  host_set (fun w => set_textures (alter f t (textures w)) w).

Definition set_minFilter (v : Filter) (t : Texture) : Texture :=
  mkTexture (image t) v (needsUpdate t) (disposed t).
Definition set_needsUpdate (v : bool) (t : Texture) : Texture :=
  mkTexture (image t) (minFilter t) v (disposed t).
(** [texture.dispose()] *)
Definition dispose (t : Texture) : Texture :=
  mkTexture (image t) (minFilter t) (needsUpdate t) true.

(** [new MeshBasicMaterial({ color: 0xFFFFFF, map: texture, transparent: true })] *)
Definition new_MeshBasicMaterial (tex : TexRef) : M State MatRef :=
  fun s =>
    let w := world s in
    Ok (length (materials w))
       (mkState (comp s)
          (set_materials (materials w ++ [mkMaterial 16777215 tex true]) w)).

Definition set_map (tex : TexRef) (m : Material) : Material :=
  mkMaterial (color m) tex (transparent m).

(** [window.requestAnimationFrame(render)] *)
Definition requestAnimationFrame (mats : list MatRef) (ntime : nat) : M State nat :=
  fun s =>
    let w := world s in
    let id := nextFrame w in
    Ok id (mkState (comp s)
             (set_nextFrame (S id) (set_pending (pending w ++ [mkFrame id mats ntime]) w))).

(** [window.cancelAnimationFrame(id)]; an [undefined] id cancels nothing. *)
Definition cancelAnimationFrame (id : option nat) : M State unit :=
  host_set (fun w =>
    set_pending (filter (fun f => Some (fid f) ≠ id) (pending w)) w).

(** [xterm.on('resize', l)] and [xterm.off('resize', l)] *)
Definition on_resize (t : XTerm) (l : Listener) : M State unit :=
  host_set (fun w => set_resizeListeners (resizeListeners w ++ [(t, l)]) w).

Fixpoint remove_first (x : XTerm * Listener) (ls : list (XTerm * Listener)) :
    list (XTerm * Listener) :=
  match ls with
  | [] => []
  | y :: ls' => if decide (x = y) then ls' else y :: remove_first x ls'
  end.

Definition off_resize (t : XTerm) (l : Listener) : M State unit :=
  host_set (fun w => set_resizeListeners (remove_first (t, l) (resizeListeners w)) w).

(** [pass instanceof Pass && !(pass instanceof EffectPass)] *)
Definition is_shader_pass (w : World) (p : PassRef) : bool :=
  match passObjs w !! p with
  | Some o => instanceof_Pass (pclass o) && negb (instanceof_EffectPass (pclass o))
  | None => false
  end.

(** [pass.getFullscreenMaterial()], read through [.uniforms]. *)
Definition getFullscreenMaterial (p : PassRef) : M State ShaderMaterial :=
  po <- host_get (fun w => passObjs w !! p) ;;
  o <- deref "pass" po ;;
  deref "pass.getFullscreenMaterial()" (fullscreenMaterial o).

(** What [EffectComposer.render] does with one pass: only the override of
    [CustomEffectPass] changes something the component can see. *)
Definition pass_render (p : PassRef) : M State unit :=
  po <- host_get (fun w => passObjs w !! p) ;;
  match po with
  | Some o =>
      match pclass o with
      | CustomEffectPass => liftW (Passes.render p)
      | _ => ret tt
      end
  | None => ret tt
  end.

(** *** The methods of [HyperPostProcessing] *)

(** [_setUniforms(obj)]: [obj] is given by its keys, in order, and values. *)
Definition set_uniform (key : string) (value : UVal) (p : PassRef) : M State unit :=
  material <- getFullscreenMaterial p ;;
  match muniforms material !! key with
  | Some _ =>
      host_set (fun w =>
        set_passObjs
          (alter (set_fullscreenMaterial
                    (Some (mkShaderMaterial (<[key := value]> (muniforms material)))))
                 p (passObjs w)) w)
  | None => ret tt
  end.

Definition _setUniforms (obj : list (string * UVal)) : M State unit :=
  for_of obj (fun '(uniformKey, value) =>
    sp <- this _shaderPasses ;;
    for_of sp (set_uniform uniformKey value)).

(** The [filter] of [_startAnimationLoop]: the shader passes whose material
    declares a [time] uniform. *)
Fixpoint time_passes (sp : list PassRef) : M State (list PassRef) :=
  match sp with
  | [] => ret []
  | p :: sp' =>
      material <- getFullscreenMaterial p ;;
      rest <- time_passes sp' ;;
      ret (match muniforms material !! "time" with
           | Some _ => p :: rest
           | None => rest
           end)
  end.

(** The closure [render] of [_startAnimationLoop], with the values it
    captured.  The first loop assigns [timeUniforms.value], a property of
    the array itself, so it changes no uniform; it still reads the clock. *)
Definition render_frame (xTermMaterials : list MatRef) (timeUniformsLength : nat) :
    M State unit :=
  id <- requestAnimationFrame xTermMaterials timeUniformsLength ;;
  assign (set_animationId (Some id)) ;;
  (match timeUniformsLength with
   | O => ret tt
   | S _ => c <- this _clock ;; _ <- deref "that._clock" c ;; ret tt
   end) ;;
  for_of xTermMaterials (fun m =>
    mo <- host_get (fun w => materials w !! m) ;;
    mat <- deref "material" mo ;;
    update_texture (map mat) (set_needsUpdate true)) ;;
  co <- this _composer ;;
  composer <- deref "that._composer" co ;;
  c <- this _clock ;;
  _ <- deref "that._clock" c ;;
  for_of (composerPasses composer) pass_render.

Definition _startAnimationLoop : M State unit :=
  layers <- this _xTermLayerMap ;;
  sp <- this _shaderPasses ;;
  timeUniforms <- time_passes sp ;;
  render_frame (map_to_list layers).*2 (length timeUniforms).

Definition _cancelAnimationLoop : M State unit :=
  id <- this _animationId ;;
  cancelAnimationFrame id.

(** The body of the loop of [_setupScene]. *)
Definition add_layer (size : Q * Q) (canvas : Canvas) : M State unit :=
  texture <- new_CanvasTexture (Some canvas) ;;
  update_texture texture (set_minFilter LinearFilter) ;;
  material <- new_MeshBasicMaterial texture ;;
  so <- this _scene ;;
  scene <- deref "this._scene" so ;;
  assign (set_scene (Some (mkScene (children scene ++ [mkMesh size material])))) ;;
  layers <- this _xTermLayerMap ;;
  assign (set_xTermLayerMap (<[canvas := material]> layers)).

Definition _setupScene (renderLayers : list Canvas) : M State unit :=
  to <- this _term ;;
  t <- deref "this._term" to ;;
  bo <- host_get (fun w => bounds w !! term t) ;;
  rect <- deref "this._term.term.element" bo ;;
  let '(width, height) := rect in
  canvas <- host_get created ;;
  host_set (set_created (S canvas)) ;;
  assign (set_canvas (Some canvas)) ;;
  assign (set_scene (Some (mkScene []))) ;;
  dpr <- host_get (fun w => devicePixelRatio (host w)) ;;
  assign (set_renderer (Some (mkRenderer canvas true true dpr (width, height)))) ;;
  let w := (width / 2)%Q in
  let h := (height / 2)%Q in
  assign (set_camera (Some (mkCamera (- w, w, h, - h, 1, 1000)%Q 1%Q))) ;;
  assign (set_composer (Some (mkComposer [] None))) ;;
  for_of renderLayers (add_layer (width, height)) ;;
  co <- this _container ;;
  container <- deref "this._container" co ;;
  host_set (fun w => set_appended (appended w ++ [(container, canvas)]) w).

(** [this._composer.addPass(pass)] *)
Definition addPass (p : PassRef) : M State unit :=
  co <- this _composer ;;
  composer <- deref "this._composer" co ;;
  liftW (lib_call (CAddPass p)) ;;
  assign (set_composer
            (Some (mkComposer (composerPasses composer ++ [p]) (composerSize composer)))).

(** The [try] block of [_init] that stores the passes. *)
Definition store_passes (created : list PassRef) : M State unit :=
  liftW (lib_call CRenderPass) ;;
  rp <- liftW (new_pass (mkPass RenderPass false [] None)) ;;
  assign (set_passes (rp :: created)) ;;
  ps <- this passes ;;
  lo <- ret (last ps) ;;
  l <- deref "this.passes[this.passes.length - 1]" lo ;;
  host_set (fun w => set_passObjs (alter (set_renderToScreen true) l (passObjs w)) w) ;;
  for_of ps addPass ;;
  w <- host_get id ;;
  assign (set_shaderPasses (filter (fun p => is_shader_pass w p = true) (tail ps))).

Definition _init : M State unit :=
  liftW (console_log "start init") ;;
  passes <- liftW Passes.createPasses ;;
  liftW (console_log "made passes") ;;
  match passes with
  | None | Some [] => ret tt
  | Some created =>
      liftW (console_log "checked length of passes") ;;
      assign (set_isInit true) ;;
      to <- this _term ;;
      t <- deref "this._term" to ;;
      assign (set_container (Some (termRef t))) ;;
      scr <- host_get (fun w => screenOf w !! termRef t) ;;
      assign (set_xTermScreen scr) ;;
      screen <- deref "this._xTermScreen" scr ;;
      renderLayers <- host_get (fun w => default [] (canvasesOf w !! screen)) ;;
      for_of renderLayers (fun canvas =>
        host_set (fun w => set_opacity (<[canvas := 0%Q]> (opacity w)) w)) ;;
      _setupScene renderLayers ;;
      assign (set_clock (Some (mkClock false false))) ;;
      try_catch (store_passes created) (fun e => liftW (console_error e)) ;;
      liftW (console_log "3") ;;
      n <- host_get (fun w => length (observers w)) ;;
      assign (set_layerObserver (Some n)) ;;
      host_set (fun w => set_observers (observers w ++ [screen]) w) ;;
      liftW (console_log "2") ;;
      on_resize (term t) onResize ;;
      liftW (console_log "1") ;;
      on_resize (term t) resizeOnce ;;
      liftW (console_log "end of _init")
  end.

Definition _onDecorated (t : option Term) : M State unit :=
  chain <- this (fun c => onDecorated (props c)) ;;
  (if chain then host_set (fun w => set_chained (chained w ++ [t]) w) else ret tt) ;;
  isInit <- this _isInit ;;
  match t with
  | None => ret tt
  | Some tm =>
      if isInit then ret tt
      else assign (set_term (Some tm)) ;; _init
  end.

(** [componentWillReceiveProps(props)]: React assigns [this.props] after
    the method has returned. *)
Definition componentWillReceiveProps (next : Props) : M State unit :=
  isInit <- this _isInit ;;
  if negb isInit then ret tt
  else
    cur <- this props ;;
    if isTermActive cur && negb (isTermActive next) then _cancelAnimationLoop
    else if negb (isTermActive cur) && isTermActive next then _startAnimationLoop
    else ret tt.

Definition receive_props (next : Props) : M State unit :=
  componentWillReceiveProps next ;;
  assign (set_props next).

(** A [MutationRecord] of a [childList] observation. *)
Record MutationRecord := mkRecord {
  removedNodes : list Node;
  addedNodes : list Node
}.

Definition _replaceTexture (removedCanvas : Node) (addedCanvas : option Node) :
    M State unit :=
  affectedMaterial <- this (fun c => _xTermLayerMap c !! removedCanvas) ;;
  newTexture <- new_CanvasTexture addedCanvas ;;
  update_texture newTexture (set_minFilter LinearFilter) ;;
  m <- deref "affectedMaterial" affectedMaterial ;;
  mo <- host_get (fun w => materials w !! m) ;;
  mat <- deref "material" mo ;;
  update_texture (map mat) dispose ;;
  host_set (fun w => set_materials (alter (set_map newTexture) m (materials w)) w).

(** [removedNodes[i]] paired with [addedNodes[i]], which is [undefined]
    past the end of [addedNodes]. *)
Definition paired (e : MutationRecord) : list (Node * option Node) :=
  imap (fun i r => (r, addedNodes e !! i)) (removedNodes e).

(** [_onCanvasReplacement([e])]: the parameter destructures the first
    record of the batch the observer delivers. *)
Definition _onCanvasReplacement (records : list MutationRecord) : M State unit :=
  e <- deref "e" (head records) ;;
  for_of (paired e) (fun '(r, a) => _replaceTexture r a).

(** *** Events of the host *)

(** The first listener of [_init]: [() => { ... setSize ... _setUniforms ... }] *)
Definition on_resize_listener : M State unit :=
  to <- this _term ;;
  t <- deref "this._term" to ;;
  bo <- host_get (fun w => bounds w !! term t) ;;
  rect <- deref "this._term.term.element" bo ;;
  let '(width, height) := rect in
  co <- this _composer ;;
  composer <- deref "this._composer" co ;;
  assign (set_composer (Some (mkComposer (composerPasses composer) (Some (width, height))))) ;;
  _setUniforms [("aspect", UQuot width height); ("resolution", UVec2 width height)].

(** The second listener: [function resizeOnce() { ... }] *)
Definition resize_once_listener : M State unit :=
  to <- this _term ;;
  t <- deref "that._term" to ;;
  off_resize (term t) resizeOnce ;;
  c <- this _clock ;;
  clock <- deref "that._clock" c ;;
  assign (set_clock (Some (mkClock (autoStart clock) true))) ;;
  _startAnimationLoop.

Definition run_listener (l : Listener) : M State unit :=
  match l with
  | onResize => on_resize_listener
  | resizeOnce => resize_once_listener
  end.

(** xterm emits [resize]: the listeners registered for it run in the order
    of their registration. *)
Definition emit_resize (t : XTerm) : M State unit :=
  ls <- host_get (fun w => (filter (fun tl => tl.1 = t) (resizeListeners w)).*2) ;;
  for_of ls run_listener.

(** The observer delivers a batch of records for a target it observes. *)
Definition deliver_mutations (records : list MutationRecord) : M State unit :=
  _onCanvasReplacement records.

(** The browser runs the callbacks of the frames requested so far; an
    exception of a callback is reported and the others still run. *)
Definition animation_frame : M State unit :=
  fs <- host_get pending ;;
  host_set (set_pending []) ;;
  for_of fs (fun f =>
    try_catch (render_frame (fmaterials f) (ftimeUniforms f))
              (fun e => liftW (console_error e))).

(** *** Unmounting *)

(** The calls of [destroy] on objects the model keeps no state of, as the
    host receives them. *)
Inductive Release :=
| MaterialDispose (m : MatRef)        (* mesh.material.dispose() *)
| GeometryDispose (size : Q * Q)      (* mesh.geometry.dispose() *)
| ObserverDisconnect (o : nat)        (* this._layerObserver.disconnect() *)
| CanvasRemove (c : nat)              (* this._canvas.remove() *)
| ComposerDispose                     (* this._composer.dispose() *)
| RendererDispose                     (* this._renderer.dispose() *)
| ForceContextLoss                    (* this._renderer.forceContextLoss() *)
| ContextNull                         (* this._renderer.context = null *)
| DomElementNull.                     (* this._renderer.domElement = null *)

(** The instance while it unmounts: its state, the calls above in their
    order, and which of the three collections holds [null] instead of the
    collection the field of [Component] shows. *)
Record Mount := mkMount {
  inst : State;
  released : list Release;
  xTermLayerMap_null : bool;
  passes_null : bool;
  shaderPasses_null : bool
}.

Definition mounted (s : State) : Mount := mkMount s [] false false false.

Definition liftS {A} (m : M State A) : M Mount A :=
  fun u => match m (inst u) with
           | Ok a s =>
               Ok a (mkMount s (released u) (xTermLayerMap_null u) (passes_null u)
                       (shaderPasses_null u))
           | Throw e s =>
               Throw e (mkMount s (released u) (xTermLayerMap_null u) (passes_null u)
                          (shaderPasses_null u))
           end.

Definition release (r : Release) : M Mount unit :=
  modify (fun u => mkMount (inst u) (released u ++ [r]) (xTermLayerMap_null u)
                     (passes_null u) (shaderPasses_null u)).

(** [this._xTermLayerMap = null], [this._shaderPasses = null] and
    [this.passes = null] *)
Definition null_xTermLayerMap : M Mount unit :=
  modify (fun u => mkMount (inst u) (released u) true (passes_null u) (shaderPasses_null u)).

Definition null_shaderPasses : M Mount unit :=
  modify (fun u => mkMount (inst u) (released u) (xTermLayerMap_null u) (passes_null u) true).

Definition null_passes : M Mount unit :=
  modify (fun u => mkMount (inst u) (released u) (xTermLayerMap_null u) true
                     (shaderPasses_null u)).

(** [while (this._scene.children.length > 0) { ... }]: every turn removes
    the first child from the scene, so the loop takes the children [ms] it
    finds in their order. *)
Fixpoint dispose_children (ms : list Mesh) : M Mount unit :=
  match ms with
  | [] => ret tt
  | mesh :: rest =>
      liftS (assign (set_scene (Some (mkScene rest)))) ;;
      mo <- liftS (host_get (fun w => materials w !! material mesh)) ;;
      mat <- deref "mesh.material" mo ;;
      liftS (update_texture (map mat) dispose) ;;
      release (MaterialDispose (material mesh)) ;;
      release (GeometryDispose (geometry mesh)) ;;
      dispose_children rest
  end.

(** [destroy()]; [Clock.stop] clears [running] and [autoStart].  A chain of
    assignments [a = b = null] assigns [b] first. *)
Definition destroy : M Mount unit :=
  liftS _cancelAnimationLoop ;;
  c <- liftS (this _clock) ;;
  _ <- deref "this._clock" c ;;
  liftS (assign (set_clock (Some (mkClock false false)))) ;;
  so <- liftS (this _scene) ;;
  scene <- deref "this._scene" so ;;
  dispose_children (children scene) ;;
  lo <- liftS (this _layerObserver) ;;
  observer <- deref "this._layerObserver" lo ;;
  release (ObserverDisconnect observer) ;;
  cv <- liftS (this _canvas) ;;
  canvas <- deref "this._canvas" cv ;;
  release (CanvasRemove canvas) ;;
  co <- liftS (this _composer) ;;
  _ <- deref "this._composer" co ;;
  release ComposerDispose ;;
  ro <- liftS (this _renderer) ;;
  _ <- deref "this._renderer" ro ;;
  release RendererDispose ;;
  release ForceContextLoss ;;
  release ContextNull ;;
  release DomElementNull ;;
  liftS (assign (set_isInit false)) ;;
  liftS (assign (set_canvas None)) ;;
  liftS (assign (set_xTermScreen None)) ;;
  liftS (assign (set_container None)) ;;
  liftS (assign (set_term None)) ;;
  null_xTermLayerMap ;;
  liftS (assign (set_layerObserver None)) ;;
  null_shaderPasses ;;
  null_passes ;;
  liftS (assign (set_composer None)) ;;
  liftS (assign (set_camera None)) ;;
  liftS (assign (set_renderer None)) ;;
  liftS (assign (set_scene None)) ;;
  liftS (assign (set_clock None)).

Definition componentWillUnmount : M Mount unit :=
  isInit <- liftS (this _isInit) ;;
  if isInit then destroy else ret tt.

(** *** The element the component renders *)

(** [render()]: the props handed to [React.createElement(Term, ...)];
    [handler] is the bound method [this._onDecorated]. *)
Definition render (handler : nat) (this_props : nat) (h : Theme.Heap) : nat * Theme.Heap :=
  let '(target, h1) := alloc ∅ h in
  let '(lit, h2) := alloc (<["onDecorated" := Theme.VRef handler]> ∅) h1 in
  Theme.Object_assign target [this_props; lit] h2.

(** *** The configuration decorator of the component file *)

(** The template literal of [css]; [user] is what [config.css || ''] prints
    as. *)
Definition css (user : string) : string :=
  ("
		" ++
  user ++
  "

		.term_term {
			position: relative;
		}

		.hyper-postprocessing.canvas {
			position: absolute;
			top: 0;
			left: 0;
		}
		")%string.

(** [exports.decorateConfig = config => Object.assign({}, config, { css })];
    reading [config.css] needs [config] to be an object. *)
Definition decorateConfig (pr : Theme.Printer) (config : nat) (h : Theme.Heap) :
    option (nat * Theme.Heap) :=
  let '(target, h1) := alloc ∅ h in
  cfg ← h !! config;
  let '(lit, h2) :=
    alloc (<["css" := Theme.VStr
                        (css (Theme.ToString pr (Theme.or_empty (Theme.get cfg "css"))))]> ∅)
          h1 in
  Some (Theme.Object_assign target [config; lit] h2).

End PostProcessing.

(** ** Notions used in the statements *)

(** The two pass objects the factory builds. *)
Definition crtPass (h : Host) : Pass :=
  mkPass CustomEffectPass false
    [mkEffect "crtEffect" crtFragmentShader NORMAL (<["separation" := (1 # 2)%Q]> ∅)]
    (Some (effectMaterial h)).

Definition curvedPass (h : Host) : Pass :=
  mkPass EffectPass false
    [mkEffect "curvedFragmentEffect" curvedFragmentShader NORMAL ∅]
    (Some (effectMaterial h)).

(** The value of the [separation] uniform of the pass [p]. *)
Definition separation_at (w : World) (p : PassRef) : option Q :=
  o ← passObjs w !! p; Passes.separation_of o.

(** [n] successive calls of [CustomEffectPass.prototype.render] on [p]. *)
Fixpoint renders (n : nat) (p : PassRef) : M World unit :=
  match n with
  | O => ret tt
  | S n' => Passes.render p ;; renders n' p
  end.

(** What the loop of [_setupScene] builds for the canvases [cs], when [t0]
    textures and [m0] materials exist already. *)
Definition layer_texture (c : Canvas) : Texture :=
  mkTexture (Some c) LinearFilter true false.

Definition layer_material (tex : TexRef) : Material :=
  mkMaterial 16777215 tex true.

Definition layer_materials (t0 : nat) (cs : list Canvas) : list Material :=
  imap (fun i _ => layer_material (t0 + i)) cs.

Definition layer_meshes (size : Q * Q) (m0 : nat) (cs : list Canvas) : list Mesh :=
  imap (fun i _ => mkMesh size (m0 + i)) cs.

Fixpoint layer_map (m0 : nat) (cs : list Canvas) (layers : gmap Canvas MatRef) :
    gmap Canvas MatRef :=
  match cs with
  | [] => layers
  | c :: cs' => layer_map (S m0) cs' (<[c := m0]> layers)
  end.

(** [canvas.style.opacity = 0] for each canvas of [cs]. *)
Definition hidden (cs : list Canvas) (op : gmap Canvas Q) : gmap Canvas Q :=
  foldl (fun m c => <[c := 0%Q]> m) op cs.

(** The state [_setupScene] leaves, for the terminal size [size], the render
    layers [cs] and the container [cont]. *)
Definition scene_camera (size : Q * Q) : PostProcessing.Camera :=
  let w := (size.1 / 2)%Q in
  let h := (size.2 / 2)%Q in
  PostProcessing.mkCamera (- w, w, h, - h, 1, 1000)%Q 1%Q.

Definition scene_comp (c : PostProcessing.Component) (w : World) (size : Q * Q)
    (cs : list Canvas) : PostProcessing.Component :=
  PostProcessing.set_xTermLayerMap
    (layer_map (length (materials w)) cs (PostProcessing._xTermLayerMap c))
    (PostProcessing.set_scene
       (Some (PostProcessing.mkScene (layer_meshes size (length (materials w)) cs)))
       (PostProcessing.set_composer (Some (PostProcessing.mkComposer [] None))
          (PostProcessing.set_camera (Some (scene_camera size))
             (PostProcessing.set_renderer
                (Some (PostProcessing.mkRenderer (created w) true true
                         (devicePixelRatio (host w)) size))
                (PostProcessing.set_canvas (Some (created w)) c))))).

Definition scene_world (w : World) (cs : list Canvas) (cont : Node) : World :=
  set_appended (appended w ++ [(cont, created w)])
    (set_materials (materials w ++ layer_materials (length (textures w)) cs)
       (set_textures (textures w ++ (layer_texture <$> cs))
          (set_created (S (created w)) w))).

(** The state the [try] block of [_init] leaves when nothing throws: the
    created passes are [ps], the last of them is [l]. *)
Definition renderPass : Pass := mkPass RenderPass false [] None.

Definition stored_world (w : World) (l : PassRef) : World :=
  set_passObjs (alter (set_renderToScreen true) l (passObjs w ++ [renderPass])) w.

Definition stored_comp (c : PostProcessing.Component) (w : World)
    (ps : list PassRef) (l : PassRef) (composer : PostProcessing.Composer) :
    PostProcessing.Component :=
  let chain := length (passObjs w) :: ps in
  PostProcessing.set_shaderPasses
    (filter (fun p => PostProcessing.is_shader_pass (stored_world w l) p = true) ps)
    (PostProcessing.set_composer
       (Some (PostProcessing.mkComposer
                (PostProcessing.composerPasses composer ++ chain)
                (PostProcessing.composerSize composer)))
       (PostProcessing.set_passes chain c)).

(** The state a successful [_init] leaves: [t] is the term, [scr] its xterm
    screen, [size] its bounding size and [cs] the canvases of the screen. *)
Definition init_comp (c : PostProcessing.Component) (w : World) (t : Term)
    (scr : Node) (size : Q * Q) (cs : list Canvas) : PostProcessing.Component :=
  let p := length (passObjs w) in
  PostProcessing.mkComponent
    (PostProcessing.props c)
    true
    (PostProcessing._term c)
    (Some scr)
    (layer_map (length (materials w)) cs (PostProcessing._xTermLayerMap c))
    (Some (termRef t))
    (Some (created w))
    (Some (PostProcessing.mkClock false false))
    (Some (PostProcessing.mkScene (layer_meshes size (length (materials w)) cs)))
    (Some (PostProcessing.mkRenderer (created w) true true
             (devicePixelRatio (host w)) size))
    (Some (scene_camera size))
    (Some (PostProcessing.mkComposer [S (S p); p; S p] None))
    [S (S p); p; S p]
    []
    (Some (length (observers w)))
    (PostProcessing._animationId c).

Definition init_world (w : World) (t : Term) (scr : Node) (cs : list Canvas) : World :=
  mkWorld (host w) (screenOf w) (canvasesOf w) (bounds w) (drawn w)
    (console w ++ [Log "start init"; Log "made passes";
                   Log "checked length of passes"; Log "3"; Log "2"; Log "1";
                   Log "end of _init"])
    (chained w)
    (textures w ++ (layer_texture <$> cs))
    (materials w ++ layer_materials (length (textures w)) cs)
    (passObjs w ++ [crtPass (host w); set_renderToScreen true (curvedPass (host w));
                    renderPass])
    (hidden cs (opacity w))
    (S (created w))
    (appended w ++ [(termRef t, created w)])
    (observers w ++ [scr])
    (resizeListeners w ++ [(term t, onResize); (term t, resizeOnce)])
    (pending w)
    (nextFrame w).

(** No library call of the two [try] blocks throws. *)
Definition fault_free (h : Host) : Prop := ∀ c, fault h c = None.

(** The removed canvas at index [i] of the record [e] has been re-textured
    between [s] and [s']: the material mapped to it points to a texture
    allocated in between, made of the node added at the same index, and the
    texture it pointed to is disposed. *)
Definition retextured (s s' : PostProcessing.State) (e : PostProcessing.MutationRecord)
    (i : nat) : Prop :=
  ∀ c m mat,
    PostProcessing.removedNodes e !! i = Some c →
    PostProcessing._xTermLayerMap (PostProcessing.comp s) !! c = Some m →
    materials (PostProcessing.world s) !! m = Some mat →
    ∃ new old,
      materials (PostProcessing.world s') !! m = Some (PostProcessing.set_map new mat) ∧
      textures (PostProcessing.world s) !! new = None ∧
      textures (PostProcessing.world s') !! new =
        Some (mkTexture (PostProcessing.addedNodes e !! i) LinearFilter true false) ∧
      textures (PostProcessing.world s) !! map mat = Some old ∧
      textures (PostProcessing.world s') !! map mat = Some (PostProcessing.dispose old).

(** The layers the record [e] can be applied to: every removed canvas is a
    key of the layer map, its material exists and points to an existing
    texture, and two removed canvases have different materials. *)
Definition replaceable (s : PostProcessing.State) (e : PostProcessing.MutationRecord) : Prop :=
  NoDup (PostProcessing.removedNodes e) ∧
  (∀ c, c ∈ PostProcessing.removedNodes e →
     ∃ m mat, PostProcessing._xTermLayerMap (PostProcessing.comp s) !! c = Some m ∧
              materials (PostProcessing.world s) !! m = Some mat ∧
              map mat < length (textures (PostProcessing.world s))) ∧
  (∀ c1 c2 m, c1 ∈ PostProcessing.removedNodes e → c2 ∈ PostProcessing.removedNodes e →
     PostProcessing._xTermLayerMap (PostProcessing.comp s) !! c1 = Some m →
     PostProcessing._xTermLayerMap (PostProcessing.comp s) !! c2 = Some m → c1 = c2).

(** The material [m] belongs to no removed canvas of [e]. *)
Definition untouched (s : PostProcessing.State) (e : PostProcessing.MutationRecord)
    (m : MatRef) : Prop :=
  ∀ c, c ∈ PostProcessing.removedNodes e →
       PostProcessing._xTermLayerMap (PostProcessing.comp s) !! c ≠ Some m.

(** What holds of the component once [_init] has run to its end: the
    composer and the clock exist, every pass the composer renders with the
    override of [CustomEffectPass] has its [separation] uniform, every shader
    pass has a fullscreen material, and every layer has its material. *)
Definition Initialized (s : PostProcessing.State) : Prop :=
  PostProcessing._isInit (PostProcessing.comp s) = true ∧
  (∃ composer,
     PostProcessing._composer (PostProcessing.comp s) = Some composer ∧
     ∀ p o, p ∈ PostProcessing.composerPasses composer →
            passObjs (PostProcessing.world s) !! p = Some o →
            pclass o = CustomEffectPass → is_Some (Passes.separation_of o)) ∧
  is_Some (PostProcessing._clock (PostProcessing.comp s)) ∧
  (∀ p, p ∈ PostProcessing._shaderPasses (PostProcessing.comp s) →
        ∃ o m, passObjs (PostProcessing.world s) !! p = Some o ∧
               fullscreenMaterial o = Some m) ∧
  (∀ c m, PostProcessing._xTermLayerMap (PostProcessing.comp s) !! c = Some m →
          is_Some (materials (PostProcessing.world s) !! m)).

(** The loop as the component knows it is scheduled: the frame it requested
    last, the one [_animationId] names, is still pending, so [render] runs
    again at the next animation frame. *)
Definition loop_pending (s : PostProcessing.State) : bool :=
  match PostProcessing._animationId (PostProcessing.comp s) with
  | Some id => bool_decide (id ∈ fid <$> pending (PostProcessing.world s))
  | None => false
  end.

(** What [_setUniforms] does to one pass object for one uniform. *)
Definition with_uniform (key : string) (value : UVal) (o : Pass) : Pass :=
  match fullscreenMaterial o with
  | Some m =>
      match muniforms m !! key with
      | Some _ => set_fullscreenMaterial
                    (Some (mkShaderMaterial (<[key := value]> (muniforms m)))) o
      | None => o
      end
  | None => o
  end.

(** The state in which a statement ends, normally or not. *)
Definition state_of {S A} (r : Res S A) : S :=
  match r with
  | Ok _ s => s
  | Throw _ s => s
  end.

(** What rendering leaves of a pass object: everything but the values of
    the uniforms of its effects. *)
Definition same_pass (o o' : Pass) : Prop :=
  pclass o' = pclass o ∧ fullscreenMaterial o' = fullscreenMaterial o ∧
  renderToScreen o' = renderToScreen o ∧
  (is_Some (Passes.separation_of o) → is_Some (Passes.separation_of o')).

(** ** A concrete terminal

    A host on which no library call throws, a terminal whose screen holds the
    two canvases 20 and 21, and the component at different moments. *)

Definition demo_host : Host :=
  mkHost (fun _ => None)
         (fun n => if Nat.even n then (9 # 10)%Q else (1 # 10)%Q)
         (fun q => q)
         2%Q
         (mkShaderMaterial ∅).

Definition demo_world : World :=
  mkWorld demo_host
    (<[10 := 11]> ∅)
    (<[11 := [20; 21]]> ∅)
    (<[5 := (800%Q, 600%Q)]> ∅)
    0 [] [] [] [] [] ∅ 0 [] [] [] [] 0.

Definition demo_term : Term := mkTerm 10 5.

(** The component as constructed, in an active tab. *)
Definition demo_start : PostProcessing.State :=
  PostProcessing.mkState
    (PostProcessing.constructor (PostProcessing.mkProps true false)) demo_world.

(** [_onDecorated] has stored the term and is about to call [_init]. *)
Definition demo_decorated : PostProcessing.State :=
  PostProcessing.mkState
    (PostProcessing.set_term (Some demo_term)
       (PostProcessing.constructor (PostProcessing.mkProps true false)))
    demo_world.

(** After [_init]. *)
Definition demo_ready : PostProcessing.State :=
  state_of (PostProcessing._init demo_decorated).


(** A host on which the constructor of [EffectPass] throws. *)
Definition failing_host : Host :=
  mkHost (fun c => match c with
                   | CEffectPass => Some (LibError CEffectPass 1)
                   | _ => None
                   end)
         (rng demo_host) (fl demo_host) 2%Q (mkShaderMaterial ∅).

Definition failing_start : PostProcessing.State :=
  PostProcessing.mkState
    (PostProcessing.comp demo_decorated)
    (mkWorld failing_host (screenOf demo_world) (canvasesOf demo_world)
       (bounds demo_world) 0 [] [] [] [] [] ∅ 0 [] [] [] [] 0).

(** A pass that is not an [EffectPass], with a material that declares
    [aspect] and [time] but not [resolution], and the initialized component
    with this pass among its shader passes. *)
Definition demo_shader_pass : Pass :=
  mkPass OtherPass false []
    (Some (mkShaderMaterial (<["aspect" := UNum 1]> (<["time" := UNum 0]> ∅)))).

Definition with_shader_pass (o : Pass) (s : PostProcessing.State) : PostProcessing.State :=
  PostProcessing.mkState
    (PostProcessing.set_shaderPasses
       (PostProcessing._shaderPasses (PostProcessing.comp s) ++
        [length (passObjs (PostProcessing.world s))])
       (PostProcessing.comp s))
    (set_passObjs (passObjs (PostProcessing.world s) ++ [o]) (PostProcessing.world s)).

Definition demo_shader : PostProcessing.State := with_shader_pass demo_shader_pass demo_ready.

(** Two records delivered in one batch: each replaces one canvas. *)
Definition demo_batch : list PostProcessing.MutationRecord :=
  [PostProcessing.mkRecord [20] [30]; PostProcessing.mkRecord [21] [31]].

(** The component after the observer has delivered [demo_batch]. *)
Definition demo_replaced : PostProcessing.State :=
  state_of (PostProcessing.deliver_mutations demo_batch demo_ready).

(** The world after the factory has run on the concrete host, and after it
    has thrown on the failing one. *)
Definition demo_made : World := state_of (Passes.createPasses demo_world).

Definition failing_thrown : World :=
  state_of (Passes.construct (PostProcessing.world failing_start)).

(** A configuration object of the user. *)
Definition demo_config : Theme.JsObj :=
  <["fontSize" := Theme.VNum 12]> (<["foregroundColor" := Theme.VStr "#ffffff"]> ∅).

(** The host gives the element of the terminal [t] a new size. *)
Definition host_resizes (t : XTerm) (size : Q * Q) (w : World) : World :=
  mkWorld (host w) (screenOf w) (canvasesOf w) (<[t := size]> (bounds w)) (drawn w)
    (console w) (chained w) (textures w) (materials w) (passObjs w) (opacity w)
    (created w) (appended w) (observers w) (resizeListeners w) (pending w)
    (nextFrame w).

Definition demo_resized : PostProcessing.State :=
  PostProcessing.mkState (PostProcessing.comp demo_shader)
    (host_resizes 5 (1024%Q, 768%Q) (PostProcessing.world demo_shader)).

(** ** The life of the component after initialization *)

(** What the host does with the component. *)
Inductive Event :=
| Decorated (t : option Term)                             (* the onDecorated callback *)
| PropsUpdate (next : PostProcessing.Props)               (* React gives new props *)
| Resized (t : XTerm) (size : Q * Q)                      (* a new size, then xterm's resize *)
| Mutations (records : list PostProcessing.MutationRecord) (* the observer delivers a batch *)
| AnimationFrame.                                         (* the requested frames run *)

Definition handle (ev : Event) : M PostProcessing.State unit :=
  match ev with
  | Decorated t => PostProcessing._onDecorated t
  | PropsUpdate next => PostProcessing.receive_props next
  | Resized t size =>
      PostProcessing.host_set (host_resizes t size) ;; PostProcessing.emit_resize t
  | Mutations records => PostProcessing.deliver_mutations records
  | AnimationFrame => PostProcessing.animation_frame
  end.

(** An exception that a handler does not catch ends the handler; the state
    stays as the handler left it. *)
Definition after (ev : Event) (s : PostProcessing.State) : PostProcessing.State :=
  state_of (handle ev s).

Definition after_all (evs : list Event) (s : PostProcessing.State) : PostProcessing.State :=
  foldl (fun s ev => after ev s) s evs.

(** A statement started in a state that satisfies [P] either returns a
    value and a state that satisfy [Q], or throws in a state that
    satisfies [E]. *)
Definition triple {S A} (P : S → Prop) (m : M S A) (Q : A → S → Prop) (E : S → Prop) :
    Prop :=
  ∀ s, P s → match m s with
             | Ok a s' => Q a s'
             | Throw _ s' => E s'
             end.

(** What a handler keeps of a pass object, and of the state: [s'] continues
    [s] when the fields [Initialized] speaks of are as good in [s'] as in [s]. *)
Definition pass_kept (o o' : Pass) : Prop :=
  pclass o' = pclass o ∧
  (is_Some (fullscreenMaterial o) → is_Some (fullscreenMaterial o')) ∧
  (is_Some (Passes.separation_of o) → is_Some (Passes.separation_of o')).

Definition continues (s s' : PostProcessing.State) : Prop :=
  PostProcessing._isInit (PostProcessing.comp s')
  = PostProcessing._isInit (PostProcessing.comp s) ∧
  (∀ composer, PostProcessing._composer (PostProcessing.comp s) = Some composer →
     ∃ composer', PostProcessing._composer (PostProcessing.comp s') = Some composer' ∧
                  PostProcessing.composerPasses composer'
                  = PostProcessing.composerPasses composer) ∧
  (is_Some (PostProcessing._clock (PostProcessing.comp s)) →
   is_Some (PostProcessing._clock (PostProcessing.comp s'))) ∧
  PostProcessing._shaderPasses (PostProcessing.comp s')
  = PostProcessing._shaderPasses (PostProcessing.comp s) ∧
  PostProcessing._xTermLayerMap (PostProcessing.comp s')
  = PostProcessing._xTermLayerMap (PostProcessing.comp s) ∧
  Forall2 pass_kept (passObjs (PostProcessing.world s)) (passObjs (PostProcessing.world s')) ∧
  (length (materials (PostProcessing.world s))
   ≤ length (materials (PostProcessing.world s')))%nat.

(** A statement keeps the component as good as it was, however it ends. *)
Definition keeps {A} (m : M PostProcessing.State A) : Prop :=
  ∀ s0, triple (continues s0) m (fun _ => continues s0) (continues s0).

(** ** Notions used in the statements about unmounting *)

(** The fields [destroy] leaves: all are [null] but [props], [_animationId]
    and [_isInit], which is false.  The three collections are [null] too,
    which [Mount] records. *)
Definition unmounted (c : PostProcessing.Component) : PostProcessing.Component :=
  PostProcessing.mkComponent (PostProcessing.props c) false None None
    (PostProcessing._xTermLayerMap c) None None None None None None None
    (PostProcessing.passes c) (PostProcessing._shaderPasses c) None
    (PostProcessing._animationId c).

(** What the loop of [destroy] does to the textures for one mesh, and what
    it tells the host. *)
Definition dispose_layer (ms : list Material) (ts : list Texture) (mesh : Mesh) :
    list Texture :=
  match ms !! material mesh with
  | Some mat => alter PostProcessing.dispose (map mat) ts
  | None => ts
  end.

Definition layer_releases (meshes : list Mesh) : list PostProcessing.Release :=
  mesh ← meshes;
  [PostProcessing.MaterialDispose (material mesh);
   PostProcessing.GeometryDispose (geometry mesh)].

(** What [destroy] needs to run to its end: the objects [_setupScene] and
    [_init] create are there, and the material of every mesh exists. *)
Definition Destroyable (s : PostProcessing.State) : Prop :=
  is_Some (PostProcessing._clock (PostProcessing.comp s)) ∧
  (∃ scene, PostProcessing._scene (PostProcessing.comp s) = Some scene ∧
            ∀ mesh, mesh ∈ PostProcessing.children scene →
                    is_Some (materials (PostProcessing.world s) !! material mesh)) ∧
  is_Some (PostProcessing._layerObserver (PostProcessing.comp s)) ∧
  is_Some (PostProcessing._canvas (PostProcessing.comp s)) ∧
  is_Some (PostProcessing._composer (PostProcessing.comp s)) ∧
  is_Some (PostProcessing._renderer (PostProcessing.comp s)).

(** A statement never changes what [f] reads of the state, however it
    ends. *)
Definition stable {S A X} (f : S → X) (m : M S A) : Prop :=
  ∀ s, f (state_of (m s)) = f s.

(** ** Notions used in the statements about the loop *)

(** The loop follows the tab: the listener that starts the loop at the first
    resize is gone, and the frames requested are one frame, the one
    [_animationId] names, while the tab is active, and none while it is not. *)
Definition loop_tied (s : PostProcessing.State) : Prop :=
  Initialized s ∧
  (∀ tl, tl ∈ resizeListeners (PostProcessing.world s) → tl.2 = onResize) ∧
  if PostProcessing.isTermActive (PostProcessing.props (PostProcessing.comp s))
  then ∃ f, pending (PostProcessing.world s) = [f] ∧
            PostProcessing._animationId (PostProcessing.comp s) = Some (fid f)
  else pending (PostProcessing.world s) = [].

(** What the resize listener leaves of the pass objects: the two uniforms
    set on the shader passes [sp], where their materials declare them. *)
Definition resized_passes (size : Q * Q) (sp : list PassRef) (objs : list Pass) : list Pass :=
  imap (fun p o =>
          if decide (p ∈ sp)
          then with_uniform "resolution" (UVec2 size.1 size.2)
                 (with_uniform "aspect" (UQuot size.1 size.2) o)
          else o) objs.

(** What [loop_tied] reads of the state besides [Initialized]. *)
Definition tab_view (s : PostProcessing.State) :
    list Frame * option nat * bool * list (XTerm * Listener) :=
  (pending (PostProcessing.world s),
   PostProcessing._animationId (PostProcessing.comp s),
   PostProcessing.isTermActive (PostProcessing.props (PostProcessing.comp s)),
   resizeListeners (PostProcessing.world s)).

(** What [_init] and [_setupScene] set up once: the fields of the component
    they assign, and what they create in the document and in the stores. *)
Definition fixtures (s : PostProcessing.State) :=
  (PostProcessing._isInit (PostProcessing.comp s),
   PostProcessing._term (PostProcessing.comp s),
   PostProcessing._container (PostProcessing.comp s),
   PostProcessing._xTermScreen (PostProcessing.comp s),
   PostProcessing._canvas (PostProcessing.comp s),
   PostProcessing._scene (PostProcessing.comp s),
   PostProcessing._renderer (PostProcessing.comp s),
   PostProcessing._camera (PostProcessing.comp s),
   PostProcessing._layerObserver (PostProcessing.comp s),
   PostProcessing._xTermLayerMap (PostProcessing.comp s),
   PostProcessing.passes (PostProcessing.comp s),
   PostProcessing._shaderPasses (PostProcessing.comp s),
   created (PostProcessing.world s),
   appended (PostProcessing.world s),
   observers (PostProcessing.world s),
   opacity (PostProcessing.world s),
   length (materials (PostProcessing.world s))).



(** ** More moments of the concrete terminal *)

(** How the concrete host prints numbers and objects. *)
Definition demo_printer : Theme.Printer :=
  Theme.mkPrinter (fun _ => "0") (fun _ => "[object Object]").

(** The component after the first resize event. *)
Definition demo_looping : PostProcessing.State :=
  after (Resized (term demo_term) (800%Q, 600%Q)) demo_ready.

(** A terminal whose container has no xterm screen yet. *)
Definition screenless_world : World :=
  mkWorld demo_host ∅ ∅ (bounds demo_world) 0 [] [] [] [] [] ∅ 0 [] [] [] [] 0.

Definition screenless_start : PostProcessing.State :=
  PostProcessing.mkState (PostProcessing.comp demo_decorated) screenless_world.



(** A record that replaces a canvas which is no render layer. *)
Definition stray_record : PostProcessing.MutationRecord :=
  PostProcessing.mkRecord [30] [40].

(** ** src/index.js, the older component: the shaders of the configuration *)

Module Legacy.

#[local] Set Warnings "-register-all".

(** A value given as the shader configuration.  A function is given by the
    value [createPassFromCallback] makes of it. *)
Inductive Config :=
| CUndefined
| CNull
| CBool (b : bool)
| CNum (q : Q)
| CStr (s : string)
| CArr (items : list Config)
| CObj (o : nat)
| CFun (result : Config).

(** What [_parseShadersFromConfig] returns: [null], a pass, or an array. *)
Inductive Shaders :=
| SNull
| SPass (p : PassRef)
| SArr (items : list Shaders).

(** [!!item] *)
Definition truthy (s : Shaders) : bool :=
  match s with
  | SNull => false
  | _ => true
  end.

(** The value a function of the shader loader returns: a pass, or nothing. *)
Definition of_loader (v : option PassRef) : Shaders :=
  match v with
  | Some p => SPass p
  | None => SNull
  end.

(** [config.map(f)] *)
Definition map_items (f : Config → M World Shaders) : list Config → M World (list Shaders) :=
  fix go l :=
    match l with
    | [] => ret []
    | x :: l' => y <- f x ;; ys <- go l' ;; ret (y :: ys)
    end.

Section Parse.

(** The functions of [./shader-loader], which is not among the sources, and
    [this._term]. *)
Variable createPassFromFragmentString : string → M World (option PassRef).
Variable createPassFromOptions : nat → M World (option PassRef).
Variable _term : option Term.

Fixpoint _parseShadersFromConfig (config : Config) : M World Shaders :=
  let parsed (config : Config) : M World Shaders :=
    match config with
    | CUndefined | CNull | CBool false | CStr EmptyString => ret SNull
    | CNum q => ret SNull
    | CBool true => ret SNull
    | CStr s => v <- createPassFromFragmentString s ;; ret (of_loader v)
    | CArr items =>
        all <- map_items _parseShadersFromConfig items ;;
        let shaders := filter (fun item => truthy item = true) all in
        ret (match shaders with
             | [] => SNull
             | _ => SArr shaders
             end)
    | CObj o => v <- createPassFromOptions o ;; ret (of_loader v)
    | CFun _ => ret SNull
    end in
  match config with
  | CFun result => _ <- deref "this._term" _term ;; parsed result
  | _ => parsed config
  end.

End Parse.


(** The values that are falsy, or of a type the method does not take. *)
Definition no_shader (c : Config) : bool :=
  match c with
  | CUndefined | CNull | CBool _ | CNum _ | CStr EmptyString => true
  | _ => false
  end.


End Legacy.

(** A shader loader that makes the pass 7 of every fragment string and the
    pass [o] of the options [o]. *)
Definition demo_fromString (s : string) : M World (option PassRef) := ret (Some 7).
Definition demo_fromOptions (o : nat) : M World (option PassRef) := ret (Some o).

(** * Proofs *)

(** ** index.js *)

Lemma themed_false (k : string) :
  Theme.themed k = false →
  k ≠ "foregroundColor" ∧ k ≠ "backgroundColor" ∧ k ≠ "borderColor" ∧ k ≠ "cursorColor".
Proof.
  unfold Theme.themed. intros H.
  repeat (apply orb_false_elim in H; destruct H as [H ?]).
  repeat match goal with H : bool_decide _ = false |- _ => apply bool_decide_eq_false in H end.
  done.
Qed.

Lemma overrides_other (k : string) :
  Theme.themed k = false → Theme.overrides !! k = None.
Proof.
  intros (? & ? & ? & ?)%themed_false. unfold Theme.overrides.
  by rewrite !lookup_insert_ne, lookup_empty.
Qed.

(** C8.  [decorateConfig] returns a new object that agrees with the given
    configuration on every property but [foregroundColor], [backgroundColor],
    [borderColor] and [cursorColor], which hold the colours of the theme; the
    given object, like every object that existed before, is not modified. *)
Theorem decorateConfig_overrides_colors (h : Theme.Heap) (config : nat) (o : Theme.JsObj) :
  h !! config = Some o →
  ∃ r h' o',
    Theme.decorateConfig config h = (r, h') ∧
    r ≠ config ∧ h !! r = None ∧ h' !! r = Some o' ∧
    (∀ k, Theme.themed k = false → o' !! k = o !! k) ∧
    o' !! "foregroundColor" = Some (Theme.VStr Theme.BRIGHT_GREEN) ∧
    o' !! "backgroundColor" = Some (Theme.VStr Theme.DARK_GREEN) ∧
    o' !! "borderColor" = Some (Theme.VStr Theme.BRIGHT_GREEN) ∧
    o' !! "cursorColor" = Some (Theme.VStr "#40FFFF") ∧
    (∀ l x, h !! l = Some x → h' !! l = Some x).
Proof.
  intros Hc.
  assert (Hlt : config < length h) by (by eapply lookup_lt_Some).
  unfold Theme.decorateConfig, alloc, Theme.Object_assign. simpl.
  assert (H1 : ((h ++ [∅]) ++ [Theme.overrides]) !! length h = Some (∅ : Theme.JsObj)).
  { rewrite lookup_app_l by (rewrite length_app; simpl; lia).
    by rewrite lookup_app_r, Nat.sub_diag. }
  rewrite H1. simpl.
  assert (H2 : ((h ++ [∅]) ++ [Theme.overrides]) !! config = Some o).
  { rewrite <- app_assoc. by apply lookup_app_l_Some. }
  rewrite H2.
  assert (H3 : ((h ++ [∅]) ++ [Theme.overrides]) !! length (h ++ [∅]) = Some Theme.overrides).
  { by rewrite lookup_app_r, Nat.sub_diag. }
  rewrite H3.
  eexists _, _, _. split; [reflexivity|].
  split; [lia|]. split; [by apply lookup_ge_None|].
  split.
  { apply list_lookup_insert_eq. rewrite !length_app. simpl. lia. }
  unfold Theme.assign_from.
  split.
  { intros k Hk. rewrite lookup_union_r by (by apply overrides_other).
    rewrite lookup_union_l by apply lookup_empty. done. }
  repeat split; try (apply lookup_union_Some_l; reflexivity).
  intros l x Hl.
  assert (l < length h) by (by eapply lookup_lt_Some).
  rewrite list_lookup_insert_ne by lia.
  rewrite <- app_assoc. by apply lookup_app_l_Some.
Qed.

(** ** The monad *)

Lemma bind_Ok {S A B} (m : M S A) (k : A -> M S B) s a s' :
  m s = Ok a s' → bind m k s = k a s'.
Proof. unfold bind. by intros ->. Qed.

Lemma bind_Throw {S A B} (m : M S A) (k : A -> M S B) s e s' :
  m s = Throw e s' → bind m k s = Throw e s'.
Proof. unfold bind. by intros ->. Qed.

(** ** src/passes.js *)

Lemma world_eta (w : World) :
  set_passObjs (passObjs w) w = w.
Proof. by destruct w. Qed.

(** The construction either completes, or throws after having allocated at
    most the first pass; it touches nothing but the store of passes. *)
Lemma construct_cases (w : World) :
  Passes.construct w =
    Ok [length (passObjs w); S (length (passObjs w))]
       (set_passObjs (passObjs w ++ [crtPass (host w); curvedPass (host w)]) w)
  ∨ ∃ e garbage,
      Passes.construct w = Throw e (set_passObjs (passObjs w ++ garbage) w).
Proof.
  unfold Passes.construct, Passes.separation_uniforms, Passes.new_Effect,
    Passes.new_CustomEffectPass, Passes.new_EffectPass, bind, lib_call, ret, gets,
    new_pass.
  destruct (fault (host w) CUniform) eqn:E1.
  { right. exists e, []. rewrite app_nil_r. by destruct w. }
  destruct (fault (host w) CMap) eqn:E2.
  { right. exists e, []. rewrite app_nil_r. by destruct w. }
  destruct (fault (host w) (CEffect "crtEffect")) eqn:E3.
  { right. exists e, []. rewrite app_nil_r. by destruct w. }
  destruct (fault (host w) CCustomEffectPass) eqn:E4.
  { right. exists e, []. rewrite app_nil_r. by destruct w. }
  cbn.
  destruct (fault (host w) (CEffect "curvedFragmentEffect")) eqn:E5.
  { right. exists e, [crtPass (host w)]. reflexivity. }
  cbn.
  destruct (fault (host w) CEffectPass) eqn:E6.
  { right. exists e, [crtPass (host w)]. reflexivity. }
  left. cbn. rewrite length_app. simpl. rewrite Nat.add_1_r, <- app_assoc.
  destruct w; reflexivity.
Qed.

Lemma construct_no_throw (w : World) :
  (∀ e w', Passes.construct w ≠ Throw e w') →
  Passes.construct w =
    Ok [length (passObjs w); S (length (passObjs w))]
       (set_passObjs (passObjs w ++ [crtPass (host w); curvedPass (host w)]) w).
Proof.
  intros H. destruct (construct_cases w) as [?|(e & g & Hc)]; [done|].
  by apply H in Hc.
Qed.

Lemma construct_fault_free (w : World) :
  (∀ c, fault (host w) c = None) → ∀ e w', Passes.construct w ≠ Throw e w'.
Proof.
  intros H e w'.
  unfold Passes.construct, Passes.separation_uniforms, Passes.new_Effect,
    Passes.new_CustomEffectPass, Passes.new_EffectPass, bind, lib_call, ret, gets,
    new_pass.
  repeat (first [rewrite H | progress cbn]). done.
Qed.

Lemma createPasses_Ok (w : World) :
  (∀ e w', Passes.construct w ≠ Throw e w') →
  Passes.createPasses w =
    Ok (Some [length (passObjs w); S (length (passObjs w))])
       (set_passObjs (passObjs w ++ [crtPass (host w); curvedPass (host w)]) w).
Proof.
  intros H. unfold Passes.createPasses, try_catch, bind.
  by rewrite (construct_no_throw w H).
Qed.

Lemma createPasses_Throw (w : World) e w' :
  Passes.construct w = Throw e w' →
  Passes.createPasses w = Ok None (set_console (console w' ++ [LogErr e]) w').
Proof.
  intros H. unfold Passes.createPasses, try_catch, bind. by rewrite H.
Qed.

(** C2.  When nothing throws during the construction, [createPasses] returns
    a list of exactly two new passes: first the [CustomEffectPass] of the effect
    [crtEffect] (CRT, colour separation and flicker, with its [separation]
    uniform at 0.5), then the [EffectPass] of the effect [curvedFragmentEffect]
    (screen curvature).  Both are instances of [EffectPass], each made of one
    [Effect]; the passes that existed before are left as they were. *)
Theorem createPasses_two_effect_passes (w : World) :
  (∀ e w', Passes.construct w ≠ Throw e w') →
  ∃ p1 p2 w' crt curved e1 e2,
    Passes.createPasses w = Ok (Some [p1; p2]) w' ∧
    p1 ≠ p2 ∧ passObjs w !! p1 = None ∧ passObjs w !! p2 = None ∧
    passObjs w' !! p1 = Some crt ∧ passObjs w' !! p2 = Some curved ∧
    instanceof_EffectPass (pclass crt) = true ∧
    instanceof_EffectPass (pclass curved) = true ∧
    pclass crt = CustomEffectPass ∧ pclass curved = EffectPass ∧
    effects crt = [e1] ∧ effects curved = [e2] ∧
    ename e1 = "crtEffect" ∧ fragment e1 = crtFragmentShader ∧
    uniforms e1 !! "separation" = Some (1 # 2)%Q ∧
    ename e2 = "curvedFragmentEffect" ∧ fragment e2 = curvedFragmentShader ∧
    (∀ p o, passObjs w !! p = Some o → passObjs w' !! p = Some o).
Proof.
  intros H. rewrite (createPasses_Ok w H).
  eexists _, _, _, (crtPass (host w)), (curvedPass (host w)), _, _.
  split; [reflexivity|].
  assert (Hw : passObjs (set_passObjs (passObjs w ++ [crtPass (host w); curvedPass (host w)]) w)
               = passObjs w ++ [crtPass (host w); curvedPass (host w)]) by done.
  rewrite Hw.
  split; [lia|].
  split; [by apply lookup_ge_None|].
  split; [apply lookup_ge_None; lia|].
  split; [by rewrite lookup_app_r, Nat.sub_diag|].
  split.
  { rewrite lookup_app_r by lia. by replace (S _ - _) with 1 by lia. }
  repeat (split; [reflexivity|]).
  intros p o Hp. by apply lookup_app_l_Some.
Qed.

(** *** The separation uniform *)

Lemma clamp01_bounds (x : Q) : (0 <= Passes.clamp01 x <= 1)%Q.
Proof.
  unfold Passes.clamp01. split.
  - apply Q.min_glb; [discriminate | apply Q.le_max_l].
  - apply Q.le_min_l.
Qed.

Lemma separation_of_set (v : Q) (o : Pass) :
  is_Some (Passes.separation_of o) →
  Passes.separation_of (Passes.set_separation v o) = Some v.
Proof.
  unfold Passes.separation_of, Passes.set_separation.
  destruct (effects o) as [|e es]; simpl; [by intros [? ?]|].
  intros _. apply lookup_insert_eq.
Qed.

Lemma render_step (w : World) (p : PassRef) (o : Pass) (v : Q) :
  passObjs w !! p = Some o →
  Passes.separation_of o = Some v →
  Passes.render p w =
    Ok tt (set_passObjs
             (<[p := Passes.set_separation
                       (Passes.clamp01
                          (Passes.perturb (fl (host w)) v (rng (host w) (drawn w)))) o]>
                (passObjs w))
             (set_drawn (S (drawn w)) w)).
Proof.
  intros Hp Hv. unfold Passes.render, bind, gets, deref, ret, Math_random, modify.
  rewrite Hp, Hv. reflexivity.
Qed.

Lemma render_keeps_separation (w : World) (p : PassRef) (v : Q) :
  separation_at w p = Some v →
  ∃ w' v', Passes.render p w = Ok tt w' ∧ separation_at w' p = Some v' ∧
           (0 <= v' <= 1)%Q ∧ host w' = host w.
Proof.
  unfold separation_at. intros H.
  destruct (passObjs w !! p) as [o|] eqn:Hp; simpl in H; [|done].
  rewrite (render_step w p o v Hp H).
  eexists _, _. split; [reflexivity|]. cbn.
  rewrite list_lookup_insert_eq by (by eapply lookup_lt_Some). simpl.
  split; [by apply separation_of_set|].
  split; [apply clamp01_bounds | done].
Qed.

Lemma renders_keep_separation (n : nat) :
  ∀ (w : World) (p : PassRef) (v : Q),
    separation_at w p = Some v → (0 <= v <= 1)%Q →
    ∃ w' v', renders n p w = Ok tt w' ∧ separation_at w' p = Some v' ∧
             (0 <= v' <= 1)%Q.
Proof.
  induction n as [|n IH]; intros w p v Hv Hb.
  - exists w, v. done.
  - destruct (render_keeps_separation w p v Hv) as (w1 & v1 & Hr & Hv1 & Hb1 & _).
    destruct (IH w1 p v1 Hv1 Hb1) as (w2 & v2 & Hr2 & Hv2 & Hb2).
    exists w2, v2. split; [|done].
    simpl. by rewrite (bind_Ok _ _ _ _ _ Hr).
Qed.

Lemma createPasses_Some_inv (w w1 : World) (ps : list PassRef) :
  Passes.createPasses w = Ok (Some ps) w1 →
  ps = [length (passObjs w); S (length (passObjs w))] ∧
  w1 = set_passObjs (passObjs w ++ [crtPass (host w); curvedPass (host w)]) w.
Proof.
  intros H. destruct (construct_cases w) as [Hc|(e & g & Hc)].
  - unfold Passes.createPasses, try_catch, bind in H. rewrite Hc in H.
    simpl in H. by inversion H.
  - rewrite (createPasses_Throw _ _ _ Hc) in H. discriminate.
Qed.

(** C9.  The [separation] uniform of the CRT effect is in [0, 1] after any
    number of calls of [CustomEffectPass.render], whatever values
    [Math.random()] returns and however the host rounds: it starts at 0.5 and
    every call clamps the perturbed value between 0 and 1. *)
Theorem separation_stays_in_unit_interval
    (w w1 : World) (p1 : PassRef) (rest : list PassRef) (n : nat) :
  Passes.createPasses w = Ok (Some (p1 :: rest)) w1 →
  ∃ w2 v, renders n p1 w1 = Ok tt w2 ∧ separation_at w2 p1 = Some v ∧
          (0 <= v <= 1)%Q.
Proof.
  intros [Hps ->]%createPasses_Some_inv. inversion Hps; subst.
  apply renders_keep_separation with (v := (1 # 2)%Q).
  - unfold separation_at. cbn.
    by rewrite lookup_app_r, Nat.sub_diag.
  - split; discriminate.
Qed.

(** The construction neither reads nor writes the console. *)
Lemma construct_console (w : World) (c : list ConsoleEntry) :
  Passes.construct (set_console c w) =
    match Passes.construct w with
    | Ok a w1 => Ok a (set_console c w1)
    | Throw e w1 => Throw e (set_console c w1)
    end.
Proof.
  unfold Passes.construct, Passes.separation_uniforms, Passes.new_Effect,
    Passes.new_CustomEffectPass, Passes.new_EffectPass, bind, lib_call, ret, gets,
    new_pass.
  repeat (simpl;
          match goal with
          | |- context [fault (host w) ?c] => destruct (fault (host w) c); [reflexivity|]
          end).
  reflexivity.
Qed.

(** ** src/index.js *)

Import PostProcessing.

Lemma liftW_Ok {A} (m : M World A) (s : State) a w :
  m (world s) = Ok a w → liftW m s = Ok a (mkState (comp s) w).
Proof. unfold liftW. by intros ->. Qed.

Lemma init_when_construct_throws (s : State) (e : Error) (w' : World) :
  Passes.construct (world s) = Throw e w' →
  _init s = Ok tt (mkState (comp s)
                     (set_console (console (world s) ++
                                   [Log "start init"; LogErr e; Log "made passes"]) w')).
Proof.
  intros H.
  pose (w0 := set_console (console (world s) ++ [Log "start init"]) (world s)).
  assert (H0 : Passes.createPasses w0
               = Ok None (set_console (console (set_console (console w0) w') ++ [LogErr e])
                            (set_console (console w0) w'))).
  { apply createPasses_Throw. unfold w0 at 1. rewrite construct_console. by rewrite H. }
  unfold _init.
  rewrite (bind_Ok _ _ s tt (mkState (comp s) w0)) by reflexivity.
  rewrite (bind_Ok _ _ _ _ _ (liftW_Ok _ (mkState (comp s) w0) _ _ H0)).
  destruct (construct_cases (world s)) as [Hc|(e' & g & Hc)]; rewrite Hc in H;
    inversion H; subst.
  cbn. rewrite <- !app_assoc. reflexivity.
Qed.

(** C5.  An exception thrown while the passes are constructed is caught and
    logged on the console, and [_init] returns normally with the component as
    it was: [_isInit], the scene, the renderer, the observer and the canvas are
    untouched, nothing is created in the document or registered with the
    host, and the console shows one attempt only. *)
Theorem init_atomic_when_construction_throws (s : State) (e : Error) (w' : World) :
  Passes.construct (world s) = Throw e w' →
  ∃ s' garbage,
    _init s = Ok tt s' ∧
    comp s' = comp s ∧
    world s' = set_console (console (world s) ++
                            [Log "start init"; LogErr e; Log "made passes"])
                 (set_passObjs (passObjs (world s) ++ garbage) (world s)) ∧
    _isInit (comp s') = _isInit (comp s) ∧
    _scene (comp s') = _scene (comp s) ∧
    _renderer (comp s') = _renderer (comp s) ∧
    _layerObserver (comp s') = _layerObserver (comp s) ∧
    _canvas (comp s') = _canvas (comp s) ∧
    created (world s') = created (world s) ∧
    appended (world s') = appended (world s) ∧
    observers (world s') = observers (world s) ∧
    resizeListeners (world s') = resizeListeners (world s) ∧
    pending (world s') = pending (world s).
Proof.
  intros H. rewrite (init_when_construct_throws s e w' H).
  destruct (construct_cases (world s)) as [Hc|(e' & g & Hc)]; rewrite Hc in H;
    inversion H; subst.
  eexists _, g. split; [reflexivity|]. simpl. done.
Qed.

(** C10.  Called with a null term, or called when the component is
    initialized already, [_onDecorated] leaves every field of the component as
    it was: all it does is forward the call to the chained [onDecorated] prop,
    when there is one. *)
Theorem onDecorated_initializes_once (s : State) (t : option Term) :
  t = None ∨ _isInit (comp s) = true →
  _onDecorated t s =
    Ok tt (mkState (comp s)
             (if onDecorated (props (comp s))
              then set_chained (chained (world s) ++ [t]) (world s)
              else world s)).
Proof.
  intros H. unfold _onDecorated, bind, this, gets, host_set, modify, ret.
  destruct s as [c w]; simpl in *.
  destruct (onDecorated (props c)); simpl;
    (destruct H as [->| ->]; [done | by destruct t]).
Qed.

(** *** The scene *)

Lemma alter_last {A} (f : A → A) (h : list A) (x : A) :
  alter f (length h) (h ++ [x]) = h ++ [f x].
Proof.
  replace (length h) with (length h + 0) by lia. by rewrite alter_app_r.
Qed.

Lemma hide_canvases (cs : list Canvas) :
  ∀ s : State,
    for_of cs (fun canvas =>
      host_set (fun w => set_opacity (<[canvas := 0%Q]> (opacity w)) w)) s
    = Ok tt (mkState (comp s) (set_opacity (hidden cs (opacity (world s))) (world s))).
Proof.
  induction cs as [|c cs IH]; intros s.
  - simpl. unfold ret. by destruct s as [? []].
  - simpl. unfold bind. unfold host_set at 1, modify at 1. rewrite IH.
    reflexivity.
Qed.

Lemma add_layer_step (size : Q * Q) (c : Canvas) (s : State) (sc : Scene) :
  _scene (comp s) = Some sc →
  add_layer size c s =
    Ok tt (mkState
             (set_xTermLayerMap
                (<[c := length (materials (world s))]> (_xTermLayerMap (comp s)))
                (set_scene
                   (Some (mkScene (children sc ++
                                   [mkMesh size (length (materials (world s)))])))
                   (comp s)))
             (set_materials
                (materials (world s) ++ [layer_material (length (textures (world s)))])
                (set_textures (textures (world s) ++ [layer_texture c]) (world s)))).
Proof.
  intros Hsc.
  unfold add_layer, bind, new_CanvasTexture, update_texture, host_set, modify,
    new_MeshBasicMaterial, this, gets, assign, deref.
  simpl. rewrite Hsc. unfold ret. simpl.
  rewrite alter_last. reflexivity.
Qed.

Lemma layer_meshes_cons (size : Q * Q) (m0 : nat) (c : Canvas) (cs : list Canvas) :
  layer_meshes size m0 (c :: cs) = mkMesh size m0 :: layer_meshes size (S m0) cs.
Proof.
  unfold layer_meshes. simpl. rewrite Nat.add_0_r. f_equal.
  apply imap_ext. intros i x _. simpl. f_equal. lia.
Qed.

Lemma layer_materials_cons (t0 : nat) (c : Canvas) (cs : list Canvas) :
  layer_materials t0 (c :: cs) = layer_material t0 :: layer_materials (S t0) cs.
Proof.
  unfold layer_materials. simpl. rewrite Nat.add_0_r. f_equal.
  apply imap_ext. intros i x _. simpl. f_equal. lia.
Qed.

Lemma add_layers (size : Q * Q) (cs : list Canvas) :
  ∀ (s : State) (sc : Scene),
    _scene (comp s) = Some sc →
    for_of cs (add_layer size) s =
      Ok tt (mkState
               (set_xTermLayerMap
                  (layer_map (length (materials (world s))) cs (_xTermLayerMap (comp s)))
                  (set_scene
                     (Some (mkScene (children sc ++
                                     layer_meshes size (length (materials (world s))) cs)))
                     (comp s)))
               (set_materials
                  (materials (world s) ++
                   layer_materials (length (textures (world s))) cs)
                  (set_textures (textures (world s) ++ (layer_texture <$> cs))
                     (world s)))).
Proof.
  induction cs as [|c cs IH]; intros s sc Hsc.
  - simpl. unfold ret, layer_meshes, layer_materials. simpl.
    rewrite !app_nil_r.
    destruct s as [co w]; destruct co, w, sc; simpl in *. by subst.
  - simpl for_of. rewrite (bind_Ok _ _ _ _ _ (add_layer_step size c s sc Hsc)).
    erewrite IH by reflexivity.
    rewrite layer_meshes_cons, layer_materials_cons, fmap_cons.
    destruct s as [co w]; destruct co, w; simpl in *.
    rewrite !length_app. simpl. rewrite !Nat.add_1_r.
    rewrite <- !app_assoc. reflexivity.
Qed.

Lemma setupScene_Ok (s : State) (t : Term) (size : Q * Q) (cs : list Canvas) (cont : Node) :
  _term (comp s) = Some t →
  bounds (world s) !! term t = Some size →
  _container (comp s) = Some cont →
  _setupScene cs s =
    Ok tt (mkState (scene_comp (comp s) (world s) size cs)
                   (scene_world (world s) cs cont)).
Proof.
  intros Ht Hb Hc. destruct size as [width height].
  unfold _setupScene.
  unfold bind at 1. unfold this at 1, gets at 1. rewrite Ht.
  unfold bind at 1. unfold deref at 1, ret at 1.
  unfold bind at 1. unfold host_get at 1, gets at 1. rewrite Hb.
  unfold bind at 1. unfold deref at 1, ret at 1.
  repeat (unfold bind at 1;
          first [unfold host_get at 1, gets at 1
                |unfold host_set at 1, modify at 1
                |unfold assign at 1, modify at 1]).
  erewrite add_layers by reflexivity.
  unfold bind, this, gets, deref, host_set, modify, ret. simpl. rewrite Hc.
  unfold scene_comp, scene_world, scene_camera.
  destruct s as [co w]; destruct co, w; reflexivity.
Qed.

(** *** The pass chain *)

Lemma addPass_all (ps : list PassRef) :
  ∀ (s : State) (composer : Composer),
    _composer (comp s) = Some composer →
    (∀ p, fault (host (world s)) (CAddPass p) = None) →
    for_of ps addPass s =
      Ok tt (mkState
               (set_composer
                  (Some (mkComposer (composerPasses composer ++ ps)
                                    (composerSize composer)))
                  (comp s))
               (world s)).
Proof.
  induction ps as [|p ps IH]; intros s composer Hc Hf.
  - simpl. unfold ret. rewrite app_nil_r.
    destruct s as [co w]; destruct co, composer; simpl in *. by subst.
  - simpl for_of.
    assert (Hstep : addPass p s =
              Ok tt (mkState
                       (set_composer
                          (Some (mkComposer (composerPasses composer ++ [p])
                                            (composerSize composer)))
                          (comp s))
                       (world s))).
    { unfold addPass, bind, this, gets, deref, ret, liftW, lib_call, assign, modify.
      rewrite Hc. simpl. rewrite Hf. simpl. by destruct s. }
    rewrite (bind_Ok _ _ _ _ _ Hstep).
    erewrite IH; [|reflexivity|exact Hf].
    simpl. rewrite <- app_assoc. simpl.
    destruct s as [co w]; destruct co; reflexivity.
Qed.

Lemma last_cons_Some {A} (x : A) (l : list A) (y : A) :
  last l = Some y → last (x :: l) = Some y.
Proof. destruct l; [done|]. by intros <-. Qed.

Lemma store_passes_Ok (s : State) (ps : list PassRef) (l : PassRef) (composer : Composer) :
  last ps = Some l →
  _composer (comp s) = Some composer →
  fault (host (world s)) CRenderPass = None →
  (∀ p, fault (host (world s)) (CAddPass p) = None) →
  store_passes ps s =
    Ok tt (mkState (stored_comp (comp s) (world s) ps l composer)
                   (stored_world (world s) l)).
Proof.
  intros Hl Hc Hr Hf. unfold store_passes.
  unfold bind at 1. unfold liftW at 1, lib_call at 1. rewrite Hr.
  unfold bind at 1. unfold liftW at 1, new_pass at 1.
  unfold bind at 1. unfold assign at 1, modify at 1.
  unfold bind at 1. unfold this at 1, gets at 1.
  unfold bind at 1. unfold ret at 1.
  cbn [comp world passes set_passes].
  rewrite (last_cons_Some _ _ _ Hl).
  unfold bind at 1. unfold deref at 1, ret at 1.
  unfold bind at 1. unfold host_set at 1, modify at 1.
  erewrite bind_Ok;
    [|apply addPass_all with (composer := composer); [exact Hc | exact Hf]].
  unfold bind, host_get, gets, assign, modify. simpl.
  unfold stored_comp, stored_world.
  destruct s as [co w]; destruct co, w; reflexivity.
Qed.

(** *** Initialization *)

Lemma alter_created {A} (f : A → A) (h : list A) (a b c : A) :
  alter f (S (length h)) ((h ++ [a; b]) ++ [c]) = h ++ [a; f b; c].
Proof.
  rewrite <- app_assoc. simpl.
  replace (S (length h)) with (length h + 1) by lia.
  by rewrite alter_app_r.
Qed.

Lemma effect_passes_are_no_shader_passes (w : World) (h : list Pass) (a b c : Pass) :
  passObjs w = h ++ [a; b; c] →
  instanceof_EffectPass (pclass a) = true →
  instanceof_EffectPass (pclass b) = true →
  filter (fun p => is_shader_pass w p = true) [length h; S (length h)] = [].
Proof.
  intros Hw Ha Hb.
  assert (H1 : is_shader_pass w (length h) = false).
  { unfold is_shader_pass. rewrite Hw, lookup_app_r, Nat.sub_diag by lia. simpl.
    rewrite Ha. apply andb_false_r. }
  assert (H2 : is_shader_pass w (S (length h)) = false).
  { unfold is_shader_pass. rewrite Hw, lookup_app_r by lia.
    replace (S (length h) - length h) with 1 by lia. simpl.
    rewrite Hb. apply andb_false_r. }
  rewrite filter_cons_False by (by rewrite H1).
  rewrite filter_cons_False by (by rewrite H2).
  done.
Qed.

Lemma init_Ok (s : State) (t : Term) (scr : Node) (size : Q * Q) :
  fault_free (host (world s)) →
  _term (comp s) = Some t →
  screenOf (world s) !! termRef t = Some scr →
  bounds (world s) !! term t = Some size →
  let cs := default [] (canvasesOf (world s) !! scr) in
  _init s = Ok tt (mkState (init_comp (comp s) (world s) t scr size cs)
                           (init_world (world s) t scr cs)).
Proof.
  intros Hf Ht Hscr Hb cs.
  pose (w0 := set_console (console (world s) ++ [Log "start init"]) (world s)).
  assert (H0 : Passes.createPasses w0 =
               Ok (Some [length (passObjs w0); S (length (passObjs w0))])
                  (set_passObjs (passObjs w0 ++ [crtPass (host w0); curvedPass (host w0)]) w0)).
  { apply createPasses_Ok, construct_fault_free. exact Hf. }
  unfold _init.
  rewrite (bind_Ok _ _ s tt (mkState (comp s) w0)) by reflexivity.
  rewrite (bind_Ok _ _ _ _ _ (liftW_Ok _ (mkState (comp s) w0) _ _ H0)).
  unfold bind at 1. unfold liftW at 1, console_log at 1, modify at 1.
  cbn [world comp].
  unfold bind at 1. unfold liftW at 1, console_log at 1, modify at 1.
  cbn [world comp].
  unfold bind at 1. unfold assign at 1, modify at 1. cbn [world comp].
  unfold bind at 1. unfold this at 1, gets at 1. cbn [world comp].
  replace (_term (set_isInit true (comp s))) with (Some t) by (by rewrite <- Ht).
  unfold bind at 1. unfold deref at 1, ret at 1.
  unfold bind at 1. unfold assign at 1, modify at 1. cbn [world comp].
  unfold bind at 1. unfold host_get at 1, gets at 1. cbn [world comp].
  replace (screenOf _ !! termRef t) with (Some scr) by (by rewrite <- Hscr).
  unfold bind at 1. unfold assign at 1, modify at 1. cbn [world comp].
  unfold bind at 1. unfold deref at 1, ret at 1.
  unfold bind at 1. unfold host_get at 1, gets at 1. cbn [world comp].
  replace (default [] (canvasesOf _ !! scr)) with cs by reflexivity.
  erewrite bind_Ok; [|apply hide_canvases]. cbn [world comp].
  erewrite bind_Ok;
    [|apply (setupScene_Ok _ t size cs (termRef t)); [by rewrite <- Ht | by rewrite <- Hb | done]].
  unfold bind at 1. unfold assign at 1, modify at 1. cbn [world comp].
  erewrite bind_Ok.
  2:{ unfold try_catch.
      erewrite (store_passes_Ok _ _ (S (length (passObjs w0))) (mkComposer [] None));
        [reflexivity|done|done|apply Hf|intros p; apply Hf]. }
  unfold bind, liftW, console_log, modify, host_get, gets, assign, host_set,
    on_resize, modify.
  cbn [world comp].
  unfold stored_comp.
  rewrite (effect_passes_are_no_shader_passes _ (passObjs (world s))
             (crtPass (host (world s)))
             (set_renderToScreen true (curvedPass (host (world s)))) renderPass);
    [|unfold stored_world; simpl; apply alter_created|done|done].
  unfold init_comp, init_world, stored_world, scene_comp, scene_world, w0.
  clear H0 Hf Ht Hscr Hb. subst cs.
  destruct s as [co w]; destruct co, w; simpl.
  rewrite alter_created, length_app, <- !app_assoc. simpl.
  rewrite Nat.add_comm. reflexivity.
Qed.

Lemma layer_map_notin (cs : list Canvas) :
  ∀ (m0 : nat) (layers : gmap Canvas MatRef) (c : Canvas),
    c ∉ cs → layer_map m0 cs layers !! c = layers !! c.
Proof.
  induction cs as [|c' cs IH]; intros m0 layers c Hc; [done|].
  apply not_elem_of_cons in Hc as [Hne Hc]. simpl.
  rewrite IH by done. by rewrite lookup_insert_ne.
Qed.

Lemma layer_map_lookup (cs : list Canvas) :
  ∀ (m0 : nat) (layers : gmap Canvas MatRef) (i : nat) (c : Canvas),
    NoDup cs → cs !! i = Some c → layer_map m0 cs layers !! c = Some (m0 + i).
Proof.
  induction cs as [|c' cs IH]; intros m0 layers i c Hnd Hi; [done|].
  apply NoDup_cons in Hnd as [Hc' Hnd]. destruct i as [|i]; simpl in *.
  - inversion Hi; subst. rewrite layer_map_notin by done.
    by rewrite lookup_insert_eq, Nat.add_0_r.
  - rewrite (IH _ _ i c) by done. f_equal. lia.
Qed.

(** C1.  A successful [_init] (no library call throws, the term has its
    xterm screen and its element) builds the pass chain: the passes of the
    composer, and [this.passes], are a new [RenderPass] followed by the passes
    [createPasses] returned, in their order, and of these passes exactly the
    last one has [renderToScreen] set. *)
Theorem init_pass_chain (s : State) (t : Term) (scr : Node) (size : Q * Q) :
  fault_free (host (world s)) →
  _term (comp s) = Some t →
  screenOf (world s) !! termRef t = Some scr →
  bounds (world s) !! term t = Some size →
  ∃ s' ps w1 rp composer,
    Passes.createPasses
      (set_console (console (world s) ++ [Log "start init"]) (world s)) = Ok (Some ps) w1 ∧
    ps ≠ [] ∧
    _init s = Ok tt s' ∧
    _isInit (comp s') = true ∧
    _composer (comp s') = Some composer ∧
    composerPasses composer = rp :: ps ∧
    passes (comp s') = rp :: ps ∧
    passObjs (world s) !! rp = None ∧
    (∃ o, passObjs (world s') !! rp = Some o ∧ pclass o = RenderPass) ∧
    (∀ i p, (rp :: ps) !! i = Some p →
       ∃ o, passObjs (world s') !! p = Some o ∧
            (renderToScreen o = true ↔ i = length ps)).
Proof.
  intros Hf Ht Hscr Hb.
  pose (w0 := set_console (console (world s) ++ [Log "start init"]) (world s)).
  assert (H0 : Passes.createPasses w0 =
               Ok (Some [length (passObjs w0); S (length (passObjs w0))])
                  (set_passObjs (passObjs w0 ++ [crtPass (host w0); curvedPass (host w0)]) w0)).
  { apply createPasses_Ok, construct_fault_free. exact Hf. }
  rewrite (init_Ok s t scr size Hf Ht Hscr Hb). fold w0. rewrite H0.
  eexists _, _, _, (S (S (length (passObjs (world s))))), _.
  split; [reflexivity|]. split; [done|]. split; [reflexivity|].
  split; [reflexivity|]. split; [reflexivity|].
  split; [reflexivity|]. split; [reflexivity|].
  split; [apply lookup_ge_None; lia|].
  cbn [world init_world passObjs].
  split.
  { exists renderPass. split; [|done].
    rewrite lookup_app_r by lia.
    by replace (S (S _) - _) with 2 by lia. }
  intros i p Hi. cbn [length].
  destruct i as [|[|[|i]]]; simpl in Hi; inversion Hi; subst.
  - exists renderPass. split.
    + rewrite lookup_app_r by lia. by replace (S (S _) - _) with 2 by lia.
    + simpl. split; [done|lia].
  - exists (crtPass (host (world s))). split.
    + rewrite lookup_app_r by (simpl; lia). simpl. by rewrite Nat.sub_diag.
    + simpl. split; [done|lia].
  - exists (set_renderToScreen true (curvedPass (host (world s)))). split.
    + rewrite lookup_app_r by (simpl; lia). simpl.
      by replace (S _ - _) with 1 by lia.
    + simpl. done.
Qed.

(** C3.  At initialization [_setupScene] receives the canvases found under
    the xterm screen and creates one textured plane mesh per canvas: the scene
    has as many meshes as there are canvases, the mesh at the index of a canvas
    has the size of the terminal and a new material whose map is a new texture
    of that canvas, and the layer map sends the canvas to this material. *)
Theorem init_one_mesh_per_canvas
    (s : State) (t : Term) (scr : Node) (size : Q * Q) (cs : list Canvas) :
  fault_free (host (world s)) →
  _term (comp s) = Some t →
  screenOf (world s) !! termRef t = Some scr →
  bounds (world s) !! term t = Some size →
  default [] (canvasesOf (world s) !! scr) = cs →
  NoDup cs →
  ∃ s' scene,
    _init s = Ok tt s' ∧
    _scene (comp s') = Some scene ∧
    length (children scene) = length cs ∧
    (∀ i c, cs !! i = Some c →
       ∃ mesh mat tex,
         children scene !! i = Some mesh ∧
         geometry mesh = size ∧
         materials (world s) !! material mesh = None ∧
         materials (world s') !! material mesh = Some mat ∧
         textures (world s) !! map mat = None ∧
         textures (world s') !! map mat = Some tex ∧
         image tex = Some c ∧
         minFilter tex = LinearFilter ∧
         _xTermLayerMap (comp s') !! c = Some (material mesh)).
Proof.
  intros Hf Ht Hscr Hb Hcs Hnd.
  rewrite (init_Ok s t scr size Hf Ht Hscr Hb). rewrite Hcs.
  eexists _, _. split; [reflexivity|]. split; [reflexivity|].
  cbn [children comp world init_comp init_world _xTermLayerMap materials textures].
  split; [apply length_imap|].
  intros i c Hi.
  assert (Hlt : i < length cs) by (by eapply lookup_lt_Some).
  exists (mkMesh size (length (materials (world s)) + i)),
         (layer_material (length (textures (world s)) + i)),
         (layer_texture c).
  split. { unfold layer_meshes. by rewrite list_lookup_imap, Hi. }
  split; [done|].
  split. { apply lookup_ge_None. simpl. lia. }
  split.
  { simpl. rewrite lookup_app_r by lia.
    replace (_ + i - _) with i by lia.
    unfold layer_materials. by rewrite list_lookup_imap, Hi. }
  split. { apply lookup_ge_None. simpl. lia. }
  split.
  { simpl. rewrite lookup_app_r by lia.
    replace (_ + i - _) with i by lia.
    by rewrite list_lookup_fmap, Hi. }
  split; [done|]. split; [done|].
  simpl. by apply layer_map_lookup.
Qed.

(** *** Canvas replacement *)

Lemma replaceTexture_Ok (s : State) (r : Node) (a : option Node) (m : MatRef)
    (mat : Material) :
  _xTermLayerMap (comp s) !! r = Some m →
  materials (world s) !! m = Some mat →
  _replaceTexture r a s =
    Ok tt (mkState (comp s)
             (set_materials
                (alter (set_map (length (textures (world s)))) m (materials (world s)))
                (set_textures
                   (alter dispose (map mat)
                      (textures (world s) ++ [mkTexture a LinearFilter true false]))
                   (world s)))).
Proof.
  intros Hm Hmat.
  unfold _replaceTexture, bind, this, gets, new_CanvasTexture, update_texture,
    host_set, modify, deref, host_get, gets, ret.
  simpl. rewrite Hm. simpl. rewrite Hmat. simpl.
  rewrite alter_last. reflexivity.
Qed.

Lemma dispose_idemp (t : Texture) : dispose (dispose t) = dispose t.
Proof. done. Qed.

(** The loop of [_onCanvasReplacement], for the pairs still to be handled. *)
Lemma replace_loop (lm : gmap Canvas MatRef) (prs : list (Node * option Node)) :
  ∀ s : State,
    _xTermLayerMap (comp s) = lm →
    NoDup prs.*1 →
    (∀ c, c ∈ prs.*1 →
       ∃ m mat, lm !! c = Some m ∧ materials (world s) !! m = Some mat ∧
                map mat < length (textures (world s))) →
    (∀ c1 c2 m, c1 ∈ prs.*1 → c2 ∈ prs.*1 →
       lm !! c1 = Some m → lm !! c2 = Some m → c1 = c2) →
    ∃ s',
      for_of prs (fun '(r, a) => _replaceTexture r a) s = Ok tt s' ∧
      comp s' = comp s ∧
      (∀ i c a m mat,
         prs !! i = Some (c, a) → lm !! c = Some m →
         materials (world s) !! m = Some mat →
         materials (world s') !! m =
           Some (set_map (length (textures (world s)) + i) mat) ∧
         textures (world s') !! (length (textures (world s)) + i) =
           Some (mkTexture a LinearFilter true false) ∧
         ∀ old, textures (world s) !! map mat = Some old →
                textures (world s') !! map mat = Some (dispose old)) ∧
      (∀ m, (∀ c, c ∈ prs.*1 → lm !! c ≠ Some m) →
            materials (world s') !! m = materials (world s) !! m) ∧
      (∀ x tx, textures (world s) !! x = Some tx →
               textures (world s') !! x = Some tx ∨
               textures (world s') !! x = Some (dispose tx)) ∧
      (∀ x tx, textures (world s) !! x = Some tx →
               (∀ c m mat, c ∈ prs.*1 → lm !! c = Some m →
                           materials (world s) !! m = Some mat → map mat ≠ x) →
               textures (world s') !! x = Some tx).
Proof.
  induction prs as [|[c a] prs IH]; intros s Hlm Hnd Hwf Hinj.
  - exists s. split; [done|]. split; [done|].
    split; [intros i ? ? ? ? Hi; done|].
    split; [done|]. split; [by left|done].
  - rewrite fmap_cons in *. simpl in Hnd, Hwf, Hinj.
    apply NoDup_cons in Hnd as [Hc Hnd].
    destruct (Hwf c) as (m & mat & Hm & Hmat & Hlt); [by left|].
    assert (Hne : ∀ c' m', c' ∈ prs.*1 → lm !! c' = Some m' → m' ≠ m).
    { intros c' m' Hc' Hm' ->. apply Hc.
      by rewrite (Hinj c c' m) by (by (left || right) || done). }
    pose proof (replaceTexture_Ok s c a m mat) as Hstep.
    rewrite Hlm in Hstep. specialize (Hstep Hm Hmat).
    set (s1 := mkState (comp s) _) in Hstep.
    assert (Hts1 : textures (world s1) =
                   alter dispose (map mat)
                     (textures (world s) ++ [mkTexture a LinearFilter true false]))
      by done.
    assert (Hms1 : materials (world s1) =
                   alter (set_map (length (textures (world s)))) m (materials (world s)))
      by done.
    assert (Hlen1 : length (textures (world s1)) = S (length (textures (world s)))).
    { rewrite Hts1, length_alter, length_app. simpl. lia. }
    assert (Hold : ∀ x tx, textures (world s) !! x = Some tx →
                     textures (world s1) !! x
                     = Some (if decide (x = map mat) then dispose tx else tx)).
    { intros x tx Hx. rewrite Hts1. case_decide as Hd.
      - subst x. rewrite list_lookup_alter_eq.
        by rewrite (lookup_app_l_Some _ _ _ _ Hx).
      - rewrite list_lookup_alter_ne by done. by apply lookup_app_l_Some. }
    assert (Hnew : textures (world s1) !! length (textures (world s))
                   = Some (mkTexture a LinearFilter true false)).
    { rewrite Hts1, list_lookup_alter_ne by lia.
      by rewrite lookup_app_r, Nat.sub_diag. }
    assert (Hmat1 : ∀ m', m' ≠ m →
                     materials (world s1) !! m' = materials (world s) !! m').
    { intros m' Hm'. rewrite Hms1. by apply list_lookup_alter_ne. }
    destruct (IH s1) as (s' & Hrun & Hcomp & Hmain & Hframe & Hmono & Hkeep).
    { done. }
    { done. }
    { intros c' Hc'. destruct (Hwf c') as (m' & mat' & Hm' & Hmat' & Hlt'); [by right|].
      exists m', mat'. split; [done|]. split.
      - rewrite Hmat1; [done|by eapply Hne].
      - lia. }
    { intros c1 c2 m' H1 H2. apply Hinj; by right. }
    exists s'. split.
    { simpl for_of. by rewrite (bind_Ok _ _ _ _ _ Hstep). }
    split; [done|].
    assert (Hunref : ∀ c' m' mat', c' ∈ prs.*1 → lm !! c' = Some m' →
                       materials (world s1) !! m' = Some mat' →
                       map mat' ≠ length (textures (world s))).
    { intros c' m' mat' Hc' Hm' Hmat'.
      destruct (Hwf c') as (m2 & mat2 & Hm2 & Hmat2 & Hlt2); [by right|].
      rewrite Hm' in Hm2. inversion Hm2; subst m2.
      rewrite Hmat1 in Hmat' by (by eapply Hne).
      rewrite Hmat' in Hmat2. inversion Hmat2; subst mat2. lia. }
    split.
    { intros i c' a' m' mat' Hi Hm' Hmat'. destruct i as [|i]; simpl in Hi.
      - inversion Hi; subst c' a'. rewrite Hm in Hm'. inversion Hm'; subst m'.
        rewrite Hmat in Hmat'. inversion Hmat'; subst mat'.
        rewrite Nat.add_0_r. split; [|split].
        + rewrite Hframe by (intros c' Hc' ?; by eapply Hne).
          rewrite Hms1, list_lookup_alter_eq, Hmat. done.
        + apply Hkeep; [done|]. intros c' m' mat'. apply Hunref.
        + intros old Hx. pose proof (Hold _ _ Hx) as H1.
          rewrite decide_True in H1 by done.
          destruct (Hmono _ _ H1) as [->| ->]; done.
      - assert (Hc' : c' ∈ prs.*1).
        { apply list_elem_of_fmap. exists (c', a'). split; [done|].
          by eapply list_elem_of_lookup_2. }
        assert (Hmat1' : materials (world s1) !! m' = Some mat').
        { rewrite Hmat1; [done|by eapply Hne]. }
        destruct (Hmain i c' a' m' mat' Hi Hm' Hmat1') as (H1 & H2 & H3).
        rewrite Hlen1 in H1, H2.
        replace (length (textures (world s)) + S i)
          with (S (length (textures (world s))) + i) by lia.
        split; [done|]. split; [done|].
        intros old Hx. pose proof (Hold _ _ Hx) as Hx1.
        apply H3 in Hx1. rewrite Hx1. by case_decide. }
    split.
    { intros m0 Hm0. rewrite Hframe by (intros c' Hc'; apply Hm0; by right).
      apply Hmat1. intros ->. by apply (Hm0 c); [left|]. }
    split.
    { intros x tx Hx. pose proof (Hold _ _ Hx) as H1.
      destruct (Hmono _ _ H1) as [->| ->]; case_decide; auto. }
    intros x tx Hx Hun. apply Hkeep.
    + rewrite (Hold _ _ Hx). rewrite decide_False; [done|].
      intros ->. apply (Hun c m mat); [by left|done|done|done].
    + intros c' m' mat' Hc' Hm' Hmat'. apply (Hun c' m' mat'); [by right|done|].
      rewrite <- Hmat1; [done|by eapply Hne].
Qed.

Lemma paired_fst (e : MutationRecord) : (paired e).*1 = removedNodes e.
Proof.
  unfold paired. apply list_eq. intros i.
  rewrite list_lookup_fmap, list_lookup_imap.
  by destruct (removedNodes e !! i).
Qed.

Lemma paired_lookup (e : MutationRecord) (i : nat) (c : Node) :
  removedNodes e !! i = Some c → paired e !! i = Some (c, addedNodes e !! i).
Proof. intros H. unfold paired. by rewrite list_lookup_imap, H. Qed.

(** C6, as amended.  For the first record of a delivered batch, when every
    removed canvas is a key of the layer map: the handler pairs each removed
    canvas with the added node at the same index, disposes the texture of the
    material mapped to the removed canvas and sets the map of that material to
    a new texture of the added node; the materials of the other layers are
    unchanged, and so are the fields of the component. *)
Theorem first_record_retextures_its_layers
    (s : State) (e : MutationRecord) (rest : list MutationRecord) :
  replaceable s e →
  ∃ s',
    _onCanvasReplacement (e :: rest) s = Ok tt s' ∧
    comp s' = comp s ∧
    (∀ i, retextured s s' e i) ∧
    (∀ m, untouched s e m → materials (world s') !! m = materials (world s) !! m).
Proof.
  intros (Hnd & Hwf & Hinj).
  destruct (replace_loop (_xTermLayerMap (comp s)) (paired e) s)
    as (s' & Hrun & Hcomp & Hmain & Hframe & _ & _).
  { done. }
  { by rewrite paired_fst. }
  { rewrite paired_fst. exact Hwf. }
  { rewrite paired_fst. exact Hinj. }
  exists s'. split; [exact Hrun|]. split; [done|]. split.
  - intros i c m mat Hi Hm Hmat.
    destruct (Hmain i c (addedNodes e !! i) m mat (paired_lookup e i c Hi) Hm Hmat)
      as (H1 & H2 & H3).
    destruct (Hwf c) as (m' & mat' & Hm' & Hmat' & Hlt).
    { by eapply list_elem_of_lookup_2. }
    rewrite Hm in Hm'. inversion Hm'; subst m'.
    rewrite Hmat in Hmat'. inversion Hmat'; subst mat'.
    destruct (lookup_lt_is_Some_2 _ _ Hlt) as [old Hold].
    exists (length (textures (world s)) + i), old.
    split; [done|]. split; [apply lookup_ge_None; lia|].
    split; [done|]. split; [done|]. by apply H3.
  - intros m Hm. apply Hframe. rewrite paired_fst. exact Hm.
Qed.

(** *** The render loop *)

Lemma getFullscreenMaterial_Ok (s : State) (p : PassRef) (o : Pass) (m : ShaderMaterial) :
  passObjs (world s) !! p = Some o → fullscreenMaterial o = Some m →
  getFullscreenMaterial p s = Ok m s.
Proof.
  intros Ho Hm. unfold getFullscreenMaterial, bind, host_get, gets, deref, ret.
  by rewrite Ho, Hm.
Qed.

Lemma time_passes_Ok (sp : list PassRef) (s : State) :
  (∀ p, p ∈ sp → ∃ o m, passObjs (world s) !! p = Some o ∧ fullscreenMaterial o = Some m) →
  ∃ tp, time_passes sp s = Ok tp s.
Proof.
  induction sp as [|p sp IH]; intros H; [by exists []|].
  destruct (H p) as (o & m & Ho & Hm); [by left|].
  destruct IH as [tp Htp]; [intros q Hq; apply H; by right|].
  simpl. rewrite (bind_Ok _ _ _ _ _ (getFullscreenMaterial_Ok s p o m Ho Hm)).
  rewrite (bind_Ok _ _ _ _ _ Htp). by eexists.
Qed.

(** [xTermMaterials[i].map.needsUpdate = true] changes textures only. *)
Lemma mark_materials (mats : list MatRef) :
  ∀ s : State,
    (∀ m, m ∈ mats → is_Some (materials (world s) !! m)) →
    ∃ ts, for_of mats (fun m =>
            mo <- host_get (fun w => materials w !! m) ;;
            mat <- deref "material" mo ;;
            update_texture (map mat) (set_needsUpdate true)) s
          = Ok tt (mkState (comp s) (set_textures ts (world s))).
Proof.
  induction mats as [|m mats IH]; intros s H.
  - exists (textures (world s)). simpl. unfold ret. by destruct s as [? []].
  - destruct (H m) as [mat Hmat]; [by left|].
    simpl for_of. unfold bind at 1.
    unfold bind at 1. unfold host_get at 1, gets at 1. rewrite Hmat.
    unfold bind at 1. unfold deref at 1, ret at 1.
    unfold update_texture at 1, host_set at 1, modify at 1.
    edestruct (IH (mkState (comp s)
                     (set_textures (alter (set_needsUpdate true) (map mat)
                                      (textures (world s))) (world s)))) as [ts Hts].
    { intros m' Hm'. simpl. apply H. by right. }
    rewrite Hts. exists ts. simpl. by destruct s as [? []].
Qed.

Lemma same_pass_refl (o : Pass) : same_pass o o.
Proof. done. Qed.

Lemma same_pass_trans (o1 o2 o3 : Pass) :
  same_pass o1 o2 → same_pass o2 o3 → same_pass o1 o3.
Proof.
  intros (? & ? & ? & ?) (? & ? & ? & ?). repeat split; try congruence. auto.
Qed.

Lemma same_pass_set_separation (v : Q) (o : Pass) :
  same_pass o (Passes.set_separation v o).
Proof.
  unfold same_pass, Passes.set_separation.
  destruct (effects o) as [|e es] eqn:He; [done|]. simpl.
  repeat split; try done. intros _.
  unfold Passes.separation_of. simpl. rewrite lookup_insert_eq. by eexists.
Qed.

Lemma same_passes_refl (l : list Pass) : Forall2 same_pass l l.
Proof. apply Forall2_same_length_lookup. split; [done|]. intros i x y -> [= ->]. done. Qed.

Lemma same_passes_trans (l1 l2 l3 : list Pass) :
  Forall2 same_pass l1 l2 → Forall2 same_pass l2 l3 → Forall2 same_pass l1 l3.
Proof.
  intros H1 H2. apply Forall2_same_length_lookup. split.
  - by rewrite (Forall2_length _ _ _ H1), (Forall2_length _ _ _ H2).
  - intros i x z Hx Hz.
    destruct (Forall2_lookup_l _ _ _ _ _ H1 Hx) as (y & Hy & Hxy).
    destruct (Forall2_lookup_l _ _ _ _ _ H2 Hy) as (z' & Hz' & Hyz).
    rewrite Hz in Hz'. inversion Hz'; subst. by eapply same_pass_trans.
Qed.

Lemma pass_render_Ok (s : State) (p : PassRef) :
  (∀ o, passObjs (world s) !! p = Some o → pclass o = CustomEffectPass →
        is_Some (Passes.separation_of o)) →
  ∃ objs d,
    pass_render p s = Ok tt (mkState (comp s) (set_passObjs objs (set_drawn d (world s)))) ∧
    Forall2 same_pass (passObjs (world s)) objs.
Proof.
  intros H. unfold pass_render, bind, host_get, gets.
  destruct (passObjs (world s) !! p) as [o|] eqn:Ho.
  - destruct (pclass o) eqn:Hc;
      try (exists (passObjs (world s)), (drawn (world s)); split;
           [unfold ret; by destruct s as [? []] | apply same_passes_refl]).
    destruct (H o eq_refl Hc) as [v Hv].
    unfold liftW. rewrite (render_step (world s) p o v Ho Hv).
    eexists _, _. split.
    { by destruct s as [? []]. }
    rewrite <- (list_insert_id _ _ _ Ho) at 1.
    apply Forall2_insert; [apply same_passes_refl|apply same_pass_set_separation].
  - exists (passObjs (world s)), (drawn (world s)). split.
    + unfold ret. by destruct s as [? []].
    + apply same_passes_refl.
Qed.

Lemma render_passes (ps : list PassRef) :
  ∀ s : State,
    (∀ p o, p ∈ ps → passObjs (world s) !! p = Some o → pclass o = CustomEffectPass →
            is_Some (Passes.separation_of o)) →
    ∃ objs d,
      for_of ps pass_render s
      = Ok tt (mkState (comp s) (set_passObjs objs (set_drawn d (world s)))) ∧
      Forall2 same_pass (passObjs (world s)) objs.
Proof.
  induction ps as [|p ps IH]; intros s H.
  - exists (passObjs (world s)), (drawn (world s)). split.
    + simpl. unfold ret. by destruct s as [? []].
    + apply same_passes_refl.
  - destruct (pass_render_Ok s p) as (objs1 & d1 & Hr1 & Hs1).
    { intros o. apply H. by left. }
    destruct (IH (mkState (comp s) (set_passObjs objs1 (set_drawn d1 (world s)))))
      as (objs2 & d2 & Hr2 & Hs2).
    { intros q o' Hq Ho' Hc'. simpl in Ho'.
      destruct (Forall2_lookup_r _ _ _ _ _ Hs1 Ho') as (o & Ho & (Hcl & _ & _ & Hsep)).
      apply Hsep. apply (H q o); [by right|done|congruence]. }
    exists objs2, d2. split.
    + simpl for_of. rewrite (bind_Ok _ _ _ _ _ Hr1). rewrite Hr2.
      simpl. by destruct s as [? []].
    + simpl in Hs2. by eapply same_passes_trans.
Qed.

(** The frame the loop requests when it is started. *)
Lemma render_frame_Ok (s : State) (mats : list MatRef) (n : nat) :
  Initialized s →
  (∀ m, m ∈ mats → is_Some (materials (world s) !! m)) →
  ∃ ts objs d,
    render_frame mats n s =
      Ok tt (mkState
               (set_animationId (Some (nextFrame (world s))) (comp s))
               (set_passObjs objs
                  (set_drawn d
                     (set_textures ts
                        (set_nextFrame (S (nextFrame (world s)))
                           (set_pending
                              (pending (world s) ++ [mkFrame (nextFrame (world s)) mats n])
                              (world s))))))) ∧
    Forall2 same_pass (passObjs (world s)) objs.
Proof.
  intros (Hinit & (composer & Hco & Hsep) & [clock Hcl] & Hsp & Hlm) Hmats.
  unfold render_frame.
  unfold bind at 1. unfold requestAnimationFrame at 1.
  unfold bind at 1. unfold assign at 1, modify at 1. cbn [comp world].
  set (s1 := mkState _ _).
  assert (Hclock : (match n with
                    | O => ret tt
                    | S _ => c <- this _clock ;; _ <- deref "that._clock" c ;; ret tt
                    end) s1 = Ok tt s1).
  { destruct n; [done|]. unfold bind, this, gets, deref, ret. simpl. by rewrite Hcl. }
  rewrite (bind_Ok _ _ _ _ _ Hclock).
  destruct (mark_materials mats s1) as [ts Hts]; [done|].
  rewrite (bind_Ok _ _ _ _ _ Hts).
  unfold bind at 1. unfold this at 1, gets at 1. cbn [comp world].
  replace (_composer (comp s1)) with (Some composer) by (by rewrite <- Hco).
  unfold bind at 1. unfold deref at 1, ret at 1.
  unfold bind at 1. unfold this at 1, gets at 1. cbn [comp world].
  replace (_clock (comp s1)) with (Some clock) by (by rewrite <- Hcl).
  unfold bind at 1. unfold deref at 1, ret at 1.
  edestruct (render_passes (composerPasses composer)) as (objs & d & Hr & Hsame);
    [|rewrite Hr].
  { intros p o Hp Ho Hc. simpl in Ho. by eapply Hsep. }
  exists ts, objs, d. split; [|exact Hsame].
  subst s1. simpl. destruct s as [co w]; destruct co, w; reflexivity.
Qed.

Lemma Initialized_after_frame (s : State) (id : option nat) (objs : list Pass) (d : nat)
    (ts : list Texture) (nf : nat) (fs : list Frame) :
  Initialized s →
  Forall2 same_pass (passObjs (world s)) objs →
  Initialized
    (mkState (set_animationId id (comp s))
       (set_passObjs objs
          (set_drawn d (set_textures ts (set_nextFrame nf (set_pending fs (world s))))))).
Proof.
  intros (Hinit & (composer & Hco & Hsep) & Hcl & Hsp & Hlm) Hsame.
  split; [done|]. split.
  { exists composer. split; [done|]. intros p o' Hp Ho' Hc. simpl in Ho'.
    destruct (Forall2_lookup_r _ _ _ _ _ Hsame Ho') as (o & Ho & (Hcl' & _ & _ & Hs)).
    apply Hs. apply (Hsep p o); [done|done|congruence]. }
  split; [done|]. split.
  { intros p Hp. destruct (Hsp p Hp) as (o & m & Ho & Hm).
    destruct (Forall2_lookup_l _ _ _ _ _ Hsame Ho) as (o' & Ho' & (_ & Hfm & _ & _)).
    exists o', m. split; [done|congruence]. }
  exact Hlm.
Qed.

Lemma startAnimationLoop_Ok (s : State) :
  Initialized s →
  ∃ s' frame,
    _startAnimationLoop s = Ok tt s' ∧
    Initialized s' ∧
    fid frame = nextFrame (world s) ∧
    _animationId (comp s') = Some (fid frame) ∧
    pending (world s') = pending (world s) ++ [frame] ∧
    nextFrame (world s') = S (nextFrame (world s)) ∧
    set_animationId (_animationId (comp s)) (comp s') = comp s ∧
    materials (world s') = materials (world s) ∧
    resizeListeners (world s') = resizeListeners (world s) ∧
    Forall2 same_pass (passObjs (world s)) (passObjs (world s')).
Proof.
  intros Hs. pose proof Hs as (Hinit & _ & _ & Hsp & Hlm).
  destruct (time_passes_Ok (_shaderPasses (comp s)) s Hsp) as [tp Htp].
  destruct (render_frame_Ok s (map_to_list (_xTermLayerMap (comp s))).*2 (length tp) Hs)
    as (ts & objs & d & Hr & Hsame).
  { intros m Hm. apply list_elem_of_fmap in Hm as ([c m'] & -> & Hcm).
    apply elem_of_map_to_list in Hcm. by eapply Hlm. }
  eexists _, (mkFrame (nextFrame (world s)) _ _). split.
  { unfold _startAnimationLoop, bind, this, gets. rewrite Htp. exact Hr. }
  split; [by apply Initialized_after_frame|].
  simpl. repeat (split; [done|]). split; [|done].
  by destruct s as [[] ?].
Qed.




Lemma layer_map_range (cs : list Canvas) :
  ∀ (m0 : nat) (lm : gmap Canvas MatRef) (c : Canvas) (m : MatRef),
    layer_map m0 cs lm !! c = Some m →
    lm !! c = Some m ∨ m0 ≤ m < m0 + length cs.
Proof.
  induction cs as [|c' cs IH]; intros m0 lm c m H; [by left|].
  simpl in H. apply IH in H as [H|H]; [|right; simpl; lia].
  destruct (decide (c' = c)) as [->|Hne].
  - rewrite lookup_insert_eq in H. inversion H; subst. right. simpl. lia.
  - rewrite lookup_insert_ne in H by done. by left.
Qed.

Lemma init_Initialized (s : State) (t : Term) (scr : Node) (size : Q * Q) :
  fault_free (host (world s)) →
  _term (comp s) = Some t →
  screenOf (world s) !! termRef t = Some scr →
  bounds (world s) !! term t = Some size →
  (∀ c m, _xTermLayerMap (comp s) !! c = Some m → is_Some (materials (world s) !! m)) →
  ∃ s', _init s = Ok tt s' ∧ Initialized s'.
Proof.
  intros Hf Ht Hscr Hb Hlm.
  rewrite (init_Ok s t scr size Hf Ht Hscr Hb).
  eexists. split; [reflexivity|].
  set (cs := default [] (canvasesOf (world s) !! scr)).
  split; [done|]. split.
  { eexists. split; [reflexivity|]. cbn [composerPasses world init_world passObjs].
    intros p o Hp Ho Hc.
    assert (Hcases : p = S (S (length (passObjs (world s)))) ∨
                     p = length (passObjs (world s)) ∨
                     p = S (length (passObjs (world s)))).
    { apply elem_of_cons in Hp as [->|Hp]; [by left|].
      apply elem_of_cons in Hp as [->|Hp]; [by right; left|].
      apply elem_of_cons in Hp as [->|Hp]; [by right; right|].
      by apply elem_of_nil in Hp. }
    destruct Hcases as [->|[->| ->]].
    - rewrite lookup_app_r in Ho by lia.
      replace (S (S _) - _) with 2 in Ho by lia. simpl in Ho. by inversion Ho; subst.
    - rewrite lookup_app_r, Nat.sub_diag in Ho by lia. simpl in Ho.
      inversion Ho; subst. by eexists.
    - rewrite lookup_app_r in Ho by lia.
      replace (S _ - _) with 1 in Ho by lia. simpl in Ho. by inversion Ho; subst. }
  split; [by eexists|]. split.
  { intros p Hp. simpl in Hp. by apply elem_of_nil in Hp. }
  cbn [comp world init_comp init_world _xTermLayerMap materials].
  intros c m Hc. apply lookup_lt_is_Some_2. rewrite length_app.
  unfold layer_materials. rewrite length_imap.
  apply layer_map_range in Hc as [Hc|Hc]; [|lia].
  apply Hlm in Hc. apply lookup_lt_is_Some_1 in Hc. lia.
Qed.

(** *** Resizing *)

Lemma alter_fixed {A} (f : A → A) (h : list A) (i : nat) (x : A) :
  h !! i = Some x → f x = x → alter f i h = h.
Proof.
  intros Hx Hf. apply list_eq. intros j. destruct (decide (i = j)) as [<-|Hne].
  - by rewrite list_lookup_alter_eq, Hx; simpl; rewrite Hf.
  - by rewrite list_lookup_alter_ne.
Qed.

Lemma with_uniform_idemp (key : string) (value : UVal) (o : Pass) :
  with_uniform key value (with_uniform key value o) = with_uniform key value o.
Proof.
  unfold with_uniform. destruct (fullscreenMaterial o) as [m|] eqn:Hm; [|by rewrite Hm].
  destruct (muniforms m !! key) eqn:Hk; [|by rewrite Hm, Hk].
  simpl. rewrite lookup_insert_eq. unfold set_fullscreenMaterial. simpl.
  by rewrite insert_insert_eq.
Qed.

Lemma with_uniform_material (key : string) (value : UVal) (o : Pass) :
  is_Some (fullscreenMaterial o) → is_Some (fullscreenMaterial (with_uniform key value o)).
Proof.
  intros [m Hm]. unfold with_uniform. rewrite Hm.
  destruct (muniforms m !! key); [by eexists|by rewrite Hm].
Qed.

Lemma set_uniform_Ok (key : string) (value : UVal) (p : PassRef) (s : State)
    (o : Pass) (m : ShaderMaterial) :
  passObjs (world s) !! p = Some o → fullscreenMaterial o = Some m →
  set_uniform key value p s =
    Ok tt (mkState (comp s)
             (set_passObjs (alter (with_uniform key value) p (passObjs (world s)))
                (world s))).
Proof.
  intros Ho Hm. unfold set_uniform.
  rewrite (bind_Ok _ _ _ _ _ (getFullscreenMaterial_Ok s p o m Ho Hm)).
  destruct (muniforms m !! key) as [v|] eqn:Hk.
  - unfold host_set, modify. do 3 f_equal.
    apply list_eq. intros j. destruct (decide (p = j)) as [<-|Hne].
    + rewrite !list_lookup_alter_eq, Ho. simpl. unfold with_uniform. by rewrite Hm, Hk.
    + by rewrite !list_lookup_alter_ne.
  - rewrite (alter_fixed _ _ _ o Ho).
    + unfold ret. by destruct s as [? []].
    + unfold with_uniform. by rewrite Hm, Hk.
Qed.

(** The pass objects after a uniform has been set on the passes [sp]. *)
Lemma set_uniform_all (key : string) (value : UVal) (sp : list PassRef) :
  ∀ s : State,
    (∀ p, p ∈ sp → ∃ o m, passObjs (world s) !! p = Some o ∧ fullscreenMaterial o = Some m) →
    ∃ objs,
      for_of sp (set_uniform key value) s
      = Ok tt (mkState (comp s) (set_passObjs objs (world s))) ∧
      ∀ p, objs !! p = if decide (p ∈ sp)
                       then with_uniform key value <$> passObjs (world s) !! p
                       else passObjs (world s) !! p.
Proof.
  induction sp as [|q sp IH]; intros s H.
  - exists (passObjs (world s)). split.
    + simpl. unfold ret. by destruct s as [? []].
    + intros p. rewrite decide_False; [done|by apply not_elem_of_nil].
  - destruct (H q) as (o & m & Ho & Hm); [by left|].
    pose proof (set_uniform_Ok key value q s o m Ho Hm) as Hstep.
    set (s1 := mkState _ _) in Hstep.
    destruct (IH s1) as (objs & Hrun & Hobjs).
    { intros p Hp. destruct (H p) as (o' & m' & Ho' & Hm'); [by right|].
      simpl. destruct (decide (q = p)) as [<-|Hne].
      - rewrite list_lookup_alter_eq, Ho. simpl.
        destruct (with_uniform_material key value o) as [m2 Hm2]; [by eexists|].
        by eexists _, _.
      - rewrite list_lookup_alter_ne by done. by eexists _, _. }
    exists objs. split.
    { simpl for_of. rewrite (bind_Ok _ _ _ _ _ Hstep), Hrun.
      subst s1. simpl. by destruct s as [? []]. }
    intros p. rewrite Hobjs. subst s1. simpl.
    destruct (decide (q = p)) as [<-|Hne].
    + rewrite list_lookup_alter_eq, Ho. simpl.
      rewrite (decide_True (P := q ∈ q :: sp)) by (by left).
      case_decide; [by rewrite with_uniform_idemp|done].
    + rewrite list_lookup_alter_ne by done.
      case_decide as Hd.
      * rewrite decide_True; [done|by right].
      * rewrite decide_False; [done|]. by intros [?|?]%elem_of_cons.
Qed.



(** ** The concrete terminal *)

(** A conjunction of closed equations, each settled by evaluation. *)
Ltac by_running := repeat (apply conj; [vm_compute; reflexivity|]); vm_compute; reflexivity.

Lemma demo_fault_free : fault_free (host (world demo_decorated)).
Proof. intros c. reflexivity. Qed.

Lemma demo_term_set : _term (comp demo_decorated) = Some demo_term.
Proof. reflexivity. Qed.

Lemma demo_screen : screenOf (world demo_decorated) !! termRef demo_term = Some 11.
Proof. vm_compute. reflexivity. Qed.

Lemma demo_bounds :
  bounds (world demo_decorated) !! term demo_term = Some (800%Q, 600%Q).
Proof. vm_compute. reflexivity. Qed.

Lemma demo_canvases :
  default [] (canvasesOf (world demo_decorated) !! 11) = [20; 21].
Proof. vm_compute. reflexivity. Qed.

Lemma demo_no_layers (c m : nat) :
  _xTermLayerMap (comp demo_decorated) !! c = Some m →
  is_Some (materials (world demo_decorated) !! m).
Proof.
  change (_xTermLayerMap (comp demo_decorated)) with (∅ : gmap nat nat).
  by rewrite lookup_empty.
Qed.

Lemma demo_init : _init demo_decorated = Ok tt demo_ready.
Proof. vm_compute. reflexivity. Qed.

Lemma demo_ready_Initialized : Initialized demo_ready.
Proof.
  destruct (init_Initialized demo_decorated demo_term 11 (800%Q, 600%Q)
              demo_fault_free demo_term_set demo_screen demo_bounds demo_no_layers)
    as (s' & Hrun & Hs').
  unfold demo_ready. rewrite Hrun. exact Hs'.
Qed.



Lemma with_shader_pass_Initialized (o : Pass) (s : State) :
  Initialized s → is_Some (fullscreenMaterial o) → pclass o ≠ CustomEffectPass →
  Initialized (with_shader_pass o s).
Proof.
  intros (H1 & (composer & Hco & Hsep) & H3 & H4 & H5) [m Hm] Hcl.
  split; [done|]. split.
  { exists composer. split; [done|]. intros p o' Hp Ho' Hc. simpl in Ho'.
    apply lookup_app_Some in Ho' as [Ho'|[_ Ho']]; [by eapply Hsep|].
    apply list_lookup_singleton_Some in Ho' as [_ <-]. done. }
  split; [done|]. split.
  { intros p Hp. simpl in Hp. apply elem_of_app in Hp as [Hp|Hp].
    - destruct (H4 p Hp) as (o' & m' & Ho' & Hm'). exists o', m'. split; [|done].
      simpl. by apply lookup_app_l_Some.
    - apply list_elem_of_singleton in Hp as ->. exists o, m. split; [|done].
      simpl. by rewrite lookup_app_r, Nat.sub_diag. }
  exact H5.
Qed.

Lemma demo_shader_pass_material : is_Some (fullscreenMaterial demo_shader_pass).
Proof. unfold demo_shader_pass. simpl. by eexists. Qed.

Lemma demo_shader_pass_class : pclass demo_shader_pass ≠ CustomEffectPass.
Proof. unfold demo_shader_pass. simpl. discriminate. Qed.

Lemma demo_shader_Initialized : Initialized demo_shader.
Proof.
  exact (with_shader_pass_Initialized demo_shader_pass demo_ready
           demo_ready_Initialized demo_shader_pass_material demo_shader_pass_class).
Qed.

(** *** What the concrete runs give *)

Lemma demo_made_eq : Passes.createPasses demo_world = Ok (Some [0; 1]) demo_made.
Proof. vm_compute. reflexivity. Qed.

Lemma demo_no_throw : ∀ e w', Passes.construct demo_world ≠ Throw e w'.
Proof. apply construct_fault_free. intros c. reflexivity. Qed.

Lemma failing_thrown_eq :
  Passes.construct (world failing_start) = Throw (LibError CEffectPass 1) failing_thrown.
Proof. vm_compute. reflexivity. Qed.

Lemma demo_replaced_eq : deliver_mutations demo_batch demo_ready = Ok tt demo_replaced.
Proof. vm_compute. reflexivity. Qed.

Lemma demo_layer_21 : _xTermLayerMap (comp demo_ready) !! 21 = Some 1.
Proof. vm_compute. reflexivity. Qed.

Lemma demo_layer_20 : _xTermLayerMap (comp demo_ready) !! 20 = Some 0.
Proof. vm_compute. reflexivity. Qed.

Lemma demo_material_0 : materials (world demo_ready) !! 0 = Some (layer_material 0).
Proof. vm_compute. reflexivity. Qed.

Lemma demo_material_1 : materials (world demo_ready) !! 1 = Some (layer_material 1).
Proof. vm_compute. reflexivity. Qed.

Lemma demo_textures_length : length (textures (world demo_ready)) = 2.
Proof. vm_compute. reflexivity. Qed.

Lemma demo_replaced_material_1 :
  materials (world demo_replaced) !! 1 = Some (layer_material 1).
Proof. vm_compute. reflexivity. Qed.

Lemma demo_texture_1 : textures (world demo_ready) !! 1 = Some (layer_texture 21).
Proof. vm_compute. reflexivity. Qed.

(** C6: the counterexample.  The second record of a batch is not applied:
    the material of canvas 21 keeps its texture. *)
Lemma later_records_are_not_applied :
  ¬ (∀ s', deliver_mutations demo_batch demo_ready = Ok tt s' →
           ∀ e i, e ∈ demo_batch → retextured demo_ready s' e i).
Proof.
  intros H.
  specialize (H demo_replaced demo_replaced_eq (mkRecord [21] [31]) 0).
  assert (Hin : mkRecord [21] [31] ∈ demo_batch) by (right; left).
  specialize (H Hin 21 1 (layer_material 1) eq_refl demo_layer_21 demo_material_1).
  destruct H as (new & old & H1 & H2 & _).
  rewrite demo_replaced_material_1 in H1.
  assert (Hnew : new = 1) by (injection H1; auto).
  subst new. rewrite demo_texture_1 in H2. discriminate H2.
Qed.

(** What the code does when a canvas is replaced for the second time: the
    layer map still has the canvas of the first replacement as its key. *)
Example second_replacement_throws :
  ∃ s1 s2,
    deliver_mutations [mkRecord [20] [30]] demo_ready = Ok tt s1 ∧
    deliver_mutations [mkRecord [30] [40]] s1 = Throw (TypeError "affectedMaterial") s2.
Proof. eexists _, _. by_running. Qed.

(** ** Witnesses: the theorems at the concrete terminal *)

(** C8 on the concrete terminal. *)
Lemma decorateConfig_overrides_colors_witness :
  [demo_config] !! 0 = Some demo_config ∧
  ∃ r h' o',
    Theme.decorateConfig 0 [demo_config] = (r, h') ∧
    r ≠ 0 ∧ [demo_config] !! r = None ∧ h' !! r = Some o' ∧
    (∀ k, Theme.themed k = false → o' !! k = demo_config !! k) ∧
    o' !! "foregroundColor" = Some (Theme.VStr Theme.BRIGHT_GREEN) ∧
    o' !! "backgroundColor" = Some (Theme.VStr Theme.DARK_GREEN) ∧
    o' !! "borderColor" = Some (Theme.VStr Theme.BRIGHT_GREEN) ∧
    o' !! "cursorColor" = Some (Theme.VStr "#40FFFF") ∧
    (∀ l x, [demo_config] !! l = Some x → h' !! l = Some x).
Proof.
  split; [reflexivity|].
  apply (decorateConfig_overrides_colors [demo_config] 0 demo_config). reflexivity.
Defined.

(** C2 on the concrete terminal. *)
Lemma createPasses_two_effect_passes_witness :
  (∀ e w', Passes.construct demo_world ≠ Throw e w') ∧
  ∃ p1 p2 w' crt curved e1 e2,
    Passes.createPasses demo_world = Ok (Some [p1; p2]) w' ∧
    p1 ≠ p2 ∧ passObjs demo_world !! p1 = None ∧ passObjs demo_world !! p2 = None ∧
    passObjs w' !! p1 = Some crt ∧ passObjs w' !! p2 = Some curved ∧
    instanceof_EffectPass (pclass crt) = true ∧
    instanceof_EffectPass (pclass curved) = true ∧
    pclass crt = CustomEffectPass ∧ pclass curved = EffectPass ∧
    effects crt = [e1] ∧ effects curved = [e2] ∧
    ename e1 = "crtEffect" ∧ fragment e1 = crtFragmentShader ∧
    uniforms e1 !! "separation" = Some (1 # 2)%Q ∧
    ename e2 = "curvedFragmentEffect" ∧ fragment e2 = curvedFragmentShader ∧
    (∀ p o, passObjs demo_world !! p = Some o → passObjs w' !! p = Some o).
Proof.
  split; [exact demo_no_throw|].
  apply (createPasses_two_effect_passes demo_world). exact demo_no_throw.
Defined.

(** C9 on the concrete terminal. *)
Lemma separation_stays_in_unit_interval_witness :
  Passes.createPasses demo_world = Ok (Some [0; 1]) demo_made ∧
  ∃ w2 v, renders 5 0 demo_made = Ok tt w2 ∧ separation_at w2 0 = Some v ∧
          (0 <= v <= 1)%Q.
Proof.
  split; [exact demo_made_eq|].
  apply (separation_stays_in_unit_interval demo_world demo_made 0 [1] 5).
  exact demo_made_eq.
Defined.

(** C5 on the concrete terminal. *)
Lemma init_atomic_when_construction_throws_witness :
  Passes.construct (world failing_start) = Throw (LibError CEffectPass 1) failing_thrown ∧
  ∃ s' garbage,
    _init failing_start = Ok tt s' ∧
    comp s' = comp failing_start ∧
    world s' = set_console (console (world failing_start) ++
                            [Log "start init"; LogErr (LibError CEffectPass 1);
                             Log "made passes"])
                 (set_passObjs (passObjs (world failing_start) ++ garbage)
                    (world failing_start)) ∧
    _isInit (comp s') = _isInit (comp failing_start) ∧
    _scene (comp s') = _scene (comp failing_start) ∧
    _renderer (comp s') = _renderer (comp failing_start) ∧
    _layerObserver (comp s') = _layerObserver (comp failing_start) ∧
    _canvas (comp s') = _canvas (comp failing_start) ∧
    created (world s') = created (world failing_start) ∧
    appended (world s') = appended (world failing_start) ∧
    observers (world s') = observers (world failing_start) ∧
    resizeListeners (world s') = resizeListeners (world failing_start) ∧
    pending (world s') = pending (world failing_start).
Proof.
  split; [exact failing_thrown_eq|].
  apply (init_atomic_when_construction_throws failing_start
           (LibError CEffectPass 1) failing_thrown).
  exact failing_thrown_eq.
Defined.

Lemma demo_ready_isInit : _isInit (comp demo_ready) = true.
Proof. vm_compute. reflexivity. Qed.

(** C10 on the concrete terminal. *)
Lemma onDecorated_initializes_once_witness :
  (Some demo_term = None ∨ _isInit (comp demo_ready) = true) ∧
  _onDecorated (Some demo_term) demo_ready =
    Ok tt (mkState (comp demo_ready)
             (if onDecorated (props (comp demo_ready))
              then set_chained (chained (world demo_ready) ++ [Some demo_term])
                     (world demo_ready)
              else world demo_ready)).
Proof.
  split; [right; exact demo_ready_isInit|].
  apply (onDecorated_initializes_once demo_ready (Some demo_term)).
  right. exact demo_ready_isInit.
Defined.

(** C1 on the concrete terminal. *)
Lemma init_pass_chain_witness :
  fault_free (host (world demo_decorated)) ∧
  _term (comp demo_decorated) = Some demo_term ∧
  screenOf (world demo_decorated) !! termRef demo_term = Some 11 ∧
  bounds (world demo_decorated) !! term demo_term = Some (800%Q, 600%Q) ∧
  ∃ s' ps w1 rp composer,
    Passes.createPasses
      (set_console (console (world demo_decorated) ++ [Log "start init"])
         (world demo_decorated)) = Ok (Some ps) w1 ∧
    ps ≠ [] ∧
    _init demo_decorated = Ok tt s' ∧
    _isInit (comp s') = true ∧
    _composer (comp s') = Some composer ∧
    composerPasses composer = rp :: ps ∧
    passes (comp s') = rp :: ps ∧
    passObjs (world demo_decorated) !! rp = None ∧
    (∃ o, passObjs (world s') !! rp = Some o ∧ pclass o = RenderPass) ∧
    (∀ i p, (rp :: ps) !! i = Some p →
       ∃ o, passObjs (world s') !! p = Some o ∧
            (renderToScreen o = true ↔ i = length ps)).
Proof.
  split; [exact demo_fault_free|]. split; [exact demo_term_set|].
  split; [exact demo_screen|]. split; [exact demo_bounds|].
  exact (init_pass_chain demo_decorated demo_term 11 (800%Q, 600%Q)
           demo_fault_free demo_term_set demo_screen demo_bounds).
Defined.

Lemma demo_canvases_NoDup : NoDup [20; 21].
Proof.
  apply NoDup_cons. split.
  - intros H. apply list_elem_of_singleton in H. discriminate H.
  - apply NoDup_singleton.
Qed.

(** C3 on the concrete terminal. *)
Lemma init_one_mesh_per_canvas_witness :
  fault_free (host (world demo_decorated)) ∧
  _term (comp demo_decorated) = Some demo_term ∧
  screenOf (world demo_decorated) !! termRef demo_term = Some 11 ∧
  bounds (world demo_decorated) !! term demo_term = Some (800%Q, 600%Q) ∧
  default [] (canvasesOf (world demo_decorated) !! 11) = [20; 21] ∧
  NoDup [20; 21] ∧
  ∃ s' scene,
    _init demo_decorated = Ok tt s' ∧
    _scene (comp s') = Some scene ∧
    length (children scene) = length [20; 21] ∧
    (∀ i c, [20; 21] !! i = Some c →
       ∃ mesh mat tex,
         children scene !! i = Some mesh ∧
         geometry mesh = (800%Q, 600%Q) ∧
         materials (world demo_decorated) !! material mesh = None ∧
         materials (world s') !! material mesh = Some mat ∧
         textures (world demo_decorated) !! map mat = None ∧
         textures (world s') !! map mat = Some tex ∧
         image tex = Some c ∧
         minFilter tex = LinearFilter ∧
         _xTermLayerMap (comp s') !! c = Some (material mesh)).
Proof.
  split; [exact demo_fault_free|]. split; [exact demo_term_set|].
  split; [exact demo_screen|]. split; [exact demo_bounds|].
  split; [exact demo_canvases|]. split; [exact demo_canvases_NoDup|].
  exact (init_one_mesh_per_canvas demo_decorated demo_term 11 (800%Q, 600%Q) [20; 21]
           demo_fault_free demo_term_set demo_screen demo_bounds demo_canvases
           demo_canvases_NoDup).
Defined.


Lemma demo_replaceable : replaceable demo_ready (mkRecord [20] [30]).
Proof.
  split; [apply NoDup_singleton|]. split.
  - intros c Hc. apply list_elem_of_singleton in Hc. subst c.
    exists 0, (layer_material 0).
    split; [exact demo_layer_20|]. split; [exact demo_material_0|].
    rewrite demo_textures_length. simpl. lia.
  - intros c1 c2 m H1 H2 _ _.
    apply list_elem_of_singleton in H1. apply list_elem_of_singleton in H2. congruence.
Qed.

(** C6, as amended, on the concrete terminal. *)
Lemma first_record_retextures_its_layers_witness :
  replaceable demo_ready (mkRecord [20] [30]) ∧
  ∃ s',
    _onCanvasReplacement (mkRecord [20] [30] :: [mkRecord [21] [31]]) demo_ready
      = Ok tt s' ∧
    comp s' = comp demo_ready ∧
    (∀ i, retextured demo_ready s' (mkRecord [20] [30]) i) ∧
    (∀ m, untouched demo_ready (mkRecord [20] [30]) m →
          materials (world s') !! m = materials (world demo_ready) !! m).
Proof.
  split; [exact demo_replaceable|].
  exact (first_record_retextures_its_layers demo_ready (mkRecord [20] [30])
           [mkRecord [21] [31]] demo_replaceable).
Defined.

Lemma Initialized_host_resizes (t : XTerm) (size : Q * Q) (s : State) :
  Initialized s → Initialized (mkState (comp s) (host_resizes t size (world s))).
Proof. intros (H1 & H2 & H3 & H4 & H5). repeat split; done. Qed.

Lemma demo_resized_Initialized : Initialized demo_resized.
Proof. exact (Initialized_host_resizes 5 _ demo_shader demo_shader_Initialized). Qed.

Lemma demo_resized_term : _term (comp demo_resized) = Some demo_term.
Proof. vm_compute. reflexivity. Qed.

Lemma demo_resized_bounds :
  bounds (world demo_resized) !! term demo_term = Some (1024%Q, 768%Q).
Proof. vm_compute. reflexivity. Qed.


(** On the concrete terminal the shader pass declares [aspect] and not
    [resolution]: the first is set, the second stays undeclared. *)
Example demo_resize_run :
  ∃ s' o m,
    on_resize_listener demo_resized = Ok tt s' ∧
    (composerSize <$> _composer (comp s')) = Some (Some (1024%Q, 768%Q)) ∧
    _shaderPasses (comp s') = [3] ∧
    passObjs (world s') !! 3 = Some o ∧ fullscreenMaterial o = Some m ∧
    muniforms m !! "aspect" = Some (UQuot 1024 768) ∧
    muniforms m !! "resolution" = None ∧
    muniforms m !! "time" = Some (UNum 0).
Proof.
  eexists _, _, _. by_running.
Qed.

(** ** After initialization *)

(** The layers [_init] sets up on a component that had none can be
    replaced: every canvas of the screen is a key of the layer map, with a
    material of its own. *)
Lemma init_replaceable (s : State) (t : Term) (scr : Node) (size : Q * Q)
    (e : MutationRecord) :
  fault_free (host (world s)) →
  _term (comp s) = Some t →
  screenOf (world s) !! termRef t = Some scr →
  bounds (world s) !! term t = Some size →
  _xTermLayerMap (comp s) = ∅ →
  NoDup (default [] (canvasesOf (world s) !! scr)) →
  NoDup (removedNodes e) →
  (∀ c, c ∈ removedNodes e → c ∈ default [] (canvasesOf (world s) !! scr)) →
  ∃ s', _init s = Ok tt s' ∧ replaceable s' e.
Proof.
  intros Hf Ht Hscr Hb Hlm Hnd Hnde Hsub.
  rewrite (init_Ok s t scr size Hf Ht Hscr Hb).
  set (cs := default [] (canvasesOf (world s) !! scr)) in *.
  eexists. split; [reflexivity|].
  assert (Hkey : ∀ c, c ∈ cs → ∃ i, cs !! i = Some c ∧
            layer_map (length (materials (world s))) cs (_xTermLayerMap (comp s)) !! c
            = Some (length (materials (world s)) + i)).
  { intros c Hc. apply list_elem_of_lookup_1 in Hc as [i Hi]. exists i.
    split; [done|]. by apply layer_map_lookup. }
  split; [done|]. split.
  - intros c Hc. destruct (Hkey c (Hsub c Hc)) as (i & Hi & Hm).
    assert (Hlt : i < length cs) by (by eapply lookup_lt_Some).
    exists (length (materials (world s)) + i),
           (layer_material (length (textures (world s)) + i)).
    cbn [comp world init_comp init_world _xTermLayerMap materials textures].
    split; [done|]. split.
    + rewrite lookup_app_r by lia. replace (_ + i - _) with i by lia.
      unfold layer_materials. by rewrite list_lookup_imap, Hi.
    + simpl. rewrite length_app, length_fmap. lia.
  - cbn [comp init_comp _xTermLayerMap].
    intros c1 c2 m H1 H2 Hm1 Hm2.
    destruct (Hkey c1 (Hsub c1 H1)) as (i & Hi & Hki).
    destruct (Hkey c2 (Hsub c2 H2)) as (j & Hj & Hkj).
    rewrite Hm1 in Hki. rewrite Hm2 in Hkj.
    assert (i = j) by (inversion Hki; inversion Hkj; lia). subst j.
    rewrite Hi in Hj. by inversion Hj.
Qed.

(** Cancelling stops a loop that was started once: when the frame the
    component recorded is the only one pending, none is pending afterwards. *)
Lemma cancel_stops_the_only_loop (s : State) (next : Props) (f : Frame) :
  _isInit (comp s) = true →
  isTermActive (props (comp s)) = true → isTermActive next = false →
  pending (world s) = [f] → _animationId (comp s) = Some (fid f) →
  ∃ s', componentWillReceiveProps next s = Ok tt s' ∧ pending (world s') = [].
Proof.
  intros Hi Ha Hn Hp Hid.
  unfold componentWillReceiveProps, bind, this, gets. rewrite Hi. simpl.
  rewrite Ha, Hn. simpl.
  unfold _cancelAnimationLoop, bind, this, gets, cancelAnimationFrame, host_set, modify.
  eexists. split; [reflexivity|]. simpl. rewrite Hp, Hid.
  rewrite filter_cons_False by (intros H; by apply H). done.
Qed.

(** xterm's resize event runs the listener of C7 first. *)
Lemma emit_resize_runs_the_listener (s : State) (t : XTerm) (ls : list Listener) :
  (filter (fun tl => tl.1 = t) (resizeListeners (world s))).*2 = onResize :: ls →
  emit_resize t s = (on_resize_listener ;; for_of ls run_listener) s.
Proof.
  intros H. unfold emit_resize, bind at 1. unfold host_get, gets. by rewrite H.
Qed.

(** The first resize on the concrete terminal: the size is set, the loop is
    started and [resizeOnce] is no longer registered; the next frame keeps
    the loop running. *)
Example demo_first_resize :
  ∃ s1 s2,
    emit_resize 5 demo_ready = Ok tt s1 ∧
    (composerSize <$> _composer (comp s1)) = Some (Some (800%Q, 600%Q)) ∧
    resizeListeners (world s1) = [(5, onResize)] ∧
    (running <$> _clock (comp s1)) = Some true ∧
    loop_pending s1 = true ∧
    fid <$> pending (world s1) = [0] ∧
    animation_frame s1 = Ok tt s2 ∧
    loop_pending s2 = true ∧
    fid <$> pending (world s2) = [1].
Proof.
  eexists _, _. by_running.
Qed.

(** Small runs. *)
Example clamp01_values :
  Passes.clamp01 (3 # 2) = 1%Q ∧ Passes.clamp01 (- (1 # 4)) = 0%Q ∧
  Passes.clamp01 (1 # 3) = (1 # 3)%Q.
Proof. by_running. Qed.

Example demo_onDecorated :
  _onDecorated (Some demo_term) demo_start = Ok tt demo_ready ∧
  _onDecorated None demo_start = Ok tt demo_start ∧
  passes (comp demo_ready) = [2; 0; 1] ∧
  (renderToScreen <$> passObjs (world demo_ready)) = [false; true; false] ∧
  (pclass <$> passObjs (world demo_ready)) = [CustomEffectPass; EffectPass; RenderPass] ∧
  _shaderPasses (comp demo_ready) = [].
Proof. by_running. Qed.

(** ** Every event keeps the component initialized *)

(** *** Rules for [triple] *)

Section Triple.
Context {S : Type}.
Implicit Types (P E : S → Prop).

Lemma triple_ret {A} P (a : A) (Q : A → S → Prop) E :
  (∀ s, P s → Q a s) → triple P (ret a) Q E.
Proof. intros H s Hs. by apply H. Qed.

Lemma triple_bind {A B} P (m : M S A) (R : A → S → Prop) (k : A → M S B)
    (Q : B → S → Prop) E :
  triple P m R E → (∀ a, triple (R a) (k a) Q E) → triple P (bind m k) Q E.
Proof.
  intros Hm Hk s Hs. specialize (Hm s Hs). unfold bind.
  destruct (m s) as [a s'|e s']; [by apply Hk|done].
Qed.

Lemma triple_gets {A} P (f : S → A) (Q : A → S → Prop) E :
  (∀ s, P s → Q (f s) s) → triple P (gets f) Q E.
Proof. intros H s Hs. by apply H. Qed.

Lemma triple_modify P (g : S → S) (Q : unit → S → Prop) E :
  (∀ s, P s → Q tt (g s)) → triple P (modify g) Q E.
Proof. intros H s Hs. by apply H. Qed.

Lemma triple_deref {A} P (what : string) (o : option A) (Q : A → S → Prop) E :
  (∀ a s, o = Some a → P s → Q a s) → (∀ s, o = None → P s → E s) →
  triple P (deref what o) Q E.
Proof. intros H1 H2 s Hs. destruct o; [by apply H1|by apply H2]. Qed.

Lemma triple_for_of {X} (I : S → Prop) (l : list X) (f : X → M S unit) E :
  (∀ x, x ∈ l → triple I (f x) (fun _ => I) E) →
  triple I (for_of l f) (fun _ => I) E.
Proof.
  induction l as [|x l IH]; intros H; [by apply triple_ret|].
  simpl. eapply triple_bind; [apply H; by left|].
  intros ?. apply IH. intros y Hy. apply H. by right.
Qed.

Lemma triple_try_catch {A} P (m : M S A) (h : Error → M S A) (Q : A → S → Prop) E E' :
  triple P m Q E' → (∀ e, triple E' (h e) Q E) → triple P (try_catch m h) Q E.
Proof.
  intros Hm Hh s Hs. specialize (Hm s Hs). unfold try_catch.
  destruct (m s) as [a s'|e s']; [done|by apply Hh].
Qed.

Lemma triple_weaken {A} P P' (m : M S A) (Q Q' : A → S → Prop) E E' :
  triple P' m Q' E' → (∀ s, P s → P' s) → (∀ a s, Q' a s → Q a s) →
  (∀ s, E' s → E s) → triple P m Q E.
Proof.
  intros Hm HP HQ HE s Hs. specialize (Hm s (HP s Hs)).
  destruct (m s); [by apply HQ|by apply HE].
Qed.

End Triple.

(** *** [continues] *)

Lemma pass_kept_refl (o : Pass) : pass_kept o o.
Proof. done. Qed.

Lemma pass_kept_trans (o1 o2 o3 : Pass) :
  pass_kept o1 o2 → pass_kept o2 o3 → pass_kept o1 o3.
Proof. intros (? & ? & ?) (? & ? & ?). repeat split; [congruence|auto|auto]. Qed.

Lemma passes_kept_refl (l : list Pass) : Forall2 pass_kept l l.
Proof. apply Forall2_same_length_lookup. split; [done|]. intros i x y -> [= ->]. done. Qed.

Lemma passes_kept_trans (l1 l2 l3 : list Pass) :
  Forall2 pass_kept l1 l2 → Forall2 pass_kept l2 l3 → Forall2 pass_kept l1 l3.
Proof.
  intros H1 H2. apply Forall2_same_length_lookup. split.
  - by rewrite (Forall2_length _ _ _ H1), (Forall2_length _ _ _ H2).
  - intros i x z Hx Hz.
    destruct (Forall2_lookup_l _ _ _ _ _ H1 Hx) as (y & Hy & Hxy).
    destruct (Forall2_lookup_l _ _ _ _ _ H2 Hy) as (z' & Hz' & Hyz).
    rewrite Hz in Hz'. inversion Hz'; subst. by eapply pass_kept_trans.
Qed.

Lemma passes_kept_alter (f : Pass → Pass) (l : list Pass) (p : PassRef) :
  (∀ o, l !! p = Some o → pass_kept o (f o)) → Forall2 pass_kept l (alter f p l).
Proof.
  intros H. apply Forall2_same_length_lookup. split; [by rewrite length_alter|].
  intros i x y Hx Hy. destruct (decide (p = i)) as [<-|Hne].
  - rewrite list_lookup_alter_eq, Hx in Hy. inversion Hy; subst. by apply H.
  - rewrite list_lookup_alter_ne, Hx in Hy by done. by inversion Hy.
Qed.

Lemma continues_refl (s : State) : continues s s.
Proof.
  repeat split; try done.
  - intros composer H. by exists composer.
  - apply passes_kept_refl.
Qed.

Lemma continues_trans (s1 s2 s3 : State) :
  continues s1 s2 → continues s2 s3 → continues s1 s3.
Proof.
  intros (H1 & H2 & H3 & H4 & H5 & H6 & H7) (K1 & K2 & K3 & K4 & K5 & K6 & K7).
  split; [congruence|]. split.
  { intros c Hc. destruct (H2 c Hc) as (c' & Hc' & Hp).
    destruct (K2 c' Hc') as (c'' & Hc'' & Hp'). exists c''. split; [done|congruence]. }
  split; [auto|]. split; [congruence|]. split; [congruence|].
  split; [by eapply passes_kept_trans|lia].
Qed.

Lemma Initialized_continues (s s' : State) :
  Initialized s → continues s s' → Initialized s'.
Proof.
  intros (H1 & (composer & Hco & Hsep) & H3 & H4 & H5)
         (K1 & K2 & K3 & K4 & K5 & K6 & K7).
  split; [congruence|]. split.
  { destruct (K2 composer Hco) as (c' & Hc' & Hp). exists c'. split; [done|].
    rewrite Hp. intros p o' Hin Ho' Hcl.
    destruct (Forall2_lookup_r _ _ _ _ _ K6 Ho') as (o & Ho & (Hc & _ & Hs)).
    apply Hs. apply (Hsep p o); [done|done|congruence]. }
  split; [auto|]. split.
  { rewrite K4. intros p Hp. destruct (H4 p Hp) as (o & m & Ho & Hm).
    destruct (Forall2_lookup_l _ _ _ _ _ K6 Ho) as (o' & Ho' & (_ & Hfm & _)).
    destruct Hfm as [m' Hm']; [by eexists|]. by exists o', m'. }
  rewrite K5. intros c m Hc. apply H5 in Hc.
  apply lookup_lt_is_Some_2. apply lookup_lt_is_Some_1 in Hc. lia.
Qed.

(** *** The statements of the handlers *)

Lemma continues_frame (s s' : State) :
  _isInit (comp s') = _isInit (comp s) →
  _composer (comp s') = _composer (comp s) →
  _clock (comp s') = _clock (comp s) →
  _shaderPasses (comp s') = _shaderPasses (comp s) →
  _xTermLayerMap (comp s') = _xTermLayerMap (comp s) →
  passObjs (world s') = passObjs (world s) →
  materials (world s') = materials (world s) →
  continues s s'.
Proof.
  intros H1 H2 H3 H4 H5 H6 H7. split; [done|]. split.
  { intros c Hc. exists c. by rewrite H2. }
  split; [by rewrite H3|]. split; [done|]. split; [done|].
  split; [rewrite H6; apply passes_kept_refl|by rewrite H7].
Qed.

Ltac framed := apply continues_frame; reflexivity.

Lemma keeps_ret {A} (a : A) : keeps (ret a).
Proof. intros s0. by apply triple_ret. Qed.

Lemma keeps_bind {A B} (m : M State A) (k : A → M State B) :
  keeps m → (∀ a, keeps (k a)) → keeps (bind m k).
Proof. intros Hm Hk s0. eapply triple_bind; [apply Hm|]. intros a. apply Hk. Qed.

Lemma keeps_this {A} (f : Component → A) : keeps (this f).
Proof. intros s0. by apply triple_gets. Qed.

Lemma keeps_host_get {A} (f : World → A) : keeps (host_get f).
Proof. intros s0. by apply triple_gets. Qed.

Lemma keeps_deref {A} (what : string) (o : option A) : keeps (deref what o).
Proof. intros s0. by apply triple_deref. Qed.

Lemma keeps_step (g : State → State) :
  (∀ s, continues s (g s)) → keeps (modify g).
Proof.
  intros H s0. apply triple_modify. intros s Hs. by eapply continues_trans.
Qed.

Lemma keeps_for_of {X} (l : list X) (f : X → M State unit) :
  (∀ x, keeps (f x)) → keeps (for_of l f).
Proof. intros H s0. apply triple_for_of. intros x _. apply H. Qed.

Lemma keeps_try_catch {A} (m : M State A) (h : Error → M State A) :
  keeps m → (∀ e, keeps (h e)) → keeps (try_catch m h).
Proof. intros Hm Hh s0. eapply triple_try_catch; [apply Hm|]. intros e. apply Hh. Qed.

Lemma keeps_console_error (e : Error) : keeps (liftW (console_error e)).
Proof.
  intros s0 s Hs. unfold liftW, console_error, modify.
  eapply continues_trans; [done|]. framed.
Qed.

Lemma keeps_requestAnimationFrame (mats : list MatRef) (n : nat) :
  keeps (requestAnimationFrame mats n).
Proof.
  intros s0 s Hs. unfold requestAnimationFrame.
  eapply continues_trans; [done|]. framed.
Qed.

Lemma keeps_new_CanvasTexture (img : option Canvas) : keeps (new_CanvasTexture img).
Proof.
  intros s0 s Hs. unfold new_CanvasTexture.
  eapply continues_trans; [done|]. framed.
Qed.

Lemma keeps_update_texture (t : TexRef) (f : Texture → Texture) :
  keeps (update_texture t f).
Proof. apply keeps_step. intros s. framed. Qed.

Lemma keeps_getFullscreenMaterial (p : PassRef) : keeps (getFullscreenMaterial p).
Proof.
  unfold getFullscreenMaterial.
  apply keeps_bind; [apply keeps_host_get|]. intros po.
  apply keeps_bind; [apply keeps_deref|]. intros o. apply keeps_deref.
Qed.

(** [CustomEffectPass.render] keeps the class, the material and the
    [separation] uniform of every pass, however it ends. *)
Lemma render_keeps_passes (p : PassRef) (w : World) :
  Forall2 pass_kept (passObjs w) (passObjs (state_of (Passes.render p w))) ∧
  materials (state_of (Passes.render p w)) = materials w.
Proof.
  unfold Passes.render, bind, gets, deref, ret, throw, Math_random, modify.
  destruct (passObjs w !! p) as [o|] eqn:Ho; simpl; [|split; [apply passes_kept_refl|done]].
  destruct (Passes.separation_of o) as [v|] eqn:Hv; simpl;
    [|split; [apply passes_kept_refl|done]].
  split; [|done].
  rewrite <- (list_insert_id _ _ _ Ho) at 1.
  apply Forall2_insert; [apply passes_kept_refl|].
  destruct (same_pass_set_separation
              (Passes.clamp01 (Passes.perturb (fl (host w)) v (rng (host w) (drawn w)))) o)
    as (H1 & H2 & _ & H4).
  split; [done|]. split; [by rewrite H2|done].
Qed.

Lemma keeps_pass_render (p : PassRef) : keeps (pass_render p).
Proof.
  intros s0 s Hs. unfold pass_render, bind, host_get, gets.
  destruct (passObjs (world s) !! p) as [o|]; [|done].
  destruct (pclass o); try done.
  unfold liftW. destruct (render_keeps_passes p (world s)) as [H1 H2].
  assert (Hc : continues s (mkState (comp s) (state_of (Passes.render p (world s))))).
  { split; [done|]. split; [intros c Hc; by exists c|].
    split; [done|]. split; [done|]. split; [done|]. split; [done|].
    simpl. by rewrite H2. }
  destruct (Passes.render p (world s)); simpl in Hc; by eapply continues_trans.
Qed.

Ltac keeps_seq :=
  repeat lazymatch goal with
    | |- keeps (bind _ _) => apply keeps_bind; [|intros ?]
    | |- keeps (ret _) => apply keeps_ret
    | |- keeps (this _) => apply keeps_this
    | |- keeps (host_get _) => apply keeps_host_get
    | |- keeps (deref _ _) => apply keeps_deref
    | |- keeps (update_texture _ _) => apply keeps_update_texture
    | |- keeps (requestAnimationFrame _ _) => apply keeps_requestAnimationFrame
    | |- keeps (new_CanvasTexture _) => apply keeps_new_CanvasTexture
    | |- keeps (getFullscreenMaterial _) => apply keeps_getFullscreenMaterial
    | |- keeps (pass_render _) => apply keeps_pass_render
    | |- keeps (liftW (console_error _)) => apply keeps_console_error
    | |- keeps (for_of _ _) => apply keeps_for_of; intros ?
    end.

Lemma keeps_framed_assign (f : Component → Component) :
  (∀ c, _isInit (f c) = _isInit c) → (∀ c, _composer (f c) = _composer c) →
  (∀ c, _clock (f c) = _clock c) → (∀ c, _shaderPasses (f c) = _shaderPasses c) →
  (∀ c, _xTermLayerMap (f c) = _xTermLayerMap c) →
  keeps (assign f).
Proof.
  intros H1 H2 H3 H4 H5. apply keeps_step. intros s.
  apply continues_frame; simpl; auto.
Qed.

Lemma keeps_framed_host_set (g : World → World) :
  (∀ w, passObjs (g w) = passObjs w) → (∀ w, materials (g w) = materials w) →
  keeps (host_set g).
Proof.
  intros H1 H2. apply keeps_step. intros s. apply continues_frame; simpl; auto.
Qed.

Lemma keeps_set_uniform (key : string) (value : UVal) (p : PassRef) :
  keeps (set_uniform key value p).
Proof.
  unfold set_uniform. keeps_seq.
  match goal with |- keeps (match ?o with _ => _ end) => destruct o end;
    [|apply keeps_ret].
  apply keeps_step. intros s.
  split; [done|]. split; [intros c Hc; by exists c|].
  split; [done|]. split; [done|]. split; [done|]. split; [|done].
  simpl. apply passes_kept_alter. intros o _.
  split; [done|]. split; [intros _; by eexists|done].
Qed.

Lemma keeps_setUniforms (obj : list (string * UVal)) : keeps (_setUniforms obj).
Proof.
  unfold _setUniforms. apply keeps_for_of. intros [key value].
  apply keeps_bind; [apply keeps_this|]. intros sp.
  apply keeps_for_of. intros p. apply keeps_set_uniform.
Qed.

Lemma keeps_time_passes (sp : list PassRef) : keeps (time_passes sp).
Proof. induction sp as [|p sp IH]; simpl; keeps_seq. exact IH. Qed.

Lemma keeps_render_frame (mats : list MatRef) (n : nat) : keeps (render_frame mats n).
Proof.
  unfold render_frame. keeps_seq.
  - apply keeps_framed_assign; reflexivity.
  - destruct n; keeps_seq.
Qed.

Lemma keeps_startAnimationLoop : keeps _startAnimationLoop.
Proof. unfold _startAnimationLoop. keeps_seq; [apply keeps_time_passes|apply keeps_render_frame]. Qed.

Lemma keeps_cancelAnimationLoop : keeps _cancelAnimationLoop.
Proof.
  unfold _cancelAnimationLoop, cancelAnimationFrame. keeps_seq.
  apply keeps_framed_host_set; reflexivity.
Qed.

Lemma keeps_componentWillReceiveProps (next : Props) :
  keeps (componentWillReceiveProps next).
Proof.
  unfold componentWillReceiveProps.
  apply keeps_bind; [apply keeps_this|]. intros isInit.
  destruct (negb isInit); [apply keeps_ret|].
  apply keeps_bind; [apply keeps_this|]. intros cur.
  destruct (isTermActive cur && negb (isTermActive next));
    [apply keeps_cancelAnimationLoop|].
  destruct (negb (isTermActive cur) && isTermActive next);
    [apply keeps_startAnimationLoop|apply keeps_ret].
Qed.

Lemma keeps_receive_props (next : Props) : keeps (receive_props next).
Proof.
  unfold receive_props. keeps_seq; [apply keeps_componentWillReceiveProps|].
  apply keeps_framed_assign; reflexivity.
Qed.

Lemma keeps_on_resize_listener : keeps on_resize_listener.
Proof.
  unfold on_resize_listener.
  apply keeps_bind; [apply keeps_this|]. intros to.
  apply keeps_bind; [apply keeps_deref|]. intros t.
  apply keeps_bind; [apply keeps_host_get|]. intros bo.
  apply keeps_bind; [apply keeps_deref|]. intros [width height].
  intros s0.
  eapply triple_bind.
  { apply triple_gets with (Q := fun a s => continues s0 s ∧ a = _composer (comp s)).
    done. }
  intros co. eapply triple_bind.
  { apply triple_deref
      with (Q := fun a s => continues s0 s ∧ _composer (comp s) = Some a).
    - intros a s -> [Hs <-]. done.
    - intros s _ [Hs _]. exact Hs. }
  intros composer. eapply triple_bind.
  { apply triple_modify with (Q := fun _ s => continues s0 s).
    intros s [Hs Hco]. eapply continues_trans; [exact Hs|].
    split; [done|]. split.
    { intros c Hc. eexists. split; [reflexivity|]. simpl. congruence. }
    split; [done|]. split; [done|]. split; [done|].
    split; [apply passes_kept_refl|done]. }
  intros []. apply keeps_setUniforms.
Qed.

Lemma keeps_resize_once_listener : keeps resize_once_listener.
Proof.
  unfold resize_once_listener, off_resize. keeps_seq.
  - apply keeps_framed_host_set; reflexivity.
  - apply keeps_step. intros s.
    split; [done|]. split; [intros c Hc; by exists c|].
    split; [intros _; by eexists|]. split; [done|]. split; [done|].
    split; [apply passes_kept_refl|done].
  - apply keeps_startAnimationLoop.
Qed.

Lemma keeps_emit_resize (t : XTerm) : keeps (emit_resize t).
Proof.
  unfold emit_resize. keeps_seq.
  match goal with |- keeps (run_listener ?l) => destruct l end;
    [apply keeps_on_resize_listener|apply keeps_resize_once_listener].
Qed.

Lemma keeps_replaceTexture (r : Node) (a : option Node) : keeps (_replaceTexture r a).
Proof.
  unfold _replaceTexture. keeps_seq.
  apply keeps_step. intros s.
  split; [done|]. split; [intros c Hc; by exists c|].
  split; [done|]. split; [done|]. split; [done|].
  split; [apply passes_kept_refl|]. simpl. by rewrite length_alter.
Qed.

Lemma keeps_onCanvasReplacement (records : list MutationRecord) :
  keeps (_onCanvasReplacement records).
Proof.
  unfold _onCanvasReplacement. keeps_seq.
  match goal with |- keeps (let '(_, _) := ?x in _) => destruct x end.
  apply keeps_replaceTexture.
Qed.

Lemma keeps_animation_frame : keeps animation_frame.
Proof.
  unfold animation_frame. keeps_seq.
  - apply keeps_framed_host_set; reflexivity.
  - apply keeps_try_catch; [apply keeps_render_frame|]. intros e.
    apply keeps_console_error.
Qed.

(** *** The invariant *)

Lemma continues_after (ev : Event) (s : State) :
  _isInit (comp s) = true → continues s (after ev s).
Proof.
  intros Hinit. unfold after.
  assert (Hk : ∀ m : M State unit, keeps m → continues s (state_of (m s))).
  { intros m Hm. specialize (Hm s s (continues_refl s)). by destruct (m s). }
  destruct ev as [t|next|t size|records|]; simpl.
  - unfold _onDecorated, bind, this, gets, host_set, modify, ret.
    destruct (onDecorated (props (comp s))); simpl; rewrite Hinit;
      destruct t; simpl; try apply continues_refl; framed.
  - apply Hk, keeps_receive_props.
  - apply Hk. apply keeps_bind; [|intros ?; apply keeps_emit_resize].
    apply keeps_framed_host_set; reflexivity.
  - apply Hk, keeps_onCanvasReplacement.
  - apply Hk, keeps_animation_frame.
Qed.

(** Whatever the host does next, and however the handler ends, an
    initialized component stays initialized. *)
Lemma Initialized_after (ev : Event) (s : State) :
  Initialized s → Initialized (after ev s).
Proof.
  intros Hs. apply (Initialized_continues s); [done|].
  apply continues_after. by destruct Hs.
Qed.

Lemma Initialized_after_all (evs : list Event) :
  ∀ s, Initialized s → Initialized (after_all evs s).
Proof.
  induction evs as [|ev evs IH]; intros s Hs; [done|].
  simpl. apply IH. by apply Initialized_after.
Qed.

(** So the hypothesis of C4 and C7 holds at every moment after a successful
    [_init] of a freshly constructed component. *)
Lemma Initialized_after_init (p : Props) (w : World) (t : Term) (scr : Node)
    (size : Q * Q) (evs : list Event) :
  fault_free (host w) →
  screenOf w !! termRef t = Some scr →
  bounds w !! term t = Some size →
  Initialized
    (after_all evs (state_of (_init (mkState (set_term (Some t) (constructor p)) w)))).
Proof.
  intros Hf Hscr Hb. apply Initialized_after_all.
  assert (Hlm : ∀ c m, _xTermLayerMap (set_term (Some t) (constructor p)) !! c = Some m →
                       is_Some (materials w !! m)).
  { intros c m H. simpl in H. by rewrite lookup_empty in H. }
  destruct (init_Initialized (mkState (set_term (Some t) (constructor p)) w) t scr size
              Hf eq_refl Hscr Hb Hlm) as (s' & Hrun & Hs').
  by rewrite Hrun.
Qed.

(** A loop that the first resize starts while the tab is not active is not
    the loop a later update cancels: the update to active starts a second
    loop, and the update to inactive cancels the frame of that one only. *)
Example demo_two_loops :
  let s := after_all [PropsUpdate (mkProps false false); Resized 5 (800%Q, 600%Q);
                      PropsUpdate (mkProps true false); PropsUpdate (mkProps false false)]
                     demo_ready in
  isTermActive (props (comp s)) = false ∧
  _animationId (comp s) = Some 1 ∧
  fid <$> pending (world s) = [0] ∧
  loop_pending s = false ∧
  loop_pending (after AnimationFrame s) = true.
Proof. by_running. Qed.

(** The usual order: the first resize comes while the tab is active; then
    the updates stop and restart the only loop. *)
Example demo_one_loop :
  let s1 := after_all [Resized 5 (800%Q, 600%Q); AnimationFrame;
                       PropsUpdate (mkProps false false)] demo_ready in
  let s2 := after (PropsUpdate (mkProps true false)) s1 in
  pending (world s1) = [] ∧ loop_pending s1 = false ∧
  fid <$> pending (world s2) = [2] ∧ loop_pending s2 = true.
Proof. by_running. Qed.

(** * Further properties of the code *)

(** ** index.js: the decorators *)

(** [Object.assign({}, src, lit)] on a new empty target: the properties of
    the literal over the properties of the source. *)
Lemma Object_assign_new (h : Theme.Heap) (target src lit : nat) (o l : Theme.JsObj) :
  h !! target = Some ∅ → h !! src = Some o → h !! lit = Some l →
  Theme.Object_assign target [src; lit] h = (target, <[target := l ∪ o]> h).
Proof.
  intros Ht Hs Hl. unfold Theme.Object_assign. rewrite Ht. simpl.
  rewrite Hs, Hl. unfold Theme.assign_from.
  by rewrite (right_id ∅ (∪) o).
Qed.

Lemma decorateConfig_eq (h : Theme.Heap) (config : nat) (o : Theme.JsObj) :
  h !! config = Some o →
  Theme.decorateConfig config h =
    (length h, <[length h := Theme.overrides ∪ o]> ((h ++ [∅]) ++ [Theme.overrides])).
Proof.
  intros Hc. unfold Theme.decorateConfig, alloc.
  apply Object_assign_new.
  - rewrite lookup_app_l by (rewrite length_app; simpl; lia).
    by rewrite lookup_app_r, Nat.sub_diag.
  - rewrite <- app_assoc. by apply lookup_app_l_Some.
  - by rewrite lookup_app_r, Nat.sub_diag.
Qed.

Lemma decorated_lookup (h : Theme.Heap) (x : Theme.JsObj) (extra : list Theme.JsObj) :
  (<[length h := x]> ((h ++ [∅]) ++ extra)) !! length h = Some x.
Proof. apply list_lookup_insert_eq. rewrite !length_app. simpl. lia. Qed.

Lemma decorated_old (h : Theme.Heap) (x : Theme.JsObj) (extra : list Theme.JsObj) (l : nat)
    (y : Theme.JsObj) :
  h !! l = Some y → (<[length h := x]> ((h ++ [∅]) ++ extra)) !! l = Some y.
Proof.
  intros Hl. assert (l < length h) by (by eapply lookup_lt_Some).
  rewrite list_lookup_insert_ne by lia.
  rewrite <- app_assoc. by apply lookup_app_l_Some.
Qed.

(** X1.  Decorating a configuration that [decorateConfig] has decorated already
    makes a new object again, with the same properties as the first result:
    the decorator is idempotent on the contents, and leaves its argument as
    it is. *)
Theorem decorateConfig_idempotent (h : Theme.Heap) (config : nat) (o : Theme.JsObj) :
  h !! config = Some o →
  ∃ r1 h1 r2 h2 o',
    Theme.decorateConfig config h = (r1, h1) ∧
    Theme.decorateConfig r1 h1 = (r2, h2) ∧
    r2 ≠ r1 ∧ h1 !! r2 = None ∧
    h1 !! r1 = Some o' ∧ h2 !! r1 = Some o' ∧ h2 !! r2 = Some o'.
Proof.
  intros Hc. rewrite (decorateConfig_eq h config o Hc).
  set (h1 := <[length h := Theme.overrides ∪ o]> ((h ++ [∅]) ++ [Theme.overrides])).
  assert (H1 : h1 !! length h = Some (Theme.overrides ∪ o)) by apply decorated_lookup.
  assert (Hlen : length h1 = S (S (length h))).
  { unfold h1. rewrite length_insert, !length_app. simpl. lia. }
  assert (Hid : Theme.overrides ∪ (Theme.overrides ∪ o) = Theme.overrides ∪ o).
  { by rewrite (assoc_L (∪)), (idemp_L (∪)). }
  eexists (length h), h1, (length h1), _, (Theme.overrides ∪ o).
  split; [reflexivity|].
  split; [apply (decorateConfig_eq h1 _ _ H1)|].
  rewrite Hid.
  split; [lia|].
  split; [by apply lookup_ge_None|].
  split; [exact H1|].
  split; [by apply decorated_old | apply decorated_lookup].
Qed.

(** What [${v || ''}] prints for a string, and for a missing property. *)
Lemma interpolated_string (pr : Theme.Printer) (o : Theme.JsObj) (k s : string) :
  o !! k = Some (Theme.VStr s) →
  Theme.ToString pr (Theme.or_empty (Theme.get o k)) = s.
Proof. unfold Theme.get. intros ->. by destruct s. Qed.

Lemma interpolated_missing (pr : Theme.Printer) (o : Theme.JsObj) (k : string) :
  o !! k = None →
  Theme.ToString pr (Theme.or_empty (Theme.get o k)) = EmptyString.
Proof. unfold Theme.get. by intros ->. Qed.

(** The two allocations of a [render]: the literal, then the target. *)
Lemma render_assign (h : Theme.Heap) (p : nat) (o l : Theme.JsObj) :
  h !! p = Some o →
  Theme.Object_assign (S (length h)) [p; length h] ((h ++ [l]) ++ [∅]) =
    (S (length h), <[S (length h) := l ∪ o]> ((h ++ [l]) ++ [∅])).
Proof.
  intros Hp. apply Object_assign_new.
  - rewrite lookup_app_r by (rewrite length_app; simpl; lia).
    rewrite length_app. simpl. by replace (S (length h) - (length h + 1)) with 0 by lia.
  - rewrite <- app_assoc. by apply lookup_app_l_Some.
  - rewrite lookup_app_l by (rewrite length_app; simpl; lia).
    by rewrite lookup_app_r, Nat.sub_diag.
Qed.

Lemma rendered_lookup (h : Theme.Heap) (x l : Theme.JsObj) :
  (<[S (length h) := x]> ((h ++ [l]) ++ [∅])) !! S (length h) = Some x.
Proof. apply list_lookup_insert_eq. rewrite !length_app. simpl. lia. Qed.

Lemma rendered_old (h : Theme.Heap) (x l : Theme.JsObj) (i : nat) (y : Theme.JsObj) :
  h !! i = Some y → (<[S (length h) := x]> ((h ++ [l]) ++ [∅])) !! i = Some y.
Proof.
  intros Hl. assert (i < length h) by (by eapply lookup_lt_Some).
  rewrite list_lookup_insert_ne by lia.
  rewrite <- app_assoc. by apply lookup_app_l_Some.
Qed.

(** X2.  The props [render] of the [decorateHyper] class hands to
    [HyperTerm] are a new object: [backgroundColor] is ['black'], [customCSS]
    is the CSS of the theme after the custom CSS of the props (the empty
    string when the props have none), every other prop is passed on as it is,
    and [this.props] is not modified. *)
Theorem decorateHyper_render_props (pr : Theme.Printer) (h : Theme.Heap) (p : nat)
    (o : Theme.JsObj) :
  h !! p = Some o →
  ∃ r h' o',
    Theme.decorateHyper.render pr p h = Some (r, h') ∧
    r ≠ p ∧ h !! r = None ∧ h' !! r = Some o' ∧
    o' !! "backgroundColor" = Some (Theme.VStr "black") ∧
    (∀ s, o !! "customCSS" = Some (Theme.VStr s) →
          o' !! "customCSS" = Some (Theme.VStr (Theme.decorateHyper.customCSS s))) ∧
    (o !! "customCSS" = None →
     o' !! "customCSS" = Some (Theme.VStr (Theme.decorateHyper.customCSS EmptyString))) ∧
    (∀ k, k ≠ "backgroundColor" → k ≠ "customCSS" → o' !! k = o !! k) ∧
    (∀ l x, h !! l = Some x → h' !! l = Some x).
Proof.
  intros Hp. assert (p < length h) by (by eapply lookup_lt_Some).
  unfold Theme.decorateHyper.render, alloc. rewrite Hp. simpl.
  rewrite length_app. simpl. rewrite Nat.add_1_r.
  rewrite (render_assign h p o _ Hp).
  eexists _, _, _. split; [reflexivity|].
  split; [lia|]. split; [apply lookup_ge_None; lia|].
  split; [apply rendered_lookup|].
  unfold Theme.decorateHyper.overridenProps.
  split.
  { apply lookup_union_Some_l. by rewrite lookup_insert_ne. }
  split.
  { intros s Hs. apply lookup_union_Some_l.
    by rewrite lookup_insert_eq, (interpolated_string pr o _ s Hs). }
  split.
  { intros Hn. apply lookup_union_Some_l.
    by rewrite lookup_insert_eq, (interpolated_missing pr o _ Hn). }
  split.
  { intros k Hb Hc. apply lookup_union_r.
    by rewrite !lookup_insert_ne, lookup_empty. }
  intros l x. apply rendered_old.
Qed.

(** X3.  The props [render] of the theme's [decorateTerm] class hands to
    [Term] are a new object that differs from [this.props] in [customCSS]
    only, which is the custom CSS of the props between white space (white
    space alone when the props have none); [this.props] is not modified. *)
Theorem decorateTerm_render_props (pr : Theme.Printer) (h : Theme.Heap) (p : nat)
    (o : Theme.JsObj) :
  h !! p = Some o →
  ∃ r h' o',
    Theme.decorateTerm.render pr p h = Some (r, h') ∧
    r ≠ p ∧ h !! r = None ∧ h' !! r = Some o' ∧
    (∀ s, o !! "customCSS" = Some (Theme.VStr s) →
          o' !! "customCSS" = Some (Theme.VStr (Theme.decorateTerm.customCSS s))) ∧
    (o !! "customCSS" = None →
     o' !! "customCSS" = Some (Theme.VStr (Theme.decorateTerm.customCSS EmptyString))) ∧
    (∀ k, k ≠ "customCSS" → o' !! k = o !! k) ∧
    (∀ l x, h !! l = Some x → h' !! l = Some x).
Proof.
  intros Hp. assert (p < length h) by (by eapply lookup_lt_Some).
  unfold Theme.decorateTerm.render, alloc. rewrite Hp. simpl.
  rewrite length_app. simpl. rewrite Nat.add_1_r.
  rewrite (render_assign h p o _ Hp).
  eexists _, _, _. split; [reflexivity|].
  split; [lia|]. split; [apply lookup_ge_None; lia|].
  split; [apply rendered_lookup|].
  unfold Theme.decorateTerm.overridenProps.
  split.
  { intros s Hs. apply lookup_union_Some_l.
    by rewrite lookup_insert_eq, (interpolated_string pr o _ s Hs). }
  split.
  { intros Hn. apply lookup_union_Some_l.
    by rewrite lookup_insert_eq, (interpolated_missing pr o _ Hn). }
  split.
  { intros k Hc. apply lookup_union_r.
    by rewrite lookup_insert_ne, lookup_empty. }
  intros l x. apply rendered_old.
Qed.

(** ** src/index.js: the configuration decorator *)

Lemma pp_decorateConfig_eq (pr : Theme.Printer) (h : Theme.Heap) (config : nat)
    (o : Theme.JsObj) :
  h !! config = Some o →
  PostProcessing.decorateConfig pr config h =
    Some (length h,
          <[length h :=
              <["css" := Theme.VStr (PostProcessing.css
                           (Theme.ToString pr (Theme.or_empty (Theme.get o "css"))))]> ∅ ∪ o]>
            ((h ++ [∅]) ++
             [<["css" := Theme.VStr (PostProcessing.css
                           (Theme.ToString pr (Theme.or_empty (Theme.get o "css"))))]> ∅])).
Proof.
  intros Hc. unfold PostProcessing.decorateConfig, alloc. rewrite Hc. simpl.
  f_equal. apply Object_assign_new.
  - rewrite lookup_app_l by (rewrite length_app; simpl; lia).
    by rewrite lookup_app_r, Nat.sub_diag.
  - rewrite <- app_assoc. by apply lookup_app_l_Some.
  - by rewrite lookup_app_r, Nat.sub_diag.
Qed.

(** X4.  [decorateConfig] of the component file returns a new object that
    differs from the configuration in [css] only: the rules that position the
    canvas come after the CSS of the configuration (after the empty string
    when it has none).  The configuration is not modified. *)
Theorem decorateConfig_appends_css (pr : Theme.Printer) (h : Theme.Heap) (config : nat)
    (o : Theme.JsObj) :
  h !! config = Some o →
  ∃ r h' o',
    PostProcessing.decorateConfig pr config h = Some (r, h') ∧
    r ≠ config ∧ h !! r = None ∧ h' !! r = Some o' ∧
    (∀ s, o !! "css" = Some (Theme.VStr s) →
          o' !! "css" = Some (Theme.VStr (PostProcessing.css s))) ∧
    (o !! "css" = None → o' !! "css" = Some (Theme.VStr (PostProcessing.css EmptyString))) ∧
    (∀ k, k ≠ "css" → o' !! k = o !! k) ∧
    (∀ l x, h !! l = Some x → h' !! l = Some x).
Proof.
  intros Hc. assert (config < length h) by (by eapply lookup_lt_Some).
  rewrite (pp_decorateConfig_eq pr h config o Hc).
  eexists _, _, _. split; [reflexivity|].
  split; [lia|]. split; [by apply lookup_ge_None|].
  split; [apply decorated_lookup|].
  split.
  { intros s Hs. apply lookup_union_Some_l.
    by rewrite lookup_insert_eq, (interpolated_string pr o _ s Hs). }
  split.
  { intros Hn. apply lookup_union_Some_l.
    by rewrite lookup_insert_eq, (interpolated_missing pr o _ Hn). }
  split.
  { intros k Hk. apply lookup_union_r. by rewrite lookup_insert_ne, lookup_empty. }
  intros l x. apply decorated_old.
Qed.

Lemma overrides_no_css : Theme.overrides !! "css" = None.
Proof. unfold Theme.overrides. by rewrite !lookup_insert_ne, lookup_empty. Qed.

(** X5.  The two configuration decorators write different properties, so the
    order in which they are applied does not matter: the theme's decorator
    followed by the component's, and the component's followed by the theme's,
    end in objects with the same properties. *)
Theorem decorators_commute (pr : Theme.Printer) (h : Theme.Heap) (config : nat)
    (o : Theme.JsObj) :
  h !! config = Some o →
  ∃ r1 h1 r2 h2 r1' h1' r2' h2' o',
    Theme.decorateConfig config h = (r1, h1) ∧
    PostProcessing.decorateConfig pr r1 h1 = Some (r2, h2) ∧
    PostProcessing.decorateConfig pr config h = Some (r1', h1') ∧
    Theme.decorateConfig r1' h1' = (r2', h2') ∧
    h2 !! r2 = Some o' ∧ h2' !! r2' = Some o'.
Proof.
  intros Hc.
  rewrite (decorateConfig_eq h config o Hc), (pp_decorateConfig_eq pr h config o Hc).
  set (h1 := <[length h := Theme.overrides ∪ o]> ((h ++ [∅]) ++ [Theme.overrides])).
  set (lit := <["css" := Theme.VStr (PostProcessing.css
                 (Theme.ToString pr (Theme.or_empty (Theme.get o "css"))))]> (∅ : Theme.JsObj)).
  set (h1' := <[length h := lit ∪ o]> ((h ++ [∅]) ++ [lit])).
  assert (H1 : h1 !! length h = Some (Theme.overrides ∪ o)) by apply decorated_lookup.
  assert (H1' : h1' !! length h = Some (lit ∪ o)) by apply decorated_lookup.
  assert (Hget : Theme.get (Theme.overrides ∪ o) "css" = Theme.get o "css").
  { unfold Theme.get. by rewrite lookup_union_r by apply overrides_no_css. }
  assert (Hd : lit ##ₘ Theme.overrides).
  { apply map_disjoint_insert_l_2; [apply overrides_no_css | apply map_disjoint_empty_l]. }
  eexists (length h), h1, (length h1), _, (length h), h1', (length h1'), _, (lit ∪ (Theme.overrides ∪ o)).
  split; [reflexivity|].
  split; [apply (pp_decorateConfig_eq pr h1 _ _ H1)|].
  split; [reflexivity|].
  split; [apply (decorateConfig_eq h1' _ _ H1')|].
  split.
  - rewrite decorated_lookup, Hget. reflexivity.
  - rewrite decorated_lookup. f_equal.
    by rewrite !(assoc_L (∪)), (map_union_comm lit Theme.overrides).
Qed.

(** ** src/index.js: the element of the component *)

(** X6.  The props [render] of the component hands to [Term] are a new
    object that differs from [this.props] in [onDecorated] only, which is the
    handler of the component; [this.props] is not modified. *)
Theorem render_passes_the_props_on (handler : nat) (h : Theme.Heap) (p : nat)
    (o : Theme.JsObj) :
  h !! p = Some o →
  ∃ r h' o',
    PostProcessing.render handler p h = (r, h') ∧
    r ≠ p ∧ h !! r = None ∧ h' !! r = Some o' ∧
    o' !! "onDecorated" = Some (Theme.VRef handler) ∧
    (∀ k, k ≠ "onDecorated" → o' !! k = o !! k) ∧
    (∀ l x, h !! l = Some x → h' !! l = Some x).
Proof.
  intros Hp. assert (p < length h) by (by eapply lookup_lt_Some).
  unfold PostProcessing.render, alloc.
  rewrite (Object_assign_new _ _ _ _ o (<["onDecorated" := Theme.VRef handler]> ∅)).
  - eexists _, _, _. split; [reflexivity|].
    split; [lia|]. split; [by apply lookup_ge_None|].
    split; [apply decorated_lookup|].
    split; [apply lookup_union_Some_l, lookup_insert_eq|].
    split.
    + intros k Hk. apply lookup_union_r. by rewrite lookup_insert_ne, lookup_empty.
    + intros l x. apply decorated_old.
  - rewrite lookup_app_l by (rewrite length_app; simpl; lia).
    by rewrite lookup_app_r, Nat.sub_diag.
  - rewrite <- app_assoc. by apply lookup_app_l_Some.
  - by rewrite lookup_app_r, Nat.sub_diag.
Qed.

(** ** src/passes.js *)

(** X7.  [createPasses] never throws.  It returns the two passes it has
    made, or [undefined] after it has logged one error; it only adds to the
    store of passes, and changes nothing of the host but this store and the
    console. *)
Theorem createPasses_never_throws (w : World) :
  ∃ r w',
    Passes.createPasses w = Ok r w' ∧
    (∃ new, passObjs w' = passObjs w ++ new) ∧
    set_console (console w) (set_passObjs (passObjs w) w') = w ∧
    ((r = Some [length (passObjs w); S (length (passObjs w))] ∧ console w' = console w) ∨
     (r = None ∧ ∃ e, console w' = console w ++ [LogErr e])).
Proof.
  unfold Passes.createPasses, try_catch, bind, ret, console_error, modify.
  destruct (construct_cases w) as [H|(e & garbage & H)]; rewrite H.
  - eexists _, _. split; [reflexivity|]. split; [by eexists|].
    split; [by destruct w|]. by left.
  - eexists _, _. split; [reflexivity|]. split; [by eexists|].
    split; [by destruct w|]. right. split; [done|]. by exists e.
Qed.





(** ** What a statement never changes *)

Section Stable.
Context {S X : Type} (f : S → X).

Lemma stable_ret {A} (a : A) : stable f (ret a).
Proof. by intros s. Qed.

Lemma stable_throw {A} (e : Error) : stable f (throw (A := A) e).
Proof. by intros s. Qed.

Lemma stable_gets {A} (g : S → A) : stable f (gets g).
Proof. by intros s. Qed.

Lemma stable_deref {A} (what : string) (o : option A) : stable f (deref what o).
Proof. by destruct o; intros s. Qed.

Lemma stable_modify (g : S → S) : (∀ s, f (g s) = f s) → stable f (modify g).
Proof. intros H s. apply H. Qed.

Lemma stable_bind {A B} (m : M S A) (k : A → M S B) :
  stable f m → (∀ a, stable f (k a)) → stable f (bind m k).
Proof.
  intros Hm Hk s. unfold bind. specialize (Hm s).
  destruct (m s) as [a s'|e s']; simpl in *; [|done].
  by rewrite Hk.
Qed.

Lemma stable_for_of {Y} (l : list Y) (g : Y → M S unit) :
  (∀ y, stable f (g y)) → stable f (for_of l g).
Proof.
  intros Hg. induction l as [|y l IH]; simpl; [apply stable_ret|].
  apply stable_bind; [apply Hg | intros _; exact IH].
Qed.

Lemma stable_try_catch {A} (m : M S A) (h : Error → M S A) :
  stable f m → (∀ e, stable f (h e)) → stable f (try_catch m h).
Proof.
  intros Hm Hh s. unfold try_catch. specialize (Hm s).
  destruct (m s) as [a s'|e s']; simpl in *; [done|].
  by rewrite Hh.
Qed.

End Stable.

(** The same rules for the statements of the component. *)
Section StableState.
Context {X : Type} (f : State → X).

Lemma stable_this {A} (g : Component → A) : stable f (this g).
Proof. by intros s. Qed.

Lemma stable_host_get {A} (g : World → A) : stable f (host_get g).
Proof. by intros s. Qed.

Lemma stable_assign (g : Component → Component) :
  (∀ s, f (mkState (g (comp s)) (world s)) = f s) → stable f (assign g).
Proof. intros H s. apply H. Qed.

Lemma stable_host_set (g : World → World) :
  (∀ s, f (mkState (comp s) (g (world s))) = f s) → stable f (host_set g).
Proof. intros H s. apply H. Qed.

Lemma stable_liftW {A} (m : M World A) :
  (∀ s, f (mkState (comp s) (state_of (m (world s)))) = f s) → stable f (liftW m).
Proof. intros H s. unfold liftW. specialize (H s). by destruct (m (world s)). Qed.

End StableState.

(** Statements that only read. *)
Lemma stable_getFullscreenMaterial {X} (f : State → X) (p : PassRef) :
  stable f (getFullscreenMaterial p).
Proof.
  unfold getFullscreenMaterial.
  apply stable_bind; [apply stable_host_get|intros po].
  apply stable_bind; [apply stable_deref|intros o]. apply stable_deref.
Qed.

Lemma stable_time_passes {X} (f : State → X) (sp : list PassRef) :
  stable f (time_passes sp).
Proof.
  induction sp as [|p sp IH]; simpl; [apply stable_ret|].
  apply stable_bind; [apply stable_getFullscreenMaterial|intros m].
  apply stable_bind; [exact IH|intros rest]. apply stable_ret.
Qed.

(** [CustomEffectPass.prototype.render] changes the pass objects and the
    count of random numbers, and nothing else, however it ends. *)
Lemma render_world (p : PassRef) (w : World) :
  ∃ objs d, state_of (Passes.render p w) = set_passObjs objs (set_drawn d w).
Proof.
  unfold Passes.render, bind, gets, deref, ret, throw, Math_random, modify.
  destruct (passObjs w !! p) as [o|]; simpl.
  - destruct (Passes.separation_of o); simpl.
    + by eexists _, _.
    + exists (passObjs w), (drawn w). by destruct w.
  - exists (passObjs w), (drawn w). by destruct w.
Qed.

Ltac stable_leaf := intros ?; try reflexivity.

Ltac stable_go :=
  repeat lazymatch goal with
  | |- stable _ (bind _ _) => apply stable_bind; [|intros ?]
  | |- stable _ (ret _) => apply stable_ret
  | |- stable _ (throw _) => apply stable_throw
  | |- stable _ (this _) => apply stable_this
  | |- stable _ (host_get _) => apply stable_host_get
  | |- stable _ (gets _) => apply stable_gets
  | |- stable _ (deref _ _) => apply stable_deref
  | |- stable _ (for_of _ _) => apply stable_for_of; intros ?
  | |- stable _ (try_catch _ _) => apply stable_try_catch; [|intros ?]
  | |- stable _ (assign _) => apply stable_assign; stable_leaf
  | |- stable _ (host_set _) => apply stable_host_set; stable_leaf
  | |- stable _ (liftW (console_error _)) => apply stable_liftW; stable_leaf
  | |- stable _ (liftW (console_log _)) => apply stable_liftW; stable_leaf
  | |- stable _ (liftW (Passes.render ?p)) =>
      apply stable_liftW;
      let s := fresh "s" in
      let objs := fresh "objs" in
      let d := fresh "d" in
      let H := fresh "H" in
      intros s; destruct (render_world p (world s)) as (objs & d & H); rewrite H;
      try reflexivity
  | |- stable _ (getFullscreenMaterial _) => apply stable_getFullscreenMaterial
  | |- stable _ (time_passes _) => apply stable_time_passes
  | |- stable _ (new_CanvasTexture _) => stable_leaf
  | |- stable _ (new_MeshBasicMaterial _) => stable_leaf
  | |- stable _ (requestAnimationFrame _ _) => stable_leaf
  | |- stable _ (update_texture _ _) => unfold update_texture
  | |- stable _ (cancelAnimationFrame _) => unfold cancelAnimationFrame
  | |- stable _ (on_resize _ _) => unfold on_resize
  | |- stable _ (off_resize _ _) => unfold off_resize
  | |- stable _ (pass_render _) => unfold pass_render
  | |- stable _ (set_uniform _ _ _) => unfold set_uniform
  | |- stable _ (_setUniforms _) => unfold _setUniforms
  | |- stable _ (render_frame _ _) => unfold render_frame
  | |- stable _ _startAnimationLoop => unfold _startAnimationLoop
  | |- stable _ _cancelAnimationLoop => unfold _cancelAnimationLoop
  | |- stable _ (_replaceTexture _ _) => unfold _replaceTexture
  | |- stable _ (_onCanvasReplacement _) => unfold _onCanvasReplacement
  | |- stable _ on_resize_listener => unfold on_resize_listener
  | |- stable _ resize_once_listener => unfold resize_once_listener
  | |- stable _ (componentWillReceiveProps _) => unfold componentWillReceiveProps
  | |- stable _ (receive_props _) => unfold receive_props
  | |- stable _ (deliver_mutations _) => unfold deliver_mutations
  | |- stable _ animation_frame => unfold animation_frame
  | |- stable _ (addPass _) => unfold addPass
  | |- stable _ (store_passes _) => unfold store_passes
  | |- stable _ (liftW (lib_call ?c)) =>
      apply stable_liftW;
      let s := fresh "s" in
      intros s; unfold lib_call; destruct (fault (host (world s)) c); try reflexivity
  | |- stable _ (liftW (new_pass _)) => apply stable_liftW; stable_leaf
  | |- stable _ (match ?x with _ => _ end) => destruct x
  end.

(** ** The render loop *)

(** What the closure [render] does first: it requests the next frame and
    records its id.  Nothing it does afterwards touches the requested frames,
    so this holds however the call ends. *)
Lemma render_frame_requests (mats : list MatRef) (n : nat) (s : State) :
  let s' := state_of (render_frame mats n s) in
  pending (world s') = pending (world s) ++ [mkFrame (nextFrame (world s)) mats n] ∧
  nextFrame (world s') = S (nextFrame (world s)) ∧
  _animationId (comp s') = Some (nextFrame (world s)) ∧
  props (comp s') = props (comp s) ∧
  resizeListeners (world s') = resizeListeners (world s).
Proof.
  unfold render_frame.
  unfold bind at 1. unfold requestAnimationFrame at 1.
  unfold bind at 1. unfold assign at 1, modify at 1. cbn [comp world].
  match goal with
  | |- context [state_of (?m ?s1)] =>
      assert (H : stable (fun s => (pending (world s), nextFrame (world s),
                                    _animationId (comp s), props (comp s),
                                    resizeListeners (world s))) m);
        [|specialize (H s1); cbv beta in H]
  end.
  { stable_go. }
  cbv zeta. injection H as H1 H2 H3 H4 H5. repeat split; assumption.
Qed.

(** One callback of the browser: the exception of [render], if any, is
    reported; the frame it requested stays requested. *)
Lemma frame_callback (f : Frame) (s : State) :
  ∃ s', try_catch (render_frame (fmaterials f) (ftimeUniforms f))
                  (fun e => liftW (console_error e)) s = Ok tt s' ∧
        pending (world s') =
          pending (world s) ++ [mkFrame (nextFrame (world s)) (fmaterials f) (ftimeUniforms f)] ∧
        nextFrame (world s') = S (nextFrame (world s)) ∧
        _animationId (comp s') = Some (nextFrame (world s)) ∧
        props (comp s') = props (comp s) ∧
        resizeListeners (world s') = resizeListeners (world s).
Proof.
  pose proof (render_frame_requests (fmaterials f) (ftimeUniforms f) s) as H.
  cbv zeta in H. unfold try_catch.
  destruct (render_frame (fmaterials f) (ftimeUniforms f) s) as [[] s1|e s1]; simpl in H.
  - by exists s1.
  - eexists. split; [reflexivity|]. exact H.
Qed.

Lemma frame_callbacks (fs : list Frame) :
  ∀ s : State,
    ∃ s', for_of fs (fun f =>
            try_catch (render_frame (fmaterials f) (ftimeUniforms f))
                      (fun e => liftW (console_error e))) s = Ok tt s' ∧
          pending (world s') =
            pending (world s) ++
            imap (fun i f => mkFrame (nextFrame (world s) + i) (fmaterials f) (ftimeUniforms f))
                 fs ∧
          nextFrame (world s') = nextFrame (world s) + length fs ∧
          props (comp s') = props (comp s) ∧
          resizeListeners (world s') = resizeListeners (world s) ∧
          (fs = [] → s' = s) ∧
          (fs ≠ [] → _animationId (comp s') = Some (nextFrame (world s) + length fs - 1)).
Proof.
  induction fs as [|f fs IH]; intros s.
  - exists s. simpl. rewrite app_nil_r, Nat.add_0_r. done.
  - destruct (frame_callback f s) as (s1 & Hr1 & Hp1 & Hn1 & Hid1 & Hpr1 & Hl1).
    destruct (IH s1) as (s2 & Hr2 & Hp2 & Hn2 & Hpr2 & Hl2 & Hnil & Hid2).
    exists s2. split.
    { simpl for_of. by rewrite (bind_Ok _ _ _ _ _ Hr1). }
    split.
    { rewrite Hp2, Hp1, Hn1, <- app_assoc. simpl. rewrite Nat.add_0_r.
      do 2 f_equal. apply imap_ext. intros i x _. simpl. f_equal. lia. }
    split; [rewrite Hn2, Hn1; simpl; lia|].
    split; [congruence|]. split; [congruence|]. split; [done|].
    intros _. destruct fs as [|f' fs].
    + rewrite (Hnil eq_refl), Hid1. simpl. f_equal. lia.
    + rewrite Hid2 by done. rewrite Hn1. simpl. f_equal. lia.
Qed.

(** X10.  The closure [render] requests its next frame before anything else.
    So when the browser runs the requested frames, in whatever state the
    component is and whether rendering throws or not, every frame is replaced
    by one new frame with the same captured values: a loop never stops, and
    never multiplies, by itself. *)
Theorem animation_frame_keeps_every_loop (s : State) :
  ∃ s',
    animation_frame s = Ok tt s' ∧
    pending (world s') =
      imap (fun i f => mkFrame (nextFrame (world s) + i) (fmaterials f) (ftimeUniforms f))
           (pending (world s)) ∧
    nextFrame (world s') = nextFrame (world s) + length (pending (world s)).
Proof.
  unfold animation_frame.
  unfold bind at 1. unfold host_get at 1, gets at 1.
  unfold bind at 1. unfold host_set at 1, modify at 1.
  destruct (frame_callbacks (pending (world s))
              (mkState (comp s) (set_pending [] (world s))))
    as (s' & Hr & Hp & Hn & _).
  exists s'. split; [exact Hr|]. split; [exact Hp|exact Hn].
Qed.

(** ** Resizing *)

(** The state the resize listener leaves. *)
Lemma on_resize_listener_Ok (s : State) (t : Term) (size : Q * Q) (composer : Composer) :
  Initialized s →
  _term (comp s) = Some t →
  bounds (world s) !! term t = Some size →
  _composer (comp s) = Some composer →
  on_resize_listener s =
    Ok tt (mkState
             (set_composer (Some (mkComposer (composerPasses composer) (Some size))) (comp s))
             (set_passObjs
                (resized_passes size (_shaderPasses (comp s)) (passObjs (world s)))
                (world s))).
Proof.
  intros (Hinit & _ & _ & Hsp & _) Ht Hb Hco. destruct size as [width height].
  unfold on_resize_listener.
  unfold bind at 1. unfold this at 1, gets at 1. rewrite Ht.
  unfold bind at 1. unfold deref at 1, ret at 1.
  unfold bind at 1. unfold host_get at 1, gets at 1. rewrite Hb.
  unfold bind at 1. unfold deref at 1, ret at 1.
  unfold bind at 1. unfold this at 1, gets at 1. rewrite Hco.
  unfold bind at 1. unfold deref at 1, ret at 1.
  unfold bind at 1. unfold assign at 1, modify at 1.
  set (s1 := mkState _ _).
  unfold _setUniforms. simpl for_of.
  unfold bind at 1. unfold bind at 1. unfold this at 1, gets at 1.
  destruct (set_uniform_all "aspect" (UQuot width height) (_shaderPasses (comp s1)) s1)
    as (objs1 & Hrun1 & Hobjs1); [exact Hsp|].
  rewrite Hrun1.
  unfold bind at 1. unfold bind at 1. unfold this at 1, gets at 1.
  set (s2 := mkState _ _).
  destruct (set_uniform_all "resolution" (UVec2 width height) (_shaderPasses (comp s2)) s2)
    as (objs2 & Hrun2 & Hobjs2).
  { intros p Hp. simpl. rewrite Hobjs1. simpl in Hp. rewrite decide_True by done.
    destruct (Hsp p Hp) as (o & m & Ho & Hm). simpl. rewrite Ho. simpl.
    destruct (with_uniform_material "aspect" (UQuot width height) o) as [m2 Hm2];
      [by eexists|]. by eexists _, _. }
  rewrite Hrun2. unfold ret.
  assert (Heq : objs2 = resized_passes (width, height) (_shaderPasses (comp s))
                          (passObjs (world s))).
  { apply list_eq. intros p.
    rewrite Hobjs2. simpl. rewrite Hobjs1. simpl.
    unfold resized_passes. rewrite list_lookup_imap. simpl.
    destruct (passObjs (world s) !! p) as [o|]; simpl; case_decide; done. }
  rewrite Heq. subst s1 s2. simpl. by destruct s as [? []].
Qed.

(** ** The loop and the tab *)

Lemma loop_tied_view (s s' : State) :
  Initialized s' → tab_view s' = tab_view s → loop_tied s → loop_tied s'.
Proof.
  unfold tab_view. intros Hs' [= Hp Hid Hact Hl] (_ & Hls & Hpend).
  split; [done|]. split; [by rewrite Hl|]. by rewrite Hact, Hp, Hid.
Qed.

Lemma stable_tab_view_on_resize_listener : stable tab_view on_resize_listener.
Proof. unfold tab_view. stable_go. Qed.

Lemma stable_tab_view_deliver_mutations (records : list MutationRecord) :
  stable tab_view (deliver_mutations records).
Proof. unfold tab_view. stable_go. Qed.

(** Listeners of the first kind only: a resize event changes neither the
    frames nor the listeners. *)
Lemma quiet_listeners (ls : list Listener) :
  Forall (fun l => l = onResize) ls → stable tab_view (for_of ls run_listener).
Proof.
  induction 1 as [|l ls -> _ IH]; simpl; [apply stable_ret|].
  apply stable_bind; [apply stable_tab_view_on_resize_listener|intros _; exact IH].
Qed.

Lemma loop_tied_after (ev : Event) (s : State) :
  loop_tied s → loop_tied (after ev s).
Proof.
  intros Hs. pose proof Hs as (Hinit & Hls & Hpend).
  pose proof (Initialized_after ev s Hinit) as Hinit'.
  pose proof Hinit as (HisInit & _).
  destruct ev as [t|next|t size|records|]; unfold after in *; simpl handle in *.
  - (* onDecorated: the component is initialized already *)
    apply (loop_tied_view s); [done| |done].
    unfold _onDecorated, bind, this, gets, host_set, modify, ret.
    destruct (onDecorated (props (comp s))); simpl; rewrite HisInit;
      destruct t; reflexivity.
  - (* a props update *)
    unfold receive_props, componentWillReceiveProps in *.
    unfold bind at 1 in Hinit'. unfold bind at 1.
    unfold bind at 1 in Hinit'. unfold bind at 1.
    unfold this at 1, gets at 1 in Hinit'. unfold this at 1, gets at 1.
    rewrite HisInit in *. cbn [negb] in *.
    unfold bind at 1 in Hinit'. unfold bind at 1.
    unfold this at 1, gets at 1 in Hinit'. unfold this at 1, gets at 1.
    destruct (isTermActive (props (comp s))) eqn:Hact;
      destruct (isTermActive next) eqn:Hnext; cbn [andb negb] in *.
    + split; [exact Hinit'|]. split; [exact Hls|]. simpl. by rewrite Hnext.
    + split; [exact Hinit'|]. split; [exact Hls|]. simpl. rewrite Hnext.
      destruct Hpend as (f & -> & ->).
      rewrite filter_cons_False; [done|]. by intros H.
    + destruct (startAnimationLoop_Ok s Hinit)
        as (s' & frame & Hrun & _ & _ & Hid & Hp & _ & _ & _ & Hl & _).
      rewrite Hrun in *. split; [exact Hinit'|]. simpl. rewrite Hl.
      split; [exact Hls|]. rewrite Hnext. exists frame. by rewrite Hp, Hpend.
    + split; [exact Hinit'|]. split; [exact Hls|]. simpl. by rewrite Hnext.
  - (* a resize event: only listeners of the first kind are left *)
    apply (loop_tied_view s); [done| |done].
    unfold bind at 1. unfold host_set at 1, modify at 1.
    unfold emit_resize. unfold bind at 1. unfold host_get at 1, gets at 1.
    rewrite quiet_listeners; [reflexivity|].
    apply Forall_forall. intros l (tl & -> & Htl)%list_elem_of_fmap.
    apply list_elem_of_filter in Htl as [_ Htl]. simpl in Htl. by apply Hls.
  - (* a replacement of canvases *)
    apply (loop_tied_view s); [done| |done].
    apply stable_tab_view_deliver_mutations.
  - (* an animation frame *)
    unfold animation_frame in *.
    unfold bind at 1 in Hinit'. unfold bind at 1.
    unfold host_get at 1, gets at 1 in Hinit'. unfold host_get at 1, gets at 1.
    unfold bind at 1 in Hinit'. unfold bind at 1.
    unfold host_set at 1, modify at 1 in Hinit'. unfold host_set at 1, modify at 1.
    destruct (frame_callbacks (pending (world s))
                (mkState (comp s) (set_pending [] (world s))))
      as (s' & Hr & Hp & Hn & Hpr & Hl & Hnil & Hid).
    rewrite Hr in *. simpl in *.
    split; [exact Hinit'|]. rewrite Hl. split; [exact Hls|]. rewrite Hpr.
    destruct (isTermActive (props (comp s))).
    + destruct Hpend as (f & Hf & _). rewrite Hf in *. simpl in *.
      eexists. split; [exact Hp|]. rewrite Hid by done. simpl. f_equal. lia.
    + rewrite Hpend in Hp. exact Hp.
Qed.

Lemma Initialized_clock_listeners (s : State) (c : Clock) (ls : list (XTerm * Listener)) :
  Initialized s →
  Initialized (mkState (set_clock (Some c) (comp s)) (set_resizeListeners ls (world s))).
Proof.
  intros (H1 & H2 & H3 & H4 & H5). split; [done|]. split; [done|].
  split; [by eexists|]. split; done.
Qed.

Lemma Initialized_state_of (m : M State unit) (s : State) :
  keeps m → Initialized s → Initialized (state_of (m s)).
Proof.
  intros Hm Hs. apply (Initialized_continues s); [done|].
  specialize (Hm s s (continues_refl s)). by destruct (m s).
Qed.

(** The first resize event after [_init]: both listeners run, the second
    one unregisters itself, starts the clock and the loop. *)
Lemma first_resize_Ok (s : State) (t : Term) (size : Q * Q) :
  Initialized s →
  _term (comp s) = Some t →
  resizeListeners (world s) = [(term t, onResize); (term t, resizeOnce)] →
  ∃ s' frame composer clock,
    handle (Resized (term t) size) s = Ok tt s' ∧
    Initialized s' ∧
    _composer (comp s') = Some composer ∧ composerSize composer = Some size ∧
    _clock (comp s') = Some clock ∧ running clock = true ∧
    resizeListeners (world s') = [(term t, onResize)] ∧
    fid frame = nextFrame (world s) ∧
    pending (world s') = pending (world s) ++ [frame] ∧
    _animationId (comp s') = Some (fid frame) ∧
    props (comp s') = props (comp s).
Proof.
  intros Hs Ht Hl. simpl handle.
  unfold bind at 1. unfold host_set at 1, modify at 1.
  set (s0 := mkState (comp s) (host_resizes (term t) size (world s))).
  assert (Hs0 : Initialized s0) by (by apply Initialized_host_resizes).
  pose proof Hs0 as (_ & (composer & Hco & _) & _).
  assert (Hls : (filter (fun tl : XTerm * Listener => tl.1 = term t)
                   (resizeListeners (world s0))).*2 = [onResize; resizeOnce]).
  { simpl. rewrite Hl.
    rewrite filter_cons_True by done. rewrite filter_cons_True by done. done. }
  unfold emit_resize. unfold bind at 1. unfold host_get at 1, gets at 1.
  rewrite Hls. simpl for_of. simpl run_listener.
  pose proof (on_resize_listener_Ok s0 t size composer Hs0 Ht
                (lookup_insert_eq _ _ _) Hco) as Hr1.
  set (s1 := mkState _ _) in Hr1.
  assert (Hs1 : Initialized s1).
  { pose proof (Initialized_state_of _ s0 keeps_on_resize_listener Hs0) as H.
    by rewrite Hr1 in H. }
  rewrite (bind_Ok _ _ _ _ _ Hr1).
  pose proof Hs1 as (_ & _ & [clock Hcl] & _).
  unfold resize_once_listener.
  unfold bind at 1. unfold bind at 1. unfold this at 1, gets at 1.
  replace (_term (comp s1)) with (Some t) by (by rewrite <- Ht).
  unfold bind at 1. unfold deref at 1, ret at 1.
  unfold bind at 1. unfold off_resize at 1, host_set at 1, modify at 1.
  unfold bind at 1. unfold this at 1, gets at 1. cbn [comp].
  rewrite Hcl.
  unfold bind at 1. unfold deref at 1, ret at 1.
  unfold bind at 1. unfold assign at 1, modify at 1. cbn [comp world].
  set (s2 := mkState _ _).
  assert (Hs2 : Initialized s2) by (by apply Initialized_clock_listeners).
  destruct (startAnimationLoop_Ok s2 Hs2)
    as (s' & frame & Hrun & Hs' & Hfid & Hid & Hp & _ & Hcomp & _ & Hl' & _).
  rewrite Hrun. unfold bind, ret.
  exists s', frame, (mkComposer (composerPasses composer) (Some size)),
         (mkClock (autoStart clock) true).
  split; [done|]. split; [done|].
  assert (Hc2 : comp s' = set_animationId (_animationId (comp s')) (comp s2)).
  { rewrite <- Hcomp. by destruct (comp s'). }
  split; [by rewrite Hc2|]. split; [done|].
  split; [by rewrite Hc2|]. split; [done|].
  split.
  { rewrite Hl'. simpl. rewrite Hl. simpl.
    rewrite decide_False by (by intros [=]). by rewrite decide_True. }
  split; [done|]. split; [done|]. split; [done|]. by rewrite Hc2.
Qed.

Lemma first_resize_ties (s : State) (t : Term) (size : Q * Q) :
  Initialized s →
  _term (comp s) = Some t →
  resizeListeners (world s) = [(term t, onResize); (term t, resizeOnce)] →
  pending (world s) = [] →
  isTermActive (props (comp s)) = true →
  loop_tied (after (Resized (term t) size) s).
Proof.
  intros Hs Ht Hl Hp Hact.
  destruct (first_resize_Ok s t size Hs Ht Hl)
    as (s' & frame & composer & clock & Hrun & Hs' & _ & _ & _ & _ & Hl' & _ & Hp' & Hid & Hpr).
  unfold after. rewrite Hrun. simpl.
  split; [done|]. split.
  { rewrite Hl'. by intros tl ->%list_elem_of_singleton. }
  rewrite Hpr, Hact. exists frame. by rewrite Hp', Hp.
Qed.

Lemma loop_tied_after_all (evs : list Event) :
  ∀ s, loop_tied s → loop_tied (after_all evs s).
Proof.
  induction evs as [|ev evs IH]; intros s Hs; [done|].
  simpl. apply IH. by apply loop_tied_after.
Qed.

(** X11.  The first resize event after [_init]: the first listener sets the
    size of the composer, the second one unregisters itself, starts the clock
    and starts the loop, whose frame is requested and recorded in
    [_animationId]; the first listener stays registered. *)
Theorem first_resize_starts_the_loop (s : State) (t : Term) (size : Q * Q) :
  Initialized s →
  _term (comp s) = Some t →
  resizeListeners (world s) = [(term t, onResize); (term t, resizeOnce)] →
  ∃ s' frame composer clock,
    handle (Resized (term t) size) s = Ok tt s' ∧
    _composer (comp s') = Some composer ∧ composerSize composer = Some size ∧
    _clock (comp s') = Some clock ∧ running clock = true ∧
    resizeListeners (world s') = [(term t, onResize)] ∧
    fid frame = nextFrame (world s) ∧
    pending (world s') = pending (world s) ++ [frame] ∧
    _animationId (comp s') = Some (fid frame).
Proof.
  intros Hs Ht Hl.
  destruct (first_resize_Ok s t size Hs Ht Hl)
    as (s' & frame & composer & clock & Hrun & _ & H1 & H2 & H3 & H4 & H5 & H6 & H7 & H8 & _).
  by exists s', frame, composer, clock.
Qed.

(** X12.  Once the listener that starts the loop is gone and the frames
    requested match the tab (one frame, named by [_animationId], while the
    tab is active; none while it is not), every event keeps it so, however
    its handler ends: the render loop runs exactly while the tab is active. *)
Theorem loop_follows_the_tab (evs : list Event) (s : State) :
  loop_tied s →
  let s' := after_all evs s in
  Initialized s' ∧
  (∀ tl, tl ∈ resizeListeners (world s') → tl.2 = onResize) ∧
  if isTermActive (props (comp s'))
  then ∃ f, pending (world s') = [f] ∧ _animationId (comp s') = Some (fid f)
  else pending (world s') = [].
Proof.
  revert s. induction evs as [|ev evs IH]; intros s Hs; [exact Hs|].
  simpl. apply IH. by apply loop_tied_after.
Qed.

(** X13.  A component constructed in an active tab and initialized: when the
    first event that follows is a resize event, then after it, and after any
    events that follow, the render loop runs exactly while the tab is
    active. *)
Theorem loop_tied_from_the_first_resize (p : Props) (w : World) (t : Term) (scr : Node)
    (size size' : Q * Q) (evs : list Event) :
  fault_free (host w) →
  screenOf w !! termRef t = Some scr →
  bounds w !! term t = Some size →
  resizeListeners w = [] →
  pending w = [] →
  isTermActive p = true →
  loop_tied
    (after_all (Resized (term t) size' :: evs)
       (state_of (_init (mkState (set_term (Some t) (constructor p)) w)))).
Proof.
  intros Hf Hscr Hb Hl Hp Hact. simpl after_all. apply loop_tied_after_all.
  assert (Hlm : ∀ c m, _xTermLayerMap (set_term (Some t) (constructor p)) !! c = Some m →
                       is_Some (materials w !! m)).
  { intros c m H. simpl in H. by rewrite lookup_empty in H. }
  destruct (init_Initialized (mkState (set_term (Some t) (constructor p)) w) t scr size
              Hf eq_refl Hscr Hb Hlm) as (s' & Hrun & Hs').
  pose proof (init_Ok (mkState (set_term (Some t) (constructor p)) w) t scr size
                Hf eq_refl Hscr Hb) as Hrun'.
  cbv zeta in Hrun'. rewrite Hrun' in Hrun. injection Hrun as <-.
  rewrite Hrun'. simpl state_of.
  apply first_resize_ties; [exact Hs'|reflexivity| | |exact Hact].
  - simpl. by rewrite Hl.
  - simpl. exact Hp.
Qed.

(** ** What is set up once *)

Ltac fixtures_leaf :=
  try (intros; unfold fixtures; cbn [comp world]; cbn; rewrite ?length_alter; reflexivity).

Lemma stable_fixtures_receive_props (next : Props) : stable fixtures (receive_props next).
Proof. unfold fixtures. stable_go; fixtures_leaf. Qed.

Lemma stable_fixtures_run_listener (l : Listener) : stable fixtures (run_listener l).
Proof. destruct l; simpl; unfold fixtures; stable_go; fixtures_leaf. Qed.

Lemma stable_fixtures_emit_resize (t : XTerm) : stable fixtures (emit_resize t).
Proof.
  unfold emit_resize. apply stable_bind; [apply stable_host_get|intros ls].
  apply stable_for_of. apply stable_fixtures_run_listener.
Qed.

Lemma stable_fixtures_deliver_mutations (records : list MutationRecord) :
  stable fixtures (deliver_mutations records).
Proof. unfold fixtures. stable_go; fixtures_leaf. Qed.

Lemma stable_fixtures_animation_frame : stable fixtures animation_frame.
Proof. unfold fixtures. stable_go; fixtures_leaf. Qed.

Lemma fixtures_after (ev : Event) (s : State) :
  _isInit (comp s) = true → fixtures (after ev s) = fixtures s.
Proof.
  intros Hinit. unfold after.
  destruct ev as [t|next|t size|records|]; simpl handle.
  - unfold _onDecorated, bind, this, gets, host_set, modify, ret.
    destruct (onDecorated (props (comp s))); simpl; rewrite Hinit;
      destruct t; reflexivity.
  - apply stable_fixtures_receive_props.
  - unfold bind at 1. unfold host_set at 1, modify at 1.
    by rewrite stable_fixtures_emit_resize.
  - apply stable_fixtures_deliver_mutations.
  - apply stable_fixtures_animation_frame.
Qed.

Lemma fixtures_isInit (s s' : State) :
  fixtures s' = fixtures s → _isInit (comp s') = _isInit (comp s).
Proof. unfold fixtures. by intros [= -> _]. Qed.

Lemma fixtures_after_all (evs : list Event) :
  ∀ s, _isInit (comp s) = true → fixtures (after_all evs s) = fixtures s.
Proof.
  induction evs as [|ev evs IH]; intros s Hinit; [done|].
  simpl. pose proof (fixtures_after ev s Hinit) as H.
  rewrite IH; [done|]. by rewrite (fixtures_isInit _ _ H).
Qed.



(** X15.  What the handlers rely on after [_init] (the composer and the clock
    exist, every pass rendered by the override has its [separation] uniform,
    every shader pass has a material, every layer has its material) holds
    after every event, however the handler of the event ends. *)
Theorem initialized_stays_initialized (evs : list Event) (s : State) :
  Initialized s → Initialized (after_all evs s).
Proof.
  revert s. induction evs as [|ev evs IH]; intros s Hs; [exact Hs|].
  simpl. apply IH. apply (Initialized_continues s); [exact Hs|].
  apply continues_after. by destruct Hs.
Qed.

(** ** Unmounting *)

Lemma liftS_Ok {A} (m : M State A) (u : Mount) (a : A) (s : State) :
  m (inst u) = Ok a s →
  liftS m u = Ok a (mkMount s (released u) (xTermLayerMap_null u) (passes_null u)
                      (shaderPasses_null u)).
Proof. unfold liftS. by intros ->. Qed.

(** The loop of [destroy]: the scene is emptied, the texture of every mesh is
    disposed, the host is told of every material and geometry. *)
Lemma dispose_children_Ok (ms : list Mesh) :
  ∀ u : Mount,
    _scene (comp (inst u)) = Some (mkScene ms) →
    (∀ mesh, mesh ∈ ms → is_Some (materials (world (inst u)) !! material mesh)) →
    dispose_children ms u =
      Ok tt (mkMount
               (mkState (set_scene (Some (mkScene [])) (comp (inst u)))
                  (set_textures
                     (foldl (dispose_layer (materials (world (inst u))))
                        (textures (world (inst u))) ms)
                     (world (inst u))))
               (released u ++ layer_releases ms)
               (xTermLayerMap_null u) (passes_null u) (shaderPasses_null u)).
Proof.
  induction ms as [|mesh rest IH]; intros u Hsc Hmats.
  - simpl. unfold ret. rewrite app_nil_r.
    destruct u as [[c w] ? ? ? ?]. simpl in *. do 2 f_equal.
    f_equal; [by destruct c; simpl in *; subst | by destruct w].
  - destruct (Hmats mesh) as [mat Hmat]; [by left|].
    simpl dispose_children.
    unfold bind at 1. unfold liftS at 1, assign at 1, modify at 1.
    unfold bind at 1. unfold liftS at 1, host_get at 1, gets at 1. cbn [inst world comp].
    rewrite Hmat.
    unfold bind at 1. unfold deref at 1, ret at 1.
    unfold bind at 1. unfold liftS at 1, update_texture at 1, host_set at 1, modify at 1.
    cbn [inst world comp released xTermLayerMap_null passes_null shaderPasses_null].
    unfold bind at 1. unfold release at 1, modify at 1.
    cbn [inst world comp released xTermLayerMap_null passes_null shaderPasses_null].
    unfold bind at 1. unfold release at 1, modify at 1.
    cbn [inst world comp released xTermLayerMap_null passes_null shaderPasses_null].
    rewrite IH.
    + cbn [inst world comp released xTermLayerMap_null passes_null shaderPasses_null
           materials textures set_textures].
      simpl foldl.
      assert (Hd : dispose_layer (materials (world (inst u))) (textures (world (inst u))) mesh
                   = alter dispose (map mat) (textures (world (inst u)))).
      { unfold dispose_layer. by rewrite Hmat. }
      rewrite Hd.
      rewrite <- !app_assoc. reflexivity.
    + reflexivity.
    + intros m Hm. simpl. apply Hmats. by right.
Qed.

Ltac mount_step :=
  erewrite bind_Ok; [|reflexivity]; cbv beta;
  cbn [inst comp world released xTermLayerMap_null passes_null shaderPasses_null].

(** The state [destroy] leaves when the objects it releases are there. *)
Lemma destroy_Ok (u : Mount) (clock : Clock) (scene : Scene) (o c : nat)
    (composer : Composer) (r : Renderer) :
  _clock (comp (inst u)) = Some clock →
  _scene (comp (inst u)) = Some scene →
  (∀ mesh, mesh ∈ children scene →
           is_Some (materials (world (inst u)) !! material mesh)) →
  _layerObserver (comp (inst u)) = Some o →
  _canvas (comp (inst u)) = Some c →
  _composer (comp (inst u)) = Some composer →
  _renderer (comp (inst u)) = Some r →
  destroy u =
    Ok tt (mkMount
             (mkState (unmounted (comp (inst u)))
                (set_textures
                   (foldl (dispose_layer (materials (world (inst u))))
                      (textures (world (inst u))) (children scene))
                   (set_pending
                      (filter (fun f => Some (fid f) ≠ _animationId (comp (inst u)))
                         (pending (world (inst u))))
                      (world (inst u)))))
             (released u ++ layer_releases (children scene) ++
              [ObserverDisconnect o; CanvasRemove c; ComposerDispose; RendererDispose;
               ForceContextLoss; ContextNull; DomElementNull])
             true true true).
Proof.
  intros Hcl Hsc Hm Hlo Hcv Hco Hr.
  unfold destroy.
  mount_step. mount_step. rewrite Hcl. mount_step. mount_step.
  mount_step. replace (_scene _) with (Some scene) by (by rewrite <- Hsc). mount_step.
  erewrite bind_Ok.
  2:{ apply dispose_children_Ok; [simpl; rewrite Hsc; by destruct scene | exact Hm]. }
  cbv beta. cbn [inst comp world released xTermLayerMap_null passes_null shaderPasses_null].
  mount_step. replace (_layerObserver _) with (Some o) by (by rewrite <- Hlo).
  mount_step. mount_step.
  mount_step. replace (_canvas _) with (Some c) by (by rewrite <- Hcv).
  mount_step. mount_step.
  mount_step. replace (_composer _) with (Some composer) by (by rewrite <- Hco).
  mount_step. mount_step.
  mount_step. replace (_renderer _) with (Some r) by (by rewrite <- Hr).
  mount_step. mount_step. mount_step. mount_step. mount_step.
  do 13 mount_step.
  unfold liftS, assign, modify.
  cbn [inst comp world released xTermLayerMap_null passes_null shaderPasses_null].
  rewrite <- !app_assoc. simpl. reflexivity.
Qed.

(** The textures after the loop of [destroy]. *)
Lemma disposed_untouched (mats : list Material) (ms : list Mesh) (i : nat) :
  ∀ ts,
    (∀ mesh mat, mesh ∈ ms → mats !! material mesh = Some mat → map mat ≠ i) →
    foldl (dispose_layer mats) ts ms !! i = ts !! i.
Proof.
  induction ms as [|mesh rest IH]; intros ts H; [done|].
  simpl. rewrite IH by (intros m mat Hm; apply H; by right).
  unfold dispose_layer. destruct (mats !! material mesh) as [mat|] eqn:Hmat; [|done].
  apply list_lookup_alter_ne. apply (H mesh mat); [by left|done].
Qed.

Lemma disposed_step (mats : list Material) (mesh : Mesh) (ts : list Texture) (i : nat)
    (t : Texture) :
  ts !! i = Some t →
  dispose_layer mats ts mesh !! i = Some t ∨
  dispose_layer mats ts mesh !! i = Some (dispose t).
Proof.
  intros Ht. unfold dispose_layer. destruct (mats !! material mesh) as [mat|]; [|by left].
  destruct (decide (map mat = i)) as [->|Hne].
  - right. by rewrite list_lookup_alter_eq, Ht.
  - left. by rewrite list_lookup_alter_ne.
Qed.

Lemma disposed_kept (mats : list Material) (ms : list Mesh) (i : nat) :
  ∀ ts t,
    ts !! i = Some t →
    foldl (dispose_layer mats) ts ms !! i = Some t ∨
    foldl (dispose_layer mats) ts ms !! i = Some (dispose t).
Proof.
  induction ms as [|mesh rest IH]; intros ts t Ht; [by left|].
  simpl. destruct (disposed_step mats mesh ts i t Ht) as [H|H].
  - by apply IH.
  - destruct (IH _ _ H) as [H'|H']; right; [done|by rewrite dispose_idemp in H'].
Qed.

Lemma disposed_touched (mats : list Material) (ms : list Mesh) (mesh : Mesh)
    (mat : Material) :
  ∀ ts t,
    mesh ∈ ms → mats !! material mesh = Some mat → ts !! map mat = Some t →
    foldl (dispose_layer mats) ts ms !! map mat = Some (dispose t).
Proof.
  induction ms as [|m rest IH]; intros ts t Hin Hmat Ht.
  - by apply elem_of_nil in Hin.
  - simpl. apply elem_of_cons in Hin as [<-|Hin].
    + assert (H : dispose_layer mats ts mesh !! map mat = Some (dispose t)).
      { unfold dispose_layer. by rewrite Hmat, list_lookup_alter_eq, Ht. }
      destruct (disposed_kept mats rest (map mat) _ _ H) as [H'|H']; [done|].
      by rewrite dispose_idemp in H'.
    + destruct (disposed_step mats m ts (map mat) t Ht) as [H|H].
      * by apply IH.
      * rewrite (IH _ _ Hin Hmat H). by rewrite dispose_idemp.
Qed.

Lemma Destroyable_inv (s : State) :
  Destroyable s →
  ∃ clock scene o c composer r,
    _clock (comp s) = Some clock ∧ _scene (comp s) = Some scene ∧
    (∀ mesh, mesh ∈ children scene → is_Some (materials (world s) !! material mesh)) ∧
    _layerObserver (comp s) = Some o ∧ _canvas (comp s) = Some c ∧
    _composer (comp s) = Some composer ∧ _renderer (comp s) = Some r.
Proof.
  intros ([clock ?] & (scene & ? & ?) & [o ?] & [c ?] & [composer ?] & [r ?]).
  by exists clock, scene, o, c, composer, r.
Qed.

(** X16.  [componentWillUnmount] of an initialized component whose scene,
    clock, observer, canvas, composer and renderer exist returns normally.
    Afterwards [_isInit] is false and every other field but [props] and
    [_animationId] is [null]; the host has been told to dispose the material
    and the geometry of every mesh, in the order of the meshes, then to
    disconnect the observer, remove the canvas, dispose the composer and the
    renderer and lose the context. *)
Theorem unmount_clears_the_component (s : State) :
  _isInit (comp s) = true → Destroyable s →
  ∃ u' scene o c,
    componentWillUnmount (mounted s) = Ok tt u' ∧
    comp (inst u') = unmounted (comp s) ∧
    xTermLayerMap_null u' = true ∧ passes_null u' = true ∧ shaderPasses_null u' = true ∧
    _scene (comp s) = Some scene ∧ _layerObserver (comp s) = Some o ∧
    _canvas (comp s) = Some c ∧
    released u' =
      layer_releases (children scene) ++
      [ObserverDisconnect o; CanvasRemove c; ComposerDispose; RendererDispose;
       ForceContextLoss; ContextNull; DomElementNull].
Proof.
  intros Hinit (clock & scene & o & c & composer & r & Hcl & Hsc & Hm & Hlo & Hcv & Hco & Hr)
    %Destroyable_inv.
  unfold componentWillUnmount.
  unfold bind at 1. unfold liftS at 1, this at 1, gets at 1.
  cbn [inst mounted released xTermLayerMap_null passes_null shaderPasses_null].
  rewrite Hinit.
  rewrite (destroy_Ok (mkMount s [] false false false) clock scene o c composer r
             Hcl Hsc Hm Hlo Hcv Hco Hr).
  eexists _, scene, o, c. split; [reflexivity|]. done.
Qed.

(** X17.  [componentWillUnmount] disposes the texture of the material of
    every mesh of the scene, leaves every other texture and every material as
    it is, and cancels the frame [_animationId] names. *)
Theorem unmount_disposes_the_layers (s : State) :
  _isInit (comp s) = true → Destroyable s →
  ∃ u' scene,
    componentWillUnmount (mounted s) = Ok tt u' ∧
    _scene (comp s) = Some scene ∧
    (∀ mesh mat t,
       mesh ∈ children scene →
       materials (world s) !! material mesh = Some mat →
       textures (world s) !! map mat = Some t →
       textures (world (inst u')) !! map mat = Some (dispose t)) ∧
    (∀ i, (∀ mesh mat, mesh ∈ children scene →
                       materials (world s) !! material mesh = Some mat → map mat ≠ i) →
          textures (world (inst u')) !! i = textures (world s) !! i) ∧
    pending (world (inst u')) =
      filter (fun f => Some (fid f) ≠ _animationId (comp s)) (pending (world s)) ∧
    materials (world (inst u')) = materials (world s).
Proof.
  intros Hinit (clock & scene & o & c & composer & r & Hcl & Hsc & Hm & Hlo & Hcv & Hco & Hr)
    %Destroyable_inv.
  unfold componentWillUnmount.
  unfold bind at 1. unfold liftS at 1, this at 1, gets at 1.
  cbn [inst mounted released xTermLayerMap_null passes_null shaderPasses_null].
  rewrite Hinit.
  rewrite (destroy_Ok (mkMount s [] false false false) clock scene o c composer r
             Hcl Hsc Hm Hlo Hcv Hco Hr).
  eexists _, scene. split; [reflexivity|]. split; [done|].
  cbn [inst world textures set_textures set_pending pending materials].
  split; [|split; [|done]].
  - intros mesh mat t Hin Hmat Ht. by apply (disposed_touched _ _ mesh).
  - intros i Hi. by apply disposed_untouched.
Qed.

(** X18.  [destroy] does not unregister the listeners of xterm's resize
    event.  A resize event after the component has been unmounted runs the
    first of them, which throws a TypeError on [this._term], now [null],
    before it reads anything else. *)
Theorem unmount_leaves_the_listeners (s : State) :
  _isInit (comp s) = true → Destroyable s →
  ∃ u',
    componentWillUnmount (mounted s) = Ok tt u' ∧
    resizeListeners (world (inst u')) = resizeListeners (world s) ∧
    ∀ t l ls,
      (filter (fun tl : XTerm * Listener => tl.1 = t) (resizeListeners (world s))).*2
      = l :: ls →
      ∃ what, emit_resize t (inst u') = Throw (TypeError what) (inst u').
Proof.
  intros Hinit (clock & scene & o & c & composer & r & Hcl & Hsc & Hm & Hlo & Hcv & Hco & Hr)
    %Destroyable_inv.
  unfold componentWillUnmount.
  unfold bind at 1. unfold liftS at 1, this at 1, gets at 1.
  cbn [inst mounted released xTermLayerMap_null passes_null shaderPasses_null].
  rewrite Hinit.
  rewrite (destroy_Ok (mkMount s [] false false false) clock scene o c composer r
             Hcl Hsc Hm Hlo Hcv Hco Hr).
  eexists. split; [reflexivity|]. split; [reflexivity|].
  intros t l ls Hls. cbn [inst].
  unfold emit_resize. unfold bind at 1. unfold host_get at 1, gets at 1.
  cbn [world set_textures set_pending resizeListeners]. rewrite Hls.
  simpl for_of. unfold bind at 1.
  destruct l; simpl run_listener.
  - exists "this._term". reflexivity.
  - exists "that._term". reflexivity.
Qed.

Lemma init_Destroyable (c : Component) (w : World) (t : Term) (scr : Node) (size : Q * Q)
    (cs : list Canvas) :
  Destroyable (mkState (init_comp c w t scr size cs) (init_world w t scr cs)).
Proof.
  split; [by eexists|]. split.
  { eexists. split; [reflexivity|]. intros mesh Hmesh.
    cbn [children] in Hmesh. unfold layer_meshes in Hmesh.
    apply list_elem_of_lookup_1 in Hmesh as [i Hi].
    rewrite list_lookup_imap in Hi.
    destruct (cs !! i) as [x|] eqn:Hx; [|done]. simpl in Hi. injection Hi as <-.
    apply lookup_lt_Some in Hx. apply lookup_lt_is_Some_2.
    cbn [world init_world materials material].
    unfold layer_materials. rewrite length_app, length_imap. lia. }
  repeat split; by eexists.
Qed.

Lemma Destroyable_fixtures (s s' : State) :
  Destroyable s → fixtures s' = fixtures s → Initialized s' → Destroyable s'.
Proof.
  intros (_ & (scene & Hsc & Hm) & Hlo & Hcv & _ & Hr) Hfix (_ & (composer & Hco & _) & Hcl & _).
  unfold fixtures in Hfix.
  injection Hfix as _ _ _ _ Hcv' Hsc' Hr' _ Hlo' _ _ _ _ _ _ _ Hlen.
  split; [done|]. split.
  { exists scene. split; [by rewrite Hsc'|]. intros mesh Hmesh.
    apply lookup_lt_is_Some_2. rewrite Hlen. apply lookup_lt_is_Some_1. by apply Hm. }
  split; [by rewrite Hlo'|]. split; [by rewrite Hcv'|].
  split; [by eexists|]. by rewrite Hr'.
Qed.

(** X19.  After a successful [_init] of a newly constructed component, and
    whatever events have followed, [componentWillUnmount] returns normally
    and releases what [_init] has created: one material and one geometry for
    each canvas of the screen, the observer and the canvas. *)
Theorem unmount_succeeds_after_init (p : Props) (w : World) (t : Term) (scr : Node)
    (size : Q * Q) (evs : list Event) :
  fault_free (host w) →
  screenOf w !! termRef t = Some scr →
  bounds w !! term t = Some size →
  ∃ u',
    componentWillUnmount
      (mounted (after_all evs
                  (state_of (_init (mkState (set_term (Some t) (constructor p)) w)))))
    = Ok tt u' ∧
    _isInit (comp (inst u')) = false ∧
    released u' =
      layer_releases
        (layer_meshes size (length (materials w)) (default [] (canvasesOf w !! scr))) ++
      [ObserverDisconnect (length (observers w)); CanvasRemove (created w);
       ComposerDispose; RendererDispose; ForceContextLoss; ContextNull; DomElementNull].
Proof.
  intros Hf Hscr Hb.
  pose proof (Initialized_after_init p w t scr size evs Hf Hscr Hb) as Hs1.
  pose proof (init_Ok (mkState (set_term (Some t) (constructor p)) w) t scr size
                Hf eq_refl Hscr Hb) as Hrun.
  cbv zeta in Hrun. cbn [world comp] in Hrun. rewrite Hrun in *. cbn [state_of] in *.
  set (cs := default [] (canvasesOf w !! scr)) in *.
  set (s0 := mkState (init_comp _ w t scr size cs) (init_world w t scr cs)) in *.
  set (s1 := after_all evs s0) in *.
  assert (Hfix : fixtures s1 = fixtures s0) by (by apply fixtures_after_all).
  assert (Hd : Destroyable s1).
  { apply (Destroyable_fixtures s0); [apply init_Destroyable|done|done]. }
  pose proof Hs1 as (Hinit & _).
  apply Destroyable_inv in Hd
    as (clock & scene & o & c & composer & r & Hcl & Hsc & Hm & Hlo & Hcv & Hco & Hr).
  unfold componentWillUnmount.
  unfold bind at 1. unfold liftS at 1, this at 1, gets at 1.
  cbn [inst mounted released xTermLayerMap_null passes_null shaderPasses_null].
  rewrite Hinit.
  rewrite (destroy_Ok (mkMount s1 [] false false false) clock scene o c composer r
             Hcl Hsc Hm Hlo Hcv Hco Hr).
  eexists. split; [reflexivity|]. split; [reflexivity|].
  cbn [released]. unfold fixtures in Hfix.
  injection Hfix as _ _ _ _ Hcv' Hsc' _ _ Hlo' _ _ _ _ _ _ _ _.
  rewrite Hsc in Hsc'. rewrite Hlo in Hlo'. rewrite Hcv in Hcv'.
  subst s0. cbn [comp init_comp _scene _layerObserver _canvas] in Hsc', Hlo', Hcv'.
  injection Hsc' as ->. injection Hlo' as ->. injection Hcv' as ->. reflexivity.
Qed.

(** ** Initialization that fails half-way *)

(** The state in which [_init] throws when the container of the term has no
    xterm screen: the passes are made, and [_isInit] is set already. *)
Lemma init_no_screen (s : State) (t : Term) :
  fault_free (host (world s)) →
  _term (comp s) = Some t →
  screenOf (world s) !! termRef t = None →
  _init s =
    Throw (TypeError "this._xTermScreen")
      (mkState
         (set_xTermScreen None (set_container (Some (termRef t)) (set_isInit true (comp s))))
         (set_console
            (console (world s) ++
             [Log "start init"; Log "made passes"; Log "checked length of passes"])
            (set_passObjs
               (passObjs (world s) ++ [crtPass (host (world s)); curvedPass (host (world s))])
               (world s)))).
Proof.
  intros Hf Ht Hscr.
  pose (w0 := set_console (console (world s) ++ [Log "start init"]) (world s)).
  assert (H0 : Passes.createPasses w0 =
               Ok (Some [length (passObjs w0); S (length (passObjs w0))])
                  (set_passObjs (passObjs w0 ++ [crtPass (host w0); curvedPass (host w0)]) w0)).
  { apply createPasses_Ok, construct_fault_free. exact Hf. }
  unfold _init.
  rewrite (bind_Ok _ _ s tt (mkState (comp s) w0)) by reflexivity.
  rewrite (bind_Ok _ _ _ _ _ (liftW_Ok _ (mkState (comp s) w0) _ _ H0)).
  unfold bind at 1. unfold liftW at 1, console_log at 1, modify at 1.
  cbn [world comp].
  unfold bind at 1. unfold liftW at 1, console_log at 1, modify at 1.
  cbn [world comp].
  unfold bind at 1. unfold assign at 1, modify at 1. cbn [world comp].
  unfold bind at 1. unfold this at 1, gets at 1. cbn [world comp].
  replace (_term (set_isInit true (comp s))) with (Some t) by (by rewrite <- Ht).
  unfold bind at 1. unfold deref at 1, ret at 1.
  unfold bind at 1. unfold assign at 1, modify at 1. cbn [world comp].
  unfold bind at 1. unfold host_get at 1, gets at 1. cbn [world comp].
  replace (screenOf _ !! termRef t) with (@None Node) by (by rewrite <- Hscr).
  unfold bind at 1. unfold assign at 1, modify at 1. cbn [world comp].
  unfold bind at 1. unfold deref at 1, throw at 1.
  subst w0. f_equal. f_equal. destruct s as [co w]; destruct w; simpl.
  by rewrite <- !app_assoc.
Qed.

(** X20.  When the container of the term has no xterm screen, [_init] throws
    a TypeError after it has set [_isInit]: no scene, clock, composer,
    observer or listener is created, and every later call of [_onDecorated]
    only forwards to the chained callback, so the initialization is never
    tried again. *)
Theorem init_without_screen_throws (s : State) (t : Term) :
  fault_free (host (world s)) →
  _term (comp s) = Some t →
  screenOf (world s) !! termRef t = None →
  ∃ s',
    _init s = Throw (TypeError "this._xTermScreen") s' ∧
    _isInit (comp s') = true ∧
    _container (comp s') = Some (termRef t) ∧
    _xTermScreen (comp s') = None ∧
    _canvas (comp s') = _canvas (comp s) ∧
    _scene (comp s') = _scene (comp s) ∧
    _clock (comp s') = _clock (comp s) ∧
    _composer (comp s') = _composer (comp s) ∧
    _layerObserver (comp s') = _layerObserver (comp s) ∧
    observers (world s') = observers (world s) ∧
    resizeListeners (world s') = resizeListeners (world s) ∧
    created (world s') = created (world s) ∧
    ∀ t', ∃ s'', _onDecorated t' s' = Ok tt s'' ∧ comp s'' = comp s'.
Proof.
  intros Hf Ht Hscr. rewrite (init_no_screen s t Hf Ht Hscr).
  eexists. split; [reflexivity|]. repeat (split; [reflexivity|]).
  intros t'. unfold _onDecorated, bind, this, gets, host_set, modify, ret.
  cbn [comp world].
  destruct (onDecorated _); destruct t'; eexists; split; reflexivity.
Qed.

(** X21.  A component whose [_init] has thrown for want of an xterm screen
    counts as initialized; [componentWillUnmount] then calls [destroy], which
    throws a TypeError on [this._clock] before it releases anything. *)
Theorem unmount_after_failed_init_throws (p : Props) (w : World) (t : Term) :
  fault_free (host w) →
  screenOf w !! termRef t = None →
  ∃ s' u',
    _init (mkState (set_term (Some t) (constructor p)) w)
    = Throw (TypeError "this._xTermScreen") s' ∧
    componentWillUnmount (mounted s') = Throw (TypeError "this._clock") u' ∧
    comp (inst u') = comp s' ∧ released u' = [].
Proof.
  intros Hf Hscr.
  rewrite (init_no_screen (mkState (set_term (Some t) (constructor p)) w) t Hf eq_refl Hscr).
  eexists _, _. split; [reflexivity|].
  split; [reflexivity|]. split; reflexivity.
Qed.

(** ** Initialization when the passes cannot be stored *)





(** ** Replacing a canvas that is no layer *)

(** [_replaceTexture] for a canvas that is no key of the layer map: the new
    texture is made, then reading the map of the material throws. *)
Lemma replaceTexture_unknown (s : State) (r : Node) (a : option Node) :
  _xTermLayerMap (comp s) !! r = None →
  _replaceTexture r a s =
    Throw (TypeError "affectedMaterial")
      (mkState (comp s)
         (set_textures (textures (world s) ++ [mkTexture a LinearFilter true false])
            (world s))).
Proof.
  intros Hr. unfold _replaceTexture.
  unfold bind at 1. unfold this at 1, gets at 1. rewrite Hr.
  unfold bind at 1. unfold new_CanvasTexture at 1.
  unfold bind at 1. unfold update_texture at 1, host_set at 1, modify at 1.
  cbn [comp world].
  unfold bind at 1. unfold deref at 1, throw at 1.
  f_equal. f_equal. cbn [textures set_textures].
  rewrite alter_last. by destruct s as [? []].
Qed.

(** X23.  When the first removed node of the first record is no key of the
    layer map, the handler throws a TypeError: it has made one texture, of
    the first added node, which no material uses; no texture is disposed, no
    material changes, and the other nodes of the record are not looked at. *)
Theorem replacement_of_unknown_canvas_throws (s : State) (e : MutationRecord)
    (rest : list MutationRecord) (c : Node) (cs : list Node) :
  removedNodes e = c :: cs →
  _xTermLayerMap (comp s) !! c = None →
  ∃ s',
    deliver_mutations (e :: rest) s = Throw (TypeError "affectedMaterial") s' ∧
    comp s' = comp s ∧
    materials (world s') = materials (world s) ∧
    textures (world s') =
      textures (world s) ++ [mkTexture (head (addedNodes e)) LinearFilter true false].
Proof.
  intros Hrem Hc.
  unfold deliver_mutations, _onCanvasReplacement.
  unfold bind at 1. unfold deref at 1, ret at 1. cbn [head].
  unfold paired. rewrite Hrem. cbn [imap]. simpl for_of.
  unfold bind at 1. rewrite (replaceTexture_unknown s c _ Hc).
  eexists. split; [reflexivity|]. cbn [comp world materials textures set_textures].
  split; [done|]. split; [done|]. by destruct (addedNodes e).
Qed.

(** X24.  The layer map is filled by [_init] and never written again.  So
    after a successful [_init] of a new component, and whatever has followed,
    a record whose first removed node is not one of the canvases found at
    [_init] (a canvas that replaced one of them, for one) makes the handler
    throw. *)
Theorem only_the_first_canvases_are_layers (p : Props) (w : World) (t : Term) (scr : Node)
    (size : Q * Q) (evs : list Event) (e : MutationRecord) (rest : list MutationRecord)
    (c : Node) (cs : list Node) :
  fault_free (host w) →
  screenOf w !! termRef t = Some scr →
  bounds w !! term t = Some size →
  removedNodes e = c :: cs →
  c ∉ default [] (canvasesOf w !! scr) →
  let s := after_all evs (state_of (_init (mkState (set_term (Some t) (constructor p)) w))) in
  ∃ s',
    deliver_mutations (e :: rest) s = Throw (TypeError "affectedMaterial") s' ∧
    comp s' = comp s ∧ materials (world s') = materials (world s).
Proof.
  intros Hf Hscr Hb Hrem Hc s.
  pose proof (init_Ok (mkState (set_term (Some t) (constructor p)) w) t scr size
                Hf eq_refl Hscr Hb) as Hrun.
  cbv zeta in Hrun. cbn [world comp] in Hrun.
  assert (Hlm : _xTermLayerMap (comp s) !! c = None).
  { subst s. rewrite Hrun. cbn [state_of].
    match goal with |- context [after_all evs ?s0] =>
      pose proof (fixtures_after_all evs s0 eq_refl) as Hfix end.
    unfold fixtures in Hfix. injection Hfix as _ _ _ _ _ _ _ _ _ Hmap _ _ _ _ _ _ _.
    rewrite Hmap. cbn [comp init_comp _xTermLayerMap].
    rewrite layer_map_notin by done. apply lookup_empty. }
  unfold deliver_mutations, _onCanvasReplacement.
  unfold bind at 1. unfold deref at 1, ret at 1. cbn [head].
  unfold paired. rewrite Hrem. cbn [imap]. simpl for_of.
  unfold bind at 1. rewrite (replaceTexture_unknown s c _ Hlm).
  eexists. split; [reflexivity|]. split; reflexivity.
Qed.

(** ** Resizing twice *)

Lemma with_uniform_commute (k1 k2 : string) (v1 v2 : UVal) (o : Pass) :
  k1 ≠ k2 →
  with_uniform k1 v1 (with_uniform k2 v2 o) = with_uniform k2 v2 (with_uniform k1 v1 o).
Proof.
  intros Hne. unfold with_uniform.
  destruct (fullscreenMaterial o) as [m|] eqn:Hm; [|by rewrite Hm].
  destruct (muniforms m !! k2) eqn:H2; destruct (muniforms m !! k1) eqn:H1;
    simpl; rewrite ?Hm; simpl; rewrite ?lookup_insert_ne by done;
    rewrite ?H1, ?H2; simpl; try done.
  unfold set_fullscreenMaterial. simpl. by rewrite insert_insert_ne.
Qed.

Lemma resized_passes_idemp (size : Q * Q) (sp : list PassRef) (objs : list Pass) :
  resized_passes size sp (resized_passes size sp objs) = resized_passes size sp objs.
Proof.
  unfold resized_passes. apply list_eq. intros p.
  rewrite !list_lookup_imap. destruct (objs !! p) as [o|]; [|done]. simpl.
  case_decide; [|done]. f_equal.
  rewrite (with_uniform_commute "aspect" "resolution") by done.
  by rewrite !with_uniform_idemp.
Qed.

(** X25.  The resize listener is idempotent: run again while the size of the
    terminal is the same, it leaves the state as the first run has left
    it. *)
Theorem resize_twice_is_resize_once (s : State) (t : Term) (size : Q * Q) :
  Initialized s →
  _term (comp s) = Some t →
  bounds (world s) !! term t = Some size →
  ∃ s', on_resize_listener s = Ok tt s' ∧ on_resize_listener s' = Ok tt s'.
Proof.
  intros Hs Ht Hb. pose proof Hs as (_ & (composer & Hco & _) & _).
  pose proof (on_resize_listener_Ok s t size composer Hs Ht Hb Hco) as Hr1.
  set (s1 := mkState _ _) in Hr1.
  assert (Hs1 : Initialized s1).
  { pose proof (Initialized_state_of _ s keeps_on_resize_listener Hs) as H.
    by rewrite Hr1 in H. }
  exists s1. split; [exact Hr1|].
  rewrite (on_resize_listener_Ok s1 t size (mkComposer (composerPasses composer) (Some size))
             Hs1 Ht Hb eq_refl).
  subst s1. cbn [comp world passObjs set_passObjs _shaderPasses set_composer composerPasses].
  rewrite resized_passes_idemp. reflexivity.
Qed.

(** ** src/index.js, the older component: parsing the shaders *)


Section ParseProofs.
Variable fromString : string → M World (option PassRef).
Variable fromOptions : nat → M World (option PassRef).
Variable term : option Term.

Local Abbreviation parse := (Legacy._parseShadersFromConfig fromString fromOptions term).





Lemma map_items_no_shader (items : list Legacy.Config) (w : World) :
  Forall (fun c => Legacy.no_shader c = true) items →
  ∃ all, Legacy.map_items parse items w = Ok all w ∧
         filter (fun item => Legacy.truthy item = true) all = [].
Proof.
  induction 1 as [|c items Hc _ (all & Hrun & Hall)].
  - by exists [].
  - exists (Legacy.SNull :: all). split; [|by rewrite filter_cons_False].
    simpl. unfold bind at 1.
    assert (Hp : parse c w = Ok Legacy.SNull w).
    { destruct c as [| |b|q|s|?|?|?]; try done; [by destruct b|by destruct s]. }
    rewrite Hp. unfold bind. by rewrite Hrun.
Qed.




End ParseProofs.


(** X27.  An array whose items are all falsy values, numbers or booleans
    (the empty array among them) parses to [null], without a call of the
    shader loader and without a change of the host. *)
Theorem parse_of_no_shaders_is_null
    (fromString : string → M World (option PassRef))
    (fromOptions : nat → M World (option PassRef)) (term : option Term)
    (items : list Legacy.Config) (w : World) :
  Forall (fun c => Legacy.no_shader c = true) items →
  Legacy._parseShadersFromConfig fromString fromOptions term (Legacy.CArr items) w
  = Ok Legacy.SNull w.
Proof.
  intros H.
  destruct (map_items_no_shader fromString fromOptions term items w H) as (all & Hrun & Hall).
  simpl. unfold bind. rewrite Hrun, Hall. reflexivity.
Qed.


(** ** The properties above on the concrete terminal *)

(** X1 on the concrete terminal. *)
Lemma decorateConfig_idempotent_witness :
  [demo_config] !! 0 = Some demo_config ∧
  ∃ r1 h1 r2 h2 o',
    Theme.decorateConfig 0 [demo_config] = (r1, h1) ∧
    Theme.decorateConfig r1 h1 = (r2, h2) ∧
    r2 ≠ r1 ∧ h1 !! r2 = None ∧
    h1 !! r1 = Some o' ∧ h2 !! r1 = Some o' ∧ h2 !! r2 = Some o'.
Proof.
  split; [reflexivity|].
  apply (decorateConfig_idempotent [demo_config] 0 demo_config). reflexivity.
Defined.

(** X2 on the concrete terminal. *)
Lemma decorateHyper_render_props_witness :
  [demo_config] !! 0 = Some demo_config ∧
  ∃ r h' o',
    Theme.decorateHyper.render demo_printer 0 [demo_config] = Some (r, h') ∧
    r ≠ 0 ∧ [demo_config] !! r = None ∧ h' !! r = Some o' ∧
    o' !! "backgroundColor" = Some (Theme.VStr "black") ∧
    (∀ s, demo_config !! "customCSS" = Some (Theme.VStr s) →
          o' !! "customCSS" = Some (Theme.VStr (Theme.decorateHyper.customCSS s))) ∧
    (demo_config !! "customCSS" = None →
     o' !! "customCSS" = Some (Theme.VStr (Theme.decorateHyper.customCSS EmptyString))) ∧
    (∀ k, k ≠ "backgroundColor" → k ≠ "customCSS" → o' !! k = demo_config !! k) ∧
    (∀ l x, [demo_config] !! l = Some x → h' !! l = Some x).
Proof.
  split; [reflexivity|].
  apply (decorateHyper_render_props demo_printer [demo_config] 0 demo_config). reflexivity.
Defined.

(** X3 on the concrete terminal. *)
Lemma decorateTerm_render_props_witness :
  [demo_config] !! 0 = Some demo_config ∧
  ∃ r h' o',
    Theme.decorateTerm.render demo_printer 0 [demo_config] = Some (r, h') ∧
    r ≠ 0 ∧ [demo_config] !! r = None ∧ h' !! r = Some o' ∧
    (∀ s, demo_config !! "customCSS" = Some (Theme.VStr s) →
          o' !! "customCSS" = Some (Theme.VStr (Theme.decorateTerm.customCSS s))) ∧
    (demo_config !! "customCSS" = None →
     o' !! "customCSS" = Some (Theme.VStr (Theme.decorateTerm.customCSS EmptyString))) ∧
    (∀ k, k ≠ "customCSS" → o' !! k = demo_config !! k) ∧
    (∀ l x, [demo_config] !! l = Some x → h' !! l = Some x).
Proof.
  split; [reflexivity|].
  apply (decorateTerm_render_props demo_printer [demo_config] 0 demo_config). reflexivity.
Defined.

(** X4 on the concrete terminal. *)
Lemma decorateConfig_appends_css_witness :
  [demo_config] !! 0 = Some demo_config ∧
  ∃ r h' o',
    PostProcessing.decorateConfig demo_printer 0 [demo_config] = Some (r, h') ∧
    r ≠ 0 ∧ [demo_config] !! r = None ∧ h' !! r = Some o' ∧
    (∀ s, demo_config !! "css" = Some (Theme.VStr s) →
          o' !! "css" = Some (Theme.VStr (PostProcessing.css s))) ∧
    (demo_config !! "css" = None →
     o' !! "css" = Some (Theme.VStr (PostProcessing.css EmptyString))) ∧
    (∀ k, k ≠ "css" → o' !! k = demo_config !! k) ∧
    (∀ l x, [demo_config] !! l = Some x → h' !! l = Some x).
Proof.
  split; [reflexivity|].
  apply (decorateConfig_appends_css demo_printer [demo_config] 0 demo_config). reflexivity.
Defined.

(** X5 on the concrete terminal. *)
Lemma decorators_commute_witness :
  [demo_config] !! 0 = Some demo_config ∧
  ∃ r1 h1 r2 h2 r1' h1' r2' h2' o',
    Theme.decorateConfig 0 [demo_config] = (r1, h1) ∧
    PostProcessing.decorateConfig demo_printer r1 h1 = Some (r2, h2) ∧
    PostProcessing.decorateConfig demo_printer 0 [demo_config] = Some (r1', h1') ∧
    Theme.decorateConfig r1' h1' = (r2', h2') ∧
    h2 !! r2 = Some o' ∧ h2' !! r2' = Some o'.
Proof.
  split; [reflexivity|].
  apply (decorators_commute demo_printer [demo_config] 0 demo_config). reflexivity.
Defined.

(** X6 on the concrete terminal. *)
Lemma render_passes_the_props_on_witness :
  [demo_config] !! 0 = Some demo_config ∧
  ∃ r h' o',
    PostProcessing.render 9 0 [demo_config] = (r, h') ∧
    r ≠ 0 ∧ [demo_config] !! r = None ∧ h' !! r = Some o' ∧
    o' !! "onDecorated" = Some (Theme.VRef 9) ∧
    (∀ k, k ≠ "onDecorated" → o' !! k = demo_config !! k) ∧
    (∀ l x, [demo_config] !! l = Some x → h' !! l = Some x).
Proof.
  split; [reflexivity|].
  apply (render_passes_the_props_on 9 [demo_config] 0 demo_config). reflexivity.
Defined.








Lemma demo_ready_term : _term (comp demo_ready) = Some demo_term.
Proof. vm_compute. reflexivity. Qed.

Lemma demo_ready_listeners :
  resizeListeners (world demo_ready) =
    [(term demo_term, onResize); (term demo_term, resizeOnce)].
Proof. vm_compute. reflexivity. Qed.

Lemma demo_ready_pending : pending (world demo_ready) = [].
Proof. vm_compute. reflexivity. Qed.

Lemma demo_ready_active : isTermActive (props (comp demo_ready)) = true.
Proof. vm_compute. reflexivity. Qed.

Lemma demo_ready_bounds :
  bounds (world demo_ready) !! term demo_term = Some (800%Q, 600%Q).
Proof. vm_compute. reflexivity. Qed.

Lemma demo_looping_tied : loop_tied demo_looping.
Proof.
  unfold demo_looping.
  apply first_resize_ties;
    [exact demo_ready_Initialized | exact demo_ready_term | exact demo_ready_listeners
    |exact demo_ready_pending | exact demo_ready_active].
Qed.

Lemma demo_ready_explicit :
  demo_ready =
    mkState (init_comp (comp demo_decorated) (world demo_decorated) demo_term 11
               (800%Q, 600%Q) (default [] (canvasesOf (world demo_decorated) !! 11)))
            (init_world (world demo_decorated) demo_term 11
               (default [] (canvasesOf (world demo_decorated) !! 11))).
Proof.
  unfold demo_ready.
  rewrite (init_Ok demo_decorated demo_term 11 (800%Q, 600%Q)
             demo_fault_free demo_term_set demo_screen demo_bounds).
  reflexivity.
Qed.

Lemma demo_ready_Destroyable : Destroyable demo_ready.
Proof. rewrite demo_ready_explicit. apply init_Destroyable. Qed.

(** X11 on the concrete terminal. *)
Lemma first_resize_starts_the_loop_witness :
  Initialized demo_ready ∧
  _term (comp demo_ready) = Some demo_term ∧
  resizeListeners (world demo_ready) =
    [(term demo_term, onResize); (term demo_term, resizeOnce)] ∧
  ∃ s' frame composer clock,
    handle (Resized (term demo_term) (1024%Q, 768%Q)) demo_ready = Ok tt s' ∧
    _composer (comp s') = Some composer ∧ composerSize composer = Some (1024%Q, 768%Q) ∧
    _clock (comp s') = Some clock ∧ running clock = true ∧
    resizeListeners (world s') = [(term demo_term, onResize)] ∧
    fid frame = nextFrame (world demo_ready) ∧
    pending (world s') = pending (world demo_ready) ++ [frame] ∧
    _animationId (comp s') = Some (fid frame).
Proof.
  split; [exact demo_ready_Initialized|]. split; [exact demo_ready_term|].
  split; [exact demo_ready_listeners|].
  exact (first_resize_starts_the_loop demo_ready demo_term (1024%Q, 768%Q)
           demo_ready_Initialized demo_ready_term demo_ready_listeners).
Defined.

(** X12 on the concrete terminal. *)
Lemma loop_follows_the_tab_witness :
  loop_tied demo_looping ∧
  let s' := after_all [PropsUpdate (mkProps false false); AnimationFrame;
                       PropsUpdate (mkProps true false)] demo_looping in
  Initialized s' ∧
  (∀ tl, tl ∈ resizeListeners (world s') → tl.2 = onResize) ∧
  if isTermActive (props (comp s'))
  then ∃ f, pending (world s') = [f] ∧ _animationId (comp s') = Some (fid f)
  else pending (world s') = [].
Proof.
  split; [exact demo_looping_tied|].
  exact (loop_follows_the_tab
           [PropsUpdate (mkProps false false); AnimationFrame;
            PropsUpdate (mkProps true false)] demo_looping demo_looping_tied).
Defined.

Lemma demo_world_listeners : resizeListeners demo_world = [].
Proof. reflexivity. Qed.

Lemma demo_world_pending : pending demo_world = [].
Proof. reflexivity. Qed.

Lemma demo_world_fault_free : fault_free (host demo_world).
Proof. intros c. reflexivity. Qed.

Lemma demo_world_screen : screenOf demo_world !! termRef demo_term = Some 11.
Proof. vm_compute. reflexivity. Qed.

Lemma demo_world_bounds : bounds demo_world !! term demo_term = Some (800%Q, 600%Q).
Proof. vm_compute. reflexivity. Qed.

(** X13 on the concrete terminal. *)
Lemma loop_tied_from_the_first_resize_witness :
  fault_free (host demo_world) ∧
  screenOf demo_world !! termRef demo_term = Some 11 ∧
  bounds demo_world !! term demo_term = Some (800%Q, 600%Q) ∧
  resizeListeners demo_world = [] ∧
  pending demo_world = [] ∧
  isTermActive (mkProps true false) = true ∧
  loop_tied
    (after_all (Resized (term demo_term) (1024%Q, 768%Q) ::
                [AnimationFrame; PropsUpdate (mkProps false false)])
       (state_of (_init (mkState (set_term (Some demo_term)
                                    (constructor (mkProps true false))) demo_world)))).
Proof.
  split; [exact demo_world_fault_free|]. split; [exact demo_world_screen|].
  split; [exact demo_world_bounds|]. split; [exact demo_world_listeners|].
  split; [exact demo_world_pending|]. split; [reflexivity|].
  exact (loop_tied_from_the_first_resize (mkProps true false) demo_world demo_term 11
           (800%Q, 600%Q) (1024%Q, 768%Q)
           [AnimationFrame; PropsUpdate (mkProps false false)]
           demo_world_fault_free demo_world_screen demo_world_bounds
           demo_world_listeners demo_world_pending eq_refl).
Defined.


(** X16 on the concrete terminal. *)
Lemma unmount_clears_the_component_witness :
  _isInit (comp demo_ready) = true ∧ Destroyable demo_ready ∧
  ∃ u' scene o c,
    componentWillUnmount (mounted demo_ready) = Ok tt u' ∧
    comp (inst u') = unmounted (comp demo_ready) ∧
    xTermLayerMap_null u' = true ∧ passes_null u' = true ∧ shaderPasses_null u' = true ∧
    _scene (comp demo_ready) = Some scene ∧ _layerObserver (comp demo_ready) = Some o ∧
    _canvas (comp demo_ready) = Some c ∧
    released u' =
      layer_releases (children scene) ++
      [ObserverDisconnect o; CanvasRemove c; ComposerDispose; RendererDispose;
       ForceContextLoss; ContextNull; DomElementNull].
Proof.
  split; [exact demo_ready_isInit|]. split; [exact demo_ready_Destroyable|].
  exact (unmount_clears_the_component demo_ready demo_ready_isInit demo_ready_Destroyable).
Defined.

(** X17 on the concrete terminal. *)
Lemma unmount_disposes_the_layers_witness :
  _isInit (comp demo_ready) = true ∧ Destroyable demo_ready ∧
  ∃ u' scene,
    componentWillUnmount (mounted demo_ready) = Ok tt u' ∧
    _scene (comp demo_ready) = Some scene ∧
    (∀ mesh mat t,
       mesh ∈ children scene →
       materials (world demo_ready) !! material mesh = Some mat →
       textures (world demo_ready) !! map mat = Some t →
       textures (world (inst u')) !! map mat = Some (dispose t)) ∧
    (∀ i, (∀ mesh mat, mesh ∈ children scene →
                       materials (world demo_ready) !! material mesh = Some mat →
                       map mat ≠ i) →
          textures (world (inst u')) !! i = textures (world demo_ready) !! i) ∧
    pending (world (inst u')) =
      filter (fun f => Some (fid f) ≠ _animationId (comp demo_ready))
             (pending (world demo_ready)) ∧
    materials (world (inst u')) = materials (world demo_ready).
Proof.
  split; [exact demo_ready_isInit|]. split; [exact demo_ready_Destroyable|].
  exact (unmount_disposes_the_layers demo_ready demo_ready_isInit demo_ready_Destroyable).
Defined.

(** X18 on the concrete terminal. *)
Lemma unmount_leaves_the_listeners_witness :
  _isInit (comp demo_ready) = true ∧ Destroyable demo_ready ∧
  ∃ u',
    componentWillUnmount (mounted demo_ready) = Ok tt u' ∧
    resizeListeners (world (inst u')) = resizeListeners (world demo_ready) ∧
    ∀ t l ls,
      (filter (fun tl : XTerm * Listener => tl.1 = t)
         (resizeListeners (world demo_ready))).*2 = l :: ls →
      ∃ what, emit_resize t (inst u') = Throw (TypeError what) (inst u').
Proof.
  split; [exact demo_ready_isInit|]. split; [exact demo_ready_Destroyable|].
  exact (unmount_leaves_the_listeners demo_ready demo_ready_isInit demo_ready_Destroyable).
Defined.

(** X19 on the concrete terminal. *)
Lemma unmount_succeeds_after_init_witness :
  fault_free (host demo_world) ∧
  screenOf demo_world !! termRef demo_term = Some 11 ∧
  bounds demo_world !! term demo_term = Some (800%Q, 600%Q) ∧
  ∃ u',
    componentWillUnmount
      (mounted (after_all [Resized 5 (1024%Q, 768%Q); Mutations demo_batch; AnimationFrame]
                  (state_of (_init (mkState (set_term (Some demo_term)
                                               (constructor (mkProps true false)))
                                      demo_world)))))
    = Ok tt u' ∧
    _isInit (comp (inst u')) = false ∧
    released u' =
      layer_releases
        (layer_meshes (800%Q, 600%Q) (length (materials demo_world))
           (default [] (canvasesOf demo_world !! 11))) ++
      [ObserverDisconnect (length (observers demo_world)); CanvasRemove (created demo_world);
       ComposerDispose; RendererDispose; ForceContextLoss; ContextNull; DomElementNull].
Proof.
  split; [exact demo_world_fault_free|]. split; [exact demo_world_screen|].
  split; [exact demo_world_bounds|].
  exact (unmount_succeeds_after_init (mkProps true false) demo_world demo_term 11
           (800%Q, 600%Q)
           [Resized 5 (1024%Q, 768%Q); Mutations demo_batch; AnimationFrame]
           demo_world_fault_free demo_world_screen demo_world_bounds).
Defined.

Lemma screenless_fault_free : fault_free (host screenless_world).
Proof. intros c. reflexivity. Qed.

Lemma screenless_no_screen : screenOf screenless_world !! termRef demo_term = None.
Proof. vm_compute. reflexivity. Qed.

(** X20 on the concrete terminal. *)
Lemma init_without_screen_throws_witness :
  fault_free (host (world screenless_start)) ∧
  _term (comp screenless_start) = Some demo_term ∧
  screenOf (world screenless_start) !! termRef demo_term = None ∧
  ∃ s',
    _init screenless_start
    = Throw (TypeError "this._xTermScreen") s' ∧
    _isInit (comp s') = true ∧
    _container (comp s') = Some (termRef demo_term) ∧
    _xTermScreen (comp s') = None ∧
    _canvas (comp s') = _canvas (comp screenless_start) ∧
    _scene (comp s') = _scene (comp screenless_start) ∧
    _clock (comp s') = _clock (comp screenless_start) ∧
    _composer (comp s') = _composer (comp screenless_start) ∧
    _layerObserver (comp s')
    = _layerObserver (comp screenless_start) ∧
    observers (world s')
    = observers (world screenless_start) ∧
    resizeListeners (world s')
    = resizeListeners (world screenless_start) ∧
    created (world s')
    = created (world screenless_start) ∧
    ∀ t', ∃ s'', _onDecorated t' s' = Ok tt s'' ∧ comp s'' = comp s'.
Proof.
  split; [exact screenless_fault_free|]. split; [exact demo_term_set|].
  split; [exact screenless_no_screen|].
  exact (init_without_screen_throws screenless_start demo_term
           screenless_fault_free demo_term_set screenless_no_screen).
Defined.

(** X21 on the concrete terminal. *)
Lemma unmount_after_failed_init_throws_witness :
  fault_free (host screenless_world) ∧
  screenOf screenless_world !! termRef demo_term = None ∧
  ∃ s' u',
    _init (mkState (set_term (Some demo_term) (constructor (mkProps true false)))
             screenless_world)
    = Throw (TypeError "this._xTermScreen") s' ∧
    componentWillUnmount (mounted s') = Throw (TypeError "this._clock") u' ∧
    comp (inst u') = comp s' ∧ released u' = [].
Proof.
  split; [exact screenless_fault_free|]. split; [exact screenless_no_screen|].
  exact (unmount_after_failed_init_throws (mkProps true false) screenless_world demo_term
           screenless_fault_free screenless_no_screen).
Defined.






Lemma stray_removed : removedNodes stray_record = 30 :: [].
Proof. reflexivity. Qed.

Lemma stray_unknown : _xTermLayerMap (comp demo_ready) !! 30 = None.
Proof. vm_compute. reflexivity. Qed.

(** X23 on the concrete terminal. *)
Lemma replacement_of_unknown_canvas_throws_witness :
  removedNodes stray_record = 30 :: [] ∧
  _xTermLayerMap (comp demo_ready) !! 30 = None ∧
  ∃ s',
    deliver_mutations (stray_record :: []) demo_ready
    = Throw (TypeError "affectedMaterial") s' ∧
    comp s' = comp demo_ready ∧
    materials (world s') = materials (world demo_ready) ∧
    textures (world s') =
      textures (world demo_ready) ++
      [mkTexture (head (addedNodes stray_record)) LinearFilter true false].
Proof.
  split; [exact stray_removed|]. split; [exact stray_unknown|].
  exact (replacement_of_unknown_canvas_throws demo_ready stray_record [] 30 []
           stray_removed stray_unknown).
Defined.

Lemma stray_not_a_layer : 30 ∉ default [] (canvasesOf demo_world !! 11).
Proof.
  replace (default [] (canvasesOf demo_world !! 11)) with [20; 21]
    by (vm_compute; reflexivity).
  intros H. apply elem_of_cons in H as [H|H]; [discriminate H|].
  apply elem_of_cons in H as [H|H]; [discriminate H|].
  by apply elem_of_nil in H.
Qed.

(** X24 on the concrete terminal. *)
Lemma only_the_first_canvases_are_layers_witness :
  fault_free (host demo_world) ∧
  screenOf demo_world !! termRef demo_term = Some 11 ∧
  bounds demo_world !! term demo_term = Some (800%Q, 600%Q) ∧
  removedNodes stray_record = 30 :: [] ∧
  (30 ∉ default [] (canvasesOf demo_world !! 11)) ∧
  let s := after_all [Mutations demo_batch]
             (state_of (_init (mkState (set_term (Some demo_term)
                                          (constructor (mkProps true false)))
                                 demo_world))) in
  ∃ s',
    deliver_mutations (stray_record :: []) s = Throw (TypeError "affectedMaterial") s' ∧
    comp s' = comp s ∧ materials (world s') = materials (world s).
Proof.
  split; [exact demo_world_fault_free|]. split; [exact demo_world_screen|].
  split; [exact demo_world_bounds|]. split; [exact stray_removed|].
  split; [exact stray_not_a_layer|].
  exact (only_the_first_canvases_are_layers (mkProps true false) demo_world demo_term 11
           (800%Q, 600%Q) [Mutations demo_batch] stray_record [] 30 []
           demo_world_fault_free demo_world_screen demo_world_bounds
           stray_removed stray_not_a_layer).
Defined.

(** X25 on the concrete terminal. *)
Lemma resize_twice_is_resize_once_witness :
  Initialized demo_resized ∧
  _term (comp demo_resized) = Some demo_term ∧
  bounds (world demo_resized) !! term demo_term = Some (1024%Q, 768%Q) ∧
  ∃ s', on_resize_listener demo_resized = Ok tt s' ∧ on_resize_listener s' = Ok tt s'.
Proof.
  split; [exact demo_resized_Initialized|]. split; [exact demo_resized_term|].
  split; [exact demo_resized_bounds|].
  exact (resize_twice_is_resize_once demo_resized demo_term (1024%Q, 768%Q)
           demo_resized_Initialized demo_resized_term demo_resized_bounds).
Defined.

(** X15 on the concrete terminal. *)
Lemma initialized_stays_initialized_witness :
  Initialized demo_ready ∧
  Initialized
    (after_all [Mutations [stray_record]; Resized 5 (1024%Q, 768%Q); AnimationFrame;
                Decorated None] demo_ready).
Proof.
  split; [exact demo_ready_Initialized|].
  exact (initialized_stays_initialized
           [Mutations [stray_record]; Resized 5 (1024%Q, 768%Q); AnimationFrame;
            Decorated None] demo_ready demo_ready_Initialized).
Defined.



Lemma demo_no_shaders :
  Forall (fun c => Legacy.no_shader c = true)
    [Legacy.CNull; Legacy.CStr EmptyString; Legacy.CNum 3; Legacy.CBool true].
Proof. repeat constructor. Qed.

(** X27 on the concrete terminal. *)
Lemma parse_of_no_shaders_is_null_witness :
  Forall (fun c => Legacy.no_shader c = true)
    [Legacy.CNull; Legacy.CStr EmptyString; Legacy.CNum 3; Legacy.CBool true] ∧
  Legacy._parseShadersFromConfig demo_fromString demo_fromOptions None
    (Legacy.CArr [Legacy.CNull; Legacy.CStr EmptyString; Legacy.CNum 3; Legacy.CBool true])
    demo_world
  = Ok Legacy.SNull demo_world.
Proof.
  split; [exact demo_no_shaders|].
  exact (parse_of_no_shaders_is_null demo_fromString demo_fromOptions None
           [Legacy.CNull; Legacy.CStr EmptyString; Legacy.CNum 3; Legacy.CBool true]
           demo_world demo_no_shaders).
Defined.




